(** * CodeZ execution core (server-enhanced.js): a shallow embedding

    The development follows the layout of [server-enhanced.js]:

    - [JS]: the JavaScript values the server manipulates (strings as
      sequences of UTF-16 code units, [Buffer.toString], truthiness,
      template-literal rendering of numbers);
    - [Registry]: [LANGUAGE_CONFIG] and the property read
      [LANGUAGE_CONFIG[language]];
    - [World]: the directory [TEMP_DIR], the clock, the console, and the
      requests to the thread pool that nobody waits for any more;
    - [Workspace]: [cleanupWorkDir] and the periodic sweep installed
      with [setInterval];
    - [Runner]: [executeProcess], i.e. the [spawn] call and the callbacks
      it registers on the child process;
    - [Pipeline]: [executeCode] and the [POST /execute] route;
    - [Lifecycle]: the shutdown callback.

    Definitions come first, the properties of each component after. *)

From Stdlib Require Import ZArith List String Ascii Lia Bool.
From stdpp Require Import base gmap strings list pretty.

Local Open Scope Z_scope.

(* ===================================================================== *)
(** ** JavaScript values *)
(* ===================================================================== *)

Module JS.

(** A JavaScript string is a sequence of UTF-16 code units; [s.length]
    counts code units. *)
Abbreviation jsstring := (list N).

(** A string literal of the source (all of them are ASCII). *)
Definition js (s : string) : jsstring :=
  map N_of_ascii (list_ascii_of_string s).
Arguments js : simpl never.

(** [if (s)] on a string: the empty string is the only falsy one. *)
Definition truthy (s : jsstring) : bool :=
  match s with [] => false | _ :: _ => true end.

(** [s.length] *)
Definition jslength (s : jsstring) : Z := Z.of_nat (length s).

(** *** [Buffer.prototype.toString()] (UTF-8 decoding)

    The ['data'] events of a child's stdout/stderr carry [Buffer]s (no
    encoding is set on the streams); [data.toString()] decodes the
    bytes as UTF-8, replacing ill-formed sequences by U+FFFD, and the
    result is a UTF-16 string.  The decoder below is the usual
    byte-at-a-time automaton. *)
Record utf8_state := Utf8 {
  code_point : N; bytes_seen : N; bytes_needed : N;
  lower_boundary : N; upper_boundary : N }.

Definition utf8_init : utf8_state := Utf8 0 0 0 0x80 0xBF.

Definition REPLACEMENT : N := 0xFFFD.

Definition between (lo hi b : N) : bool := ((lo <=? b) && (b <=? hi))%N.

(** A byte read while no sequence is in progress. *)
Definition utf8_lead (b : N) : utf8_state * list N :=
  if (b <=? 0x7F)%N then (utf8_init, [b])
  else if between 0xC2 0xDF b then
    (Utf8 (N.land b 0x1F) 0 1 0x80 0xBF, [])
  else if between 0xE0 0xEF b then
    (Utf8 (N.land b 0xF) 0 2
          (if (b =? 0xE0)%N then 0xA0 else 0x80)
          (if (b =? 0xED)%N then 0x9F else 0xBF), [])
  else if between 0xF0 0xF4 b then
    (Utf8 (N.land b 0x7) 0 3
          (if (b =? 0xF0)%N then 0x90 else 0x80)
          (if (b =? 0xF4)%N then 0x8F else 0xBF), [])
  else (utf8_init, [REPLACEMENT]).

Definition utf8_step (s : utf8_state) (b : N) : utf8_state * list N :=
  if (bytes_needed s =? 0)%N then utf8_lead b
  else if negb (between (lower_boundary s) (upper_boundary s) b) then
    (* ill-formed: emit U+FFFD and read the byte again as a lead byte *)
    let '(s', out) := utf8_lead b in (s', REPLACEMENT :: out)
  else
    let cp := N.lor (N.shiftl (code_point s) 6) (N.land b 0x3F) in
    if (bytes_seen s + 1 =? bytes_needed s)%N then (utf8_init, [cp])
    else (Utf8 cp (bytes_seen s + 1) (bytes_needed s) 0x80 0xBF, []).

Fixpoint utf8_decode_from (s : utf8_state) (bs : list N) : list N :=
  match bs with
  | [] => if (bytes_needed s =? 0)%N then [] else [REPLACEMENT]
  | b :: bs' =>
      let '(s', out) := utf8_step s b in out ++ utf8_decode_from s' bs'
  end.

(** The bytes already read of the sequence in progress. *)
Definition bytes_pending (s : utf8_state) : Z :=
  if (bytes_needed s =? 0)%N then 0 else Z.of_N (bytes_seen s) + 1.

(** A code point as UTF-16 code units (a surrogate pair above the BMP). *)
Definition utf16_encode (cp : N) : jsstring :=
  if (cp <? 0x10000)%N then [cp]
  else let c := (cp - 0x10000)%N in
       [(0xD800 + c / 0x400)%N; (0xDC00 + c mod 0x400)%N].

Definition Buffer_toString (data : list Byte.byte) : jsstring :=
  flat_map utf16_encode (utf8_decode_from utf8_init (map Byte.to_N data)).

(** The size in bytes of a [Buffer]. *)
Definition byteLength (data : list Byte.byte) : Z := Z.of_nat (length data).

(** An exit code as Node reports it to ['close']: a number, or [null]
    when the child was ended by a signal. *)
Abbreviation exit_code := (option Z).

(** [`${code}`] *)
Definition render_code (code : exit_code) : jsstring :=
  match code with
  | Some n => js (pretty n)
  | None => js "null"
  end.

(** [code !== 0] *)
Definition code_is_not_zero (code : exit_code) : bool :=
  match code with
  | Some 0 => false
  | _ => true
  end.

(** Exceptions.  For a failed system call, and for an argument that
    Node's own checks refuse, the error code stands for the whole
    message. *)
Inductive exn :=
| Error (message : jsstring)
| ReferenceError (message : jsstring)
| TypeError (message : jsstring)
| SystemError (errno : string)
| NodeError (code : string).

(** [error.message] *)
Definition message (e : exn) : jsstring :=
  match e with
  | Error m | ReferenceError m | TypeError m => m
  | SystemError c | NodeError c => js c
  end.

End JS.
Import JS.


(* ===================================================================== *)
(** ** The world: file system under TEMP_DIR, clock, console *)
(* ===================================================================== *)

Module World.

(** The directory [TEMP_DIR] holds entries by name.  A directory entry
    (a workspace) lists its children; of a child only its kind matters
    to the server, which never looks inside a nested directory. *)
Inductive kind := KFile | KDir.

#[global] Instance kind_eq_dec : EqDecision kind.
Proof. solve_decision. Defined.

Inductive entry :=
| File (mtimeMs : Z)
| Dir (mtimeMs : Z) (children : gmap jsstring kind).

Abbreviation FS := (gmap jsstring entry).

(** What the server did to the outside, in order: the system calls
    that change the file system, and the calls of [executeProcess] (the
    only place where a program is started). *)
Inductive syscall :=
| Mkdir (dir : jsstring)
| WriteFile (dir file : jsstring)
| Unlink (dir file : jsstring)
| Rmdir (dir : jsstring)
| ExecuteProcess (command : jsstring) (args : list jsstring).

Inductive level := LogLevel | ErrorLevel.

(** A request handed to the thread pool: the server makes only one kind
    that it may stop waiting for, [fs.unlink(path.join(dir, file))]. *)
Inductive request := Unlinking (dir file : jsstring).

#[global] Instance request_eq_dec : EqDecision request.
Proof. solve_decision. Defined.

Record t := Build {
  fs : FS;
  clock : Z;                              (* [Date.now()] *)
  uuids : nat;                            (* identifiers drawn so far *)
  console : list (level * jsstring);
  calls : list syscall;
  inflight : list request }.     (* started, not finished, awaited by nobody *)

(** A world in which no request is in flight. *)
Definition Make (f : FS) (now : Z) (n : nat) (out : list (level * jsstring))
    (cs : list syscall) : t :=
  Build f now n out cs [].

Definition set_fs (f : FS) (w : t) : t :=
  Build f (clock w) (uuids w) (console w) (calls w) (inflight w).
Definition called (c : syscall) (w : t) : t :=
  Build (fs w) (clock w) (uuids w) (console w) (calls w ++ [c]) (inflight w).
Definition set_inflight (rs : list request) (w : t) : t :=
  Build (fs w) (clock w) (uuids w) (console w) (calls w) rs.

(** *** Computations: a state and exception monad.  [Never] is an
    [await] on a promise that is never settled. *)
Inductive result (A : Type) :=
| Ok (a : A)
| Throw (e : exn)
| Never.
Arguments Ok {A} a.
Arguments Throw {A} e.
Arguments Never {A}.

Definition M (A : Type) : Type := t -> result A * t.

Definition ret {A} (a : A) : M A := fun w => (Ok a, w).
Definition throw {A} (e : exn) : M A := fun w => (Throw e, w).
Definition bind {A B} (m : M A) (k : A -> M B) : M B :=
  fun w =>
    match m w with
    | (Ok a, w') => k a w'
    | (Throw e, w') => (Throw e, w')
    | (Never, w') => (Never, w')
    end.

(** [try { m } catch (e) { h e }] *)
Definition try_catch {A} (m : M A) (h : exn -> M A) : M A :=
  fun w =>
    match m w with
    | (Throw e, w') => h e w'
    | other => other
    end.

Declare Scope world_scope.
Delimit Scope world_scope with world.
Notation "x <- m ;; k" := (bind m (fun x => k))
  (at level 100, m at next level, right associativity) : world_scope.
Notation "m ;;; k" := (bind m (fun _ => k))
  (at level 100, right associativity) : world_scope.
Local Open Scope world_scope.

(** [for (const x of xs) { await body(x) }] *)
Fixpoint for_of {A} (xs : list A) (body : A -> M unit) : M unit :=
  match xs with
  | [] => ret tt
  | x :: xs' => body x ;;; for_of xs' body
  end.

Definition Date_now : M Z := fun w => (Ok (clock w), w).

Definition console_log (msg : jsstring) : M unit :=
  fun w => (Ok tt, Build (fs w) (clock w) (uuids w)
                         (console w ++ [(LogLevel, msg)]) (calls w) (inflight w)).
Definition console_error (msg : jsstring) : M unit :=
  fun w => (Ok tt, Build (fs w) (clock w) (uuids w)
                         (console w ++ [(ErrorLevel, msg)]) (calls w) (inflight w)).

(** *** [fs.promises], on paths [TEMP_DIR/dir] and [TEMP_DIR/dir/file] *)

(** [fs.readdir(TEMP_DIR)] *)
Definition readdir_root : M (list jsstring) :=
  fun w => (Ok (map fst (map_to_list (fs w))), w).

(** [fs.readdir(path.join(TEMP_DIR, dir))] *)
Definition readdir (dir : jsstring) : M (list jsstring) :=
  fun w =>
    match fs w !! dir with
    | Some (Dir _ ch) => (Ok (map fst (map_to_list ch)), w)
    | Some (File _) => (Throw (SystemError "ENOTDIR"), w)
    | None => (Throw (SystemError "ENOENT"), w)
    end.

Record Stats := { isDirectory : bool; stats_mtimeMs : Z }.

(** [fs.stat(path.join(TEMP_DIR, name))] *)
Definition stat (name : jsstring) : M Stats :=
  fun w =>
    match fs w !! name with
    | Some (Dir m _) => (Ok {| isDirectory := true; stats_mtimeMs := m |}, w)
    | Some (File m) => (Ok {| isDirectory := false; stats_mtimeMs := m |}, w)
    | None => (Throw (SystemError "ENOENT"), w)
    end.

(** [fs.unlink(path.join(workDir, file))]: removes a file, never a
    directory. *)
Definition unlink (dir file : jsstring) : M unit :=
  fun w =>
    match fs w !! dir with
    | Some (Dir m ch) =>
        match ch !! file with
        | Some KFile =>
            (Ok tt, called (Unlink dir file)
                      (set_fs (<[dir := Dir (clock w) (delete file ch)]> (fs w)) w))
        | Some KDir => (Throw (SystemError "EISDIR"), w)
        | None => (Throw (SystemError "ENOENT"), w)
        end
    | Some (File _) => (Throw (SystemError "ENOTDIR"), w)
    | None => (Throw (SystemError "ENOENT"), w)
    end.

(** [fs.rmdir(workDir)]: removes an empty directory. *)
Definition rmdir (dir : jsstring) : M unit :=
  fun w =>
    match fs w !! dir with
    | Some (Dir m ch) =>
        if decide (ch = ∅)
        then (Ok tt, called (Rmdir dir) (set_fs (delete dir (fs w)) w))
        else (Throw (SystemError "ENOTEMPTY"), w)
    | Some (File _) => (Throw (SystemError "ENOTDIR"), w)
    | None => (Throw (SystemError "ENOENT"), w)
    end.

(** [fs.mkdir(workDir, { recursive: true })] *)
Definition mkdir (dir : jsstring) : M unit :=
  fun w =>
    match fs w !! dir with
    | None =>
        (Ok tt, called (Mkdir dir) (set_fs (<[dir := Dir (clock w) ∅]> (fs w)) w))
    | Some (Dir _ _) => (Ok tt, w)
    | Some (File _) => (Throw (SystemError "EEXIST"), w)
    end.

(** [fs.writeFile(path.join(workDir, file), content)] *)
Definition writeFile (dir file : jsstring) : M unit :=
  fun w =>
    match fs w !! dir with
    | Some (Dir m ch) =>
        match ch !! file with
        | Some KDir => (Throw (SystemError "EISDIR"), w)
        | Some KFile => (Ok tt, called (WriteFile dir file) w)
        | None =>
            (Ok tt, called (WriteFile dir file)
                      (set_fs (<[dir := Dir (clock w) (<[file := KFile]> ch)]> (fs w)) w))
        end
    | Some (File _) => (Throw (SystemError "ENOTDIR"), w)
    | None => (Throw (SystemError "ENOENT"), w)
    end.

(** *** [Promise.all] over requests made to the thread pool

    [files.map(file => fs.unlink(...))] starts every request at once: the
    thread pool works on them side by side and they finish in an order
    of its own. *)

(** The request, run to its end. *)
Definition perform (r : request) : M unit :=
  match r with Unlinking dir file => unlink dir file end.

(** The first request of the list that is rejected whatever becomes of
    the others (it fails on the file system as it stands), and the other
    requests of the list. *)
Fixpoint first_rejected (rs : list request) (w : t) : option (exn * list request) :=
  match rs with
  | [] => None
  | r :: rs' =>
      match perform r w with
      | (Throw e, _) => Some (e, rs')
      | _ =>
          match first_rejected rs' w with
          | Some (e, others) => Some (e, r :: others)
          | None => None
          end
      end
  end.

(** The requests finishing one after the other in the order they were
    made; should one be rejected (which then is due to an earlier request
    of the same list), the later ones are left in flight. *)
Fixpoint in_turn (rs : list request) : M unit :=
  fun w =>
    match rs with
    | [] => (Ok tt, w)
    | r :: rs' =>
        match perform r w with
        | (Ok _, w') => in_turn rs' w'
        | (Throw e, w') => (Throw e, set_inflight (inflight w' ++ rs') w')
        | (Never, w') => (Never, w')
        end
    end.

(** [await Promise.all(rs)], every request of [rs] having been started.
    When all are fulfilled, the [await] resumes after the last of them.
    When one is rejected, the [await] resumes with its error without
    waiting for the others.  A request that fails on the file system as
    it stands can be the first of all to finish (of several such, the
    first of the list is taken): the state returned is the one in which
    it is, all the others being in flight.  Those that the thread pool
    has in fact finished by then, and those it finishes later, are
    accounted for by [finish]; nobody looks at their outcome any more. *)
Definition Promise_all (rs : list request) : M unit :=
  fun w =>
    match first_rejected rs w with
    | Some (e, others) => (Throw e, set_inflight (inflight w ++ others) w)
    | None => in_turn rs w
    end.

(** *** The thread pool at work on the requests left in flight *)

Fixpoint take_out (r : request) (rs : list request) : list request :=
  match rs with
  | [] => []
  | r' :: rs' => if decide (r' = r) then rs' else r' :: take_out r rs'
  end.

(** The request [r], if it is in flight, finishes; fulfilled or rejected,
    its outcome is dropped. *)
Definition finish_one (r : request) (w : t) : t :=
  if decide (r ∈ inflight w)
  then snd (perform r (set_inflight (take_out r (inflight w)) w))
  else w.

(** The requests of [rs] finish, in that order. *)
Definition finish (rs : list request) (w : t) : t :=
  foldl (fun w r => finish_one r w) w rs.

(** Every request in flight has finished. *)
Definition quiesce (w : t) : t := finish (inflight w) w.

(** The files of [dir] that a request in [rs] is to unlink. *)
Definition unlinking (dir : jsstring) (rs : list request) : list jsstring :=
  omap (fun r => match r with
                 | Unlinking d f => if decide (d = dir) then Some f else None
                 end) rs.

(** *** Reading the log *)

(** The calls of [executeProcess] among the calls logged. *)
Definition executions (cs : list syscall) : list syscall :=
  List.filter (fun c => match c with ExecuteProcess _ _ => true | _ => false end) cs.
Arguments executions : simpl never.

(** The directories created among the calls logged. *)
Definition created (cs : list syscall) : list syscall :=
  List.filter (fun c => match c with Mkdir _ => true | _ => false end) cs.
Arguments created : simpl never.

(** A step that leaves clock, identifiers and console as they were, and
    neither runs a program nor creates a directory. *)
Definition quiet (w w' : t) : Prop :=
  clock w' = clock w /\ uuids w' = uuids w /\ console w' = console w /\
  executions (calls w') = executions (calls w) /\
  created (calls w') = created (calls w).

End World.
Import World.
Local Open Scope world_scope.

(* ===================================================================== *)
(** ** Workspace cleanup and the periodic sweep *)
(* ===================================================================== *)

Module Workspace.

(** Lines 94-95: what [cleanupWorkDir] does with the listing [files]. *)
Definition cleanup_listed (workDir : jsstring) (files : list jsstring) : M unit :=
  Promise_all (map (Unlinking workDir) files) ;;;
  rmdir workDir.

(** Lines 96-98. *)
Definition log_cleanup_error (error : exn) : M unit :=
  console_error (js "Cleanup error: " ++ message error).

(** [cleanupWorkDir], lines 91-99.  It returns as soon as [Promise.all]
    has settled: on a rejection the unlinks still in flight are not
    waited for, and [rmdir] is not tried. *)
Definition cleanupWorkDir (workDir : jsstring) : M unit :=
  try_catch
    (files <- readdir workDir ;;
     cleanup_listed workDir files)
    log_cleanup_error.

(** [10 * 60 * 1000] *)
Definition STALE_MS : Z := 10 * 60 * 1000.

(** The body of the [for] loop of the periodic cleanup, lines 108-117. *)
Definition sweep_entry (now : Z) (file : jsstring) : M unit :=
  try_catch
    (stats <- stat file ;;
     if isDirectory stats && (STALE_MS <? now - stats_mtimeMs stats)
     then cleanupWorkDir file ;;;
          console_log ([0xD83E; 0xDDF9]%N ++ js " Cleaned up: " ++ file)
     else ret tt)
    (fun _ => ret tt).

(** The loop over a listing [files] of [TEMP_DIR] taken earlier. *)
Definition sweep_files (now : Z) (files : list jsstring) : M unit :=
  for_of files (sweep_entry now).

(** The callback given to [setInterval], lines 102-122.  Line 120 hands
    the error object itself to [console.error]; the model keeps its
    message. *)
Definition periodic_cleanup : M unit :=
  try_catch
    (files <- readdir_root ;;
     now <- Date_now ;;
     sweep_files now files)
    (fun error => console_error (js "Periodic cleanup error: " ++ message error)).

(** *** What cleanup and sweep leave of an entry *)

(** The children that [fs.unlink] cannot remove. *)
Definition only_dirs (ch : gmap jsstring kind) : gmap jsstring kind :=
  filter (fun kv => kv.2 = KDir) ch.

(** An entry once [cleanupWorkDir] has returned and every unlink it
    started has finished, at time [now]; [None] when it is gone. *)
Definition cleaned (now : Z) (e : entry) : option entry :=
  match e with
  | File m => Some (File m)
  | Dir m ch =>
      if decide (only_dirs ch = ∅) then None
      else Some (Dir (if decide (only_dirs ch = ch) then m else now) (only_dirs ch))
  end.

(** An entry once the sweep begun at [now] has treated it and the
    unlinks started on it have finished, at [clock]. *)
Definition swept (now clock : Z) (e : entry) : option entry :=
  match e with
  | File m => Some (File m)
  | Dir m ch => if decide (STALE_MS < now - m) then cleaned clock e else Some e
  end.

(** A workspace that [cleanupWorkDir] removes: a directory of plain
    files (or nothing at all). *)
Definition removable (e : option entry) : Prop :=
  match e with
  | Some (Dir _ ch) => only_dirs ch = ∅
  | Some (File _) => False
  | None => True
  end.

(** The listing without its first name that [fs.unlink] cannot remove:
    the requests that are in flight when that one is the first to finish. *)
Fixpoint others_in_flight (ch : gmap jsstring kind) (files : list jsstring)
    : list jsstring :=
  match files with
  | [] => []
  | f :: rest =>
      match ch !! f with
      | Some KFile => f :: others_in_flight ch rest
      | _ => rest
      end
  end.

(** An entry when [cleanupWorkDir] returns: a directory of plain files
    is gone; anything else is still as it was. *)
Definition returned (e : option entry) : option entry :=
  match e with
  | Some (Dir _ ch) => if decide (only_dirs ch = ∅) then None else e
  | _ => e
  end.

(** The files of the entry whose unlink [cleanupWorkDir] has started and
    not waited for. *)
Definition pending (e : option entry) : list jsstring :=
  match e with
  | Some (Dir _ ch) =>
      if decide (only_dirs ch = ∅) then []
      else others_in_flight ch (map fst (map_to_list ch))
  | _ => []
  end.

(** Whether the sweep begun at [now] calls [cleanupWorkDir] on the entry. *)
Definition stale (now : Z) (e : option entry) : bool :=
  match e with
  | Some (Dir m _) => bool_decide (STALE_MS < now - m)
  | _ => false
  end.

(** An entry as the sweep begun at [now] leaves it when it moves on, and
    the unlinks it has started on it and not waited for. *)
Definition sweep_returned (now : Z) (e : option entry) : option entry :=
  if stale now e then returned e else e.
Definition sweep_pending (now : Z) (e : option entry) : list jsstring :=
  if stale now e then pending e else [].

(** What can be found of an entry [e] once [cleanupWorkDir] has returned,
    while the unlinks it left in flight finish one by one: a directory
    of plain files is gone; a directory that holds a subdirectory is
    there, with all its subdirectories and some of its files, and
    nothing new; anything else is as it was. *)
Definition after_cleanup (e e' : option entry) : Prop :=
  match e with
  | Some (Dir _ ch) =>
      if decide (only_dirs ch = ∅) then e' = None
      else exists m' ch', e' = Some (Dir m' ch') /\ only_dirs ch ⊆ ch' /\ ch' ⊆ ch
  | other => e' = other
  end.

(** A request that finishes at [now], seen from the file system. *)
Definition finish_fs (now : Z) (files : FS) (r : request) : FS :=
  match r with
  | Unlinking dir f =>
      match files !! dir with
      | Some (Dir m ch) =>
          match ch !! f with
          | Some KFile => <[dir := Dir now (delete f ch)]> files
          | _ => files
          end
      | _ => files
      end
  end.

(** One [fs.unlink] seen from the directory: its mtime and children. *)
Definition unlink_in (now : Z) (st : Z * gmap jsstring kind) (file : jsstring)
    : Z * gmap jsstring kind :=
  match st.2 !! file with
  | Some KFile => (now, delete file st.2)
  | _ => st
  end.

(** Every [fs.unlink] of the listing succeeds. *)
Fixpoint unlinks_ok (ch : gmap jsstring kind) (files : list jsstring) : bool :=
  match files with
  | [] => true
  | f :: rest =>
      match ch !! f with
      | Some KFile => unlinks_ok (delete f ch) rest
      | _ => false
      end
  end.

(** A workspace left behind by a program that made a subdirectory. *)
Definition orphan : FS :=
  {[ js "ws" := Dir 0 (<[js "sub" := KDir]> {[ js "a.out" := KFile ]}) ]}.

End Workspace.
(* ===================================================================== *)
(** ** executeProcess *)
(* ===================================================================== *)

Module Runner.

Inductive signal := SIGTERM | SIGKILL.

(** *** Node's [ChildProcess], as far as the callbacks touch it

    [handle] tells whether the operating-system process is still
    attached (it is released when the process exits).
    [subprocess.kill(sig)] delivers the signal and sets
    [subprocess.killed] when the process is still attached, and does
    nothing otherwise; [killed] therefore records that a signal was
    sent, not that the process has ended. *)
Module ChildProcess.
Record t := Make {
  handle : bool;
  killed : bool;
  signals : list signal;        (* delivered to the process, oldest first *)
  stdin_written : list jsstring;  (* chunks written to its standard input *)
  stdin_ended : bool }.

Definition spawned : t := Make true false [] [] false.

Definition kill (sig : signal) (p : t) : t :=
  if handle p
  then Make true true (signals p ++ [sig]) (stdin_written p) (stdin_ended p)
  else p.

Definition stdin_write (chunk : jsstring) (p : t) : t :=
  Make (handle p) (killed p) (signals p) (stdin_written p ++ [chunk])
       (stdin_ended p).

Definition stdin_end (p : t) : t :=
  Make (handle p) (killed p) (signals p) (stdin_written p) true.

(** The process has exited: Node releases the handle. *)
Definition exited (p : t) : t :=
  Make false (killed p) (signals p) (stdin_written p) (stdin_ended p).

(** What a [read] on the child's side of the stdin pipe observes. *)
Inductive read_result := ReadData (chunk : jsstring) | ReadEOF | ReadBlocks.

Definition stdin_read (p : t) : read_result :=
  match stdin_written p with
  | chunk :: _ => ReadData chunk
  | [] => if stdin_ended p then ReadEOF else ReadBlocks
  end.
End ChildProcess.

(** *** Timers *)
Inductive timer_status := Armed | Fired | Cleared.
Record timer := Timer { delay : Z; status : timer_status }.

Definition clearTimeout (t : timer) : timer :=
  match status t with
  | Armed => Timer (delay t) Cleared
  | _ => t
  end.

(** *** The promise's result *)
Record ProcessResult := Result {
  r_stdout : jsstring;
  r_stderr : jsstring;
  r_exitCode : exit_code;
  r_error : option jsstring }.

Inductive settlement := Resolved (r : ProcessResult) | Rejected (e : exn).

(** *** The variables the callbacks of [executeProcess] close over *)
Record state := State {
  stdout : jsstring;
  stderr : jsstring;
  killed : bool;
  timeoutId : timer;
  graceId : option timer;          (* the timer set inside the timeout callback *)
  process : ChildProcess.t;
  settled : option settlement }.   (* [None] while the promise is pending *)

Definition set_process (p : ChildProcess.t) (s : state) : state :=
  State (stdout s) (stderr s) (killed s) (timeoutId s) (graceId s) p (settled s).
Definition set_killed (b : bool) (s : state) : state :=
  State (stdout s) (stderr s) b (timeoutId s) (graceId s) (process s) (settled s).
Definition set_stdout (x : jsstring) (s : state) : state :=
  State x (stderr s) (killed s) (timeoutId s) (graceId s) (process s) (settled s).
Definition set_stderr (x : jsstring) (s : state) : state :=
  State (stdout s) x (killed s) (timeoutId s) (graceId s) (process s) (settled s).
Definition set_timeoutId (t : timer) (s : state) : state :=
  State (stdout s) (stderr s) (killed s) t (graceId s) (process s) (settled s).
Definition set_graceId (t : option timer) (s : state) : state :=
  State (stdout s) (stderr s) (killed s) (timeoutId s) t (process s) (settled s).

(** [process.kill(sig)] *)
Definition kill (sig : signal) (s : state) : state :=
  set_process (ChildProcess.kill sig (process s)) s.

(** [resolve]/[reject]: only the first call settles the promise. *)
Definition settle (x : settlement) (s : state) : state :=
  match settled s with
  | Some _ => s
  | None =>
      State (stdout s) (stderr s) (killed s) (timeoutId s) (graceId s)
            (process s) (Some x)
  end.

(** [1024 * 1024] *)
Definition OUTPUT_LIMIT : Z := 1024 * 1024.

Definition TERMINATED_MESSAGE : jsstring :=
  js "Process terminated: execution timeout or output limit exceeded".

(** *** The callbacks *)

(** [setTimeout(() => {...}, timeout)], lines 149-157.  [spawn] was
    given [timeout] too: for a delay above 0 Node sets a timer of its own
    inside [spawn], just before [timeoutId] and with the same delay, whose
    callback sends SIGTERM and runs just before this one.  Node clears
    that timer when the child exits, after which [kill] does nothing
    anyway; the ['error'] and ['close'] events that clear [timeoutId]
    come from a child that cannot be signalled (it was not started, it
    refused the signal, or it has exited). *)
Definition on_timeout (s : state) : state :=
  match status (timeoutId s) with
  | Armed =>
      let s := set_timeoutId (Timer (delay (timeoutId s)) Fired) s in
      let s := if 0 <? delay (timeoutId s)
               then kill SIGTERM s                   (* spawn's own [timeout] *)
               else s in
      let s := set_killed true s in
      let s := kill SIGTERM s in
      set_graceId (Some (Timer 1000 Armed)) s
  | _ => s
  end.

(** The inner [setTimeout(() => {...}, 1000)], lines 152-156. *)
Definition on_grace (s : state) : state :=
  match graceId s with
  | Some (Timer d Armed) =>
      let s := set_graceId (Some (Timer d Fired)) s in
      if negb (ChildProcess.killed (process s)) then kill SIGKILL s else s
  | _ => s
  end.

(** [process.stdout.on('data', ...)], lines 160-167. *)
Definition on_stdout_data (data : list Byte.byte) (s : state) : state :=
  let s := set_stdout (stdout s ++ Buffer_toString data) s in
  if decide (OUTPUT_LIMIT < jslength (stdout s))
  then kill SIGTERM (set_killed true s)
  else s.

(** [process.stderr.on('data', ...)], lines 169-175. *)
Definition on_stderr_data (data : list Byte.byte) (s : state) : state :=
  let s := set_stderr (stderr s ++ Buffer_toString data) s in
  if decide (OUTPUT_LIMIT < jslength (stderr s))
  then kill SIGTERM (set_killed true s)
  else s.

(** [process.on('error', ...)], lines 178-181. *)
Definition on_error (e : exn) (s : state) : state :=
  let s := set_timeoutId (clearTimeout (timeoutId s)) s in
  settle (Rejected e) s.

(** [process.on('close', ...)], lines 184-202. *)
Definition on_close (code : exit_code) (s : state) : state :=
  let s := set_timeoutId (clearTimeout (timeoutId s)) s in
  if killed s then
    settle (Resolved (Result (stdout s) (stderr s) (Some (-1))
                             (Some TERMINATED_MESSAGE))) s
  else
    settle (Resolved (Result (stdout s) (stderr s) code
               (if code_is_not_zero code
                then Some (js "Process exited with code " ++ render_code code)
                else None))) s.

(** *** What the event loop can deliver to a running [executeProcess]

    These are the events the executor has a callback for.  A write to
    the child's standard input that fails (EPIPE, the child having
    closed it) is not among them: the stream has no ['error'] listener,
    so that error ends the server itself and no callback runs after it. *)
Inductive event :=
| StdoutData (data : list Byte.byte)
| StderrData (data : list Byte.byte)
| TimeoutElapsed                 (* [timeout] ms have passed *)
| GraceElapsed                   (* 1000 ms after the timeout callback *)
| Exited                         (* the operating-system process ended *)
| ErrorEvent (e : exn)
| CloseEvent (code : exit_code).

Definition step (s : state) (ev : event) : state :=
  match ev with
  | StdoutData d => on_stdout_data d s
  | StderrData d => on_stderr_data d s
  | TimeoutElapsed => on_timeout s
  | GraceElapsed => on_grace s
  | Exited => set_process (ChildProcess.exited (process s)) s
  | ErrorEvent e => on_error e s
  | CloseEvent c => on_close c s
  end.

Definition deliver (evs : list event) (s : state) : state :=
  fold_left step evs s.

(** The state once the executor has run to its end: callbacks
    registered, and [if (input) { write; end }] done (lines 205-208). *)
Definition started (input : jsstring) (timeout : Z) : state :=
  let p := ChildProcess.spawned in
  State [] [] false (Timer timeout Armed) None
        (if truthy input
         then ChildProcess.stdin_end (ChildProcess.stdin_write input p)
         else p)
        None.

(** The callbacks at work on a child delivered by [spawn], which takes
    a delay that is not negative. *)
Definition run (input : jsstring) (timeout : Z) (evs : list event) : state :=
  deliver evs (started input timeout).

(** *** Observations on a run *)

(** The two ways a run is forced to end. *)
Definition timed_out (s : state) : Prop := status (timeoutId s) = Fired.
Definition overflowed (s : state) : Prop :=
  OUTPUT_LIMIT < jslength (stdout s) \/ OUTPUT_LIMIT < jslength (stderr s).

(** The text delivered on each stream, decoded chunk by chunk, and the
    number of bytes delivered on stdout. *)
Definition stdout_text (evs : list event) : jsstring :=
  flat_map (fun ev => match ev with StdoutData d => Buffer_toString d | _ => [] end) evs.
Definition stderr_text (evs : list event) : jsstring :=
  flat_map (fun ev => match ev with StderrData d => Buffer_toString d | _ => [] end) evs.
Definition stdout_bytes (evs : list event) : Z :=
  fold_right (fun ev n => match ev with StdoutData d => byteLength d + n | _ => n end)
             0 evs.

(** Events that carry output. *)
Definition is_data (ev : event) : bool :=
  match ev with StdoutData _ | StderrData _ => true | _ => false end.

(** While the grace timer is pending on an attached process, the process
    has [killed] set; and SIGKILL is not among the signals delivered. *)
Definition grace_guard (s : state) : Prop :=
  (SIGKILL ∉ ChildProcess.signals (process s)) /\
  (ChildProcess.handle (process s) = true ->
   (exists d, graceId s = Some (Timer d Armed)) ->
   ChildProcess.killed (process s) = true).

(** Output as a pipe delivers it: chunks of 64 KiB, of the letter [a],
    and of U+00E9 (two bytes each in UTF-8). *)
Definition ascii_chunk : list Byte.byte := replicate (N.to_nat 65536) Byte.x61.
Definition e_acute_chunk : list Byte.byte :=
  concat (replicate (N.to_nat 32768) [Byte.xc3; Byte.xa9]).

(** *** The [spawn] call, lines 138-146 *)

(** [options], with [undefined] for a field that is not given. *)
Record Options := {
  cwd : option jsstring;
  input : option jsstring;
  timeout : option Z;
  memoryLimit : option Z }.

(** An environment block; a name set to [undefined] is not passed on. *)
Abbreviation Environ := (gmap jsstring jsstring).

Definition assign (name : jsstring) (value : option jsstring)
    (env : Environ) : Environ :=
  match value with
  | Some v => <[name := v]> env
  | None => delete name env
  end.

Record SpawnOptions := {
  spawn_cwd : option jsstring;
  spawn_timeout : Z;
  spawn_env : Environ }.

(** A [const] binding exists from the start of its block, and holds no
    value until its declaration, initialiser included, has been
    evaluated. *)
Inductive binding (A : Type) :=
| Uninitialized
| Initialized (a : A).
Arguments Uninitialized {A}.
Arguments Initialized {A} a.

(** The bindings the identifier [process] can resolve to: the
    innermost enclosing block that declares the name wins over Node's
    global [process]. *)
Record lexical_env := {
  block_process : option (binding ChildProcess.t);
  global_process_env : Environ }.

(** [process.env]; a [ChildProcess] has no [env] property. *)
Definition read_process_env (le : lexical_env) : exn + option Environ :=
  match block_process le with
  | Some Uninitialized =>
      inl (ReferenceError (js "Cannot access 'process' before initialization"))
  | Some (Initialized _) => inr None
  | None => inr (Some (global_process_env le))
  end.

(** [{ ...process.env, HOME: cwd, PATH: process.env.PATH }] *)
Definition env_expression (le : lexical_env) (cwd : option jsstring)
    : exn + Environ :=
  match read_process_env le with
  | inl e => inl e
  | inr None =>
      inl (TypeError (js "Cannot read properties of undefined (reading 'PATH')"))
  | inr (Some env) =>
      inr (assign (js "PATH") (env !! js "PATH") (assign (js "HOME") cwd env))
  end.

(** Where the arguments of [spawn] are evaluated: they are the
    initialiser of [const process], declared in the same block (line
    138), so the name denotes that binding, not yet initialised. *)
Definition at_spawn_arguments (ambient : Environ) : lexical_env :=
  {| block_process := Some Uninitialized; global_process_env := ambient |}.

(** The operating system's side of a [spawn]: what the child does (the
    events it causes), and the file system and clock it leaves. *)
Abbreviation OS :=
  (jsstring -> list jsstring -> SpawnOptions -> FS -> Z ->
   list event * FS * Z).

(** A call of [executeProcess] as a whole: the settlement of the
    promise it returns ([None] when it stays pending), and the file
    system and clock afterwards.  An exception thrown by the executor
    rejects the promise: by the evaluation of the arguments of [spawn],
    or by [spawn] itself, which refuses a negative [timeout]. *)
Definition executeProcess (ambient : Environ) (os : OS)
    (command : jsstring) (args : list jsstring) (options : Options)
    (files : FS) (now : Z) : option settlement * FS * Z :=
  let input := default [] (input options) in
  let timeout := default 10000 (timeout options) in
  match env_expression (at_spawn_arguments ambient) (cwd options) with
  | inl e => (Some (Rejected e), files, now)
  | inr env =>
      if timeout <? 0 then
        (Some (Rejected (NodeError "ERR_OUT_OF_RANGE")), files, now)
      else
        let '(evs, files', now') :=
          os command args
             {| spawn_cwd := cwd options; spawn_timeout := timeout;
                spawn_env := env |} files now in
        (settled (run input timeout evs), files', now')
  end.

End Runner.

(* ===================================================================== *)
(** ** LANGUAGE_CONFIG *)
(* ===================================================================== *)

Module Registry.

Record CompileStep := {
  compile_command : jsstring;
  (* [args(filepath, outputPath)]; the second argument may be missing *)
  compile_args : jsstring -> option jsstring -> list jsstring }.

(** [run.command] is a string, or for cpp a function of the executable's
    path; [run.args] is an array for cpp, a function otherwise. *)
Inductive RunCommand :=
| CommandName (name : jsstring)
| CommandOf (f : jsstring -> jsstring).

Inductive RunArgs :=
| ArgsArray (args : list jsstring)
| ArgsOf (f : jsstring -> list jsstring).

Record RunStep := { run_command : RunCommand; run_args : RunArgs }.

Record LanguageConfig := {
  extension : jsstring;
  compile : option CompileStep;       (* [null] for interpreted languages *)
  run : RunStep;
  timeout : Z;
  memoryLimit : Z }.

Definition undefined_text : jsstring := js "undefined".

Definition cpp_compile : CompileStep := {|
  compile_command := js "g++";
  compile_args := fun filepath outputPath =>
    [filepath; js "-o"; default undefined_text outputPath;
     js "-std=c++17"; js "-Wall"; js "-O2"] |}.

Definition java_compile : CompileStep := {|
  compile_command := js "javac";
  compile_args := fun filepath _ => [filepath] |}.

Definition cpp : LanguageConfig := {|
  extension := js "cpp";
  compile := Some cpp_compile;
  run := {| run_command := CommandOf (fun execPath => execPath);
            run_args := ArgsArray [] |};
  timeout := 10000;
  memoryLimit := 256 |}.

Definition java : LanguageConfig := {|
  extension := js "java";
  compile := Some java_compile;
  run := {| run_command := CommandName (js "java");
            run_args := ArgsOf (fun className => [js "-Xmx256m"; className]) |};
  timeout := 10000;
  memoryLimit := 256 |}.

Definition python : LanguageConfig := {|
  extension := js "py";
  compile := None;
  run := {| run_command := CommandName (js "python3");
            run_args := ArgsOf (fun filepath => [js "-u"; filepath]) |};
  timeout := 10000;
  memoryLimit := 256 |}.

Definition javascript : LanguageConfig := {|
  extension := js "js";
  compile := None;
  run := {| run_command := CommandName (js "node");
            run_args := ArgsOf (fun filepath =>
                                  [js "--max-old-space-size=256"; filepath]) |};
  timeout := 10000;
  memoryLimit := 256 |}.

(** The object literal: its own properties, in source order. *)
Definition LANGUAGE_CONFIG : list (jsstring * LanguageConfig) :=
  [(js "cpp", cpp); (js "java", java); (js "python", python);
   (js "javascript", javascript)].

(** [Object.keys(LANGUAGE_CONFIG)] *)
Definition keys : list jsstring := map fst LANGUAGE_CONFIG.

Fixpoint own_property (name : jsstring)
    (props : list (jsstring * LanguageConfig)) : option LanguageConfig :=
  match props with
  | [] => None
  | (k, v) :: rest => if decide (k = name) then Some v else own_property name rest
  end.

(** [LANGUAGE_CONFIG] is an ordinary object: a property read that finds
    no own property goes on to [Object.prototype], whose members are
    functions (and, for [__proto__], the prototype object itself). *)
Definition OBJECT_PROTOTYPE : list jsstring :=
  map js ["constructor"; "__defineGetter__"; "__defineSetter__";
          "hasOwnProperty"; "__lookupGetter__"; "__lookupSetter__";
          "isPrototypeOf"; "propertyIsEnumerable"; "toString"; "valueOf";
          "__proto__"; "toLocaleString"]%string.

(** The value of [LANGUAGE_CONFIG[language]] when it is not [undefined]. *)
Inductive property :=
| Config (c : LanguageConfig)
| Inherited.       (* truthy; has none of the properties of a configuration *)

(** [LANGUAGE_CONFIG[language]]; [None] is [undefined]. *)
Definition get (language : jsstring) : option property :=
  match own_property language LANGUAGE_CONFIG with
  | Some c => Some (Config c)
  | None =>
      if decide (language ∈ OBJECT_PROTOTYPE) then Some Inherited else None
  end.

(** [language] keys the registry: it is one of the configured ids. *)
Definition registered (language : jsstring) : Prop := language ∈ keys.

(** Property reads on the value found; [None] is [undefined]. *)
Definition get_extension (config : property) : option jsstring :=
  match config with Config c => Some (extension c) | Inherited => None end.
Definition get_compile (config : property) : option CompileStep :=
  match config with Config c => compile c | Inherited => None end.
Definition get_run (config : property) : option RunStep :=
  match config with Config c => Some (run c) | Inherited => None end.
Definition get_timeout (config : property) : option Z :=
  match config with Config c => Some (timeout c) | Inherited => None end.
Definition get_memoryLimit (config : property) : option Z :=
  match config with Config c => Some (memoryLimit c) | Inherited => None end.

End Registry.

(* ===================================================================== *)
(** ** executeCode and POST /execute *)
(* ===================================================================== *)

Module Pipeline.
Import Registry.

(** *** [code.match(/public\s+class\s+(\w+)/)] *)

(** [\s] *)
Definition is_space (c : N) : bool :=
  (between 0x09 0x0D c || (c =? 0x20) || (c =? 0xA0) || (c =? 0x1680)
   || between 0x2000 0x200A c || (c =? 0x2028) || (c =? 0x2029)
   || (c =? 0x202F) || (c =? 0x205F) || (c =? 0x3000) || (c =? 0xFEFF))%N.

(** [\w] *)
Definition is_word (c : N) : bool :=
  (between 0x30 0x39 c || between 0x41 0x5A c || (c =? 0x5F)
   || between 0x61 0x7A c)%N.

Fixpoint strip_prefix (prefix s : jsstring) : option jsstring :=
  match prefix, s with
  | [], _ => Some s
  | p :: prefix', c :: s' =>
      if (p =? c)%N then strip_prefix prefix' s' else None
  | _ :: _, [] => None
  end.

Fixpoint span (f : N -> bool) (s : jsstring) : jsstring * jsstring :=
  match s with
  | c :: s' =>
      if f c then let '(taken, rest) := span f s' in (c :: taken, rest)
      else ([], s)
  | [] => ([], [])
  end.

(** The pattern anchored at the start of [s]; the result is group 1. *)
Definition match_here (s : jsstring) : option jsstring :=
  match strip_prefix (js "public") s with
  | None => None
  | Some s1 =>
      let '(spaces1, s2) := span is_space s1 in
      if truthy spaces1 then
        match strip_prefix (js "class") s2 with
        | None => None
        | Some s3 =>
            let '(spaces2, s4) := span is_space s3 in
            if truthy spaces2 then
              let '(word, _) := span is_word s4 in
              if truthy word then Some word else None
            else None
        end
      else None
  end.

(** The leftmost match. *)
Fixpoint match_public_class (code : jsstring) : option jsstring :=
  match match_here code with
  | Some word => Some word
  | None =>
      match code with
      | [] => None
      | _ :: code' => match_public_class code'
      end
  end.

(** [classMatch ? classMatch[1] : 'Main'] *)
Definition className_of (code : jsstring) : jsstring :=
  default (js "Main") (match_public_class code).

(** [path.join(a, b)] for a single path segment [b]. *)
Definition path_join (a b : jsstring) : jsstring := a ++ js "/" ++ b.

(** The object [executeCode] returns; the compile-failure result has no
    [exitCode] property. *)
Record ExecutionResult := {
  output : jsstring;
  stderr : jsstring;
  error : option jsstring;
  executionTime : Z;
  exitCode : option exit_code }.

(** What [executeCode] needs of a process runner: for a command, the
    settlement of the promise and the file system and clock it leaves. *)
Abbreviation runner :=
  (jsstring -> list jsstring -> Runner.Options -> FS -> Z ->
   option Runner.settlement * FS * Z).

Section WithEnvironment.

Variable TEMP_DIR : jsstring.          (* [path.join(__dirname, 'temp')] *)
Variable uuid_of : nat -> jsstring.    (* the identifiers [uuidv4] yields *)
Variable executeProcess : runner.

Definition uuidv4 : M jsstring :=
  fun w => (Ok (uuid_of (uuids w)),
            World.Build (fs w) (clock w) (S (uuids w)) (console w) (calls w)
                        (inflight w)).

(** [await executeProcess(command, args, options)] *)
Definition await_executeProcess (command : jsstring) (args : list jsstring)
    (options : Runner.Options) : M Runner.ProcessResult :=
  fun w =>
    let '(outcome, files, now) :=
      executeProcess command args options (fs w) (clock w) in
    let w' := World.Build files now (uuids w) (console w)
                (calls w ++ [ExecuteProcess command args]) (inflight w) in
    match outcome with
    | Some (Runner.Resolved r) => (Ok r, w')
    | Some (Runner.Rejected e) => (Throw e, w')
    | None => (Never, w')
    end.

(** Lines 243-249: the arguments given to the compiler. *)
Definition compile_arguments (language : jsstring) (step : CompileStep)
    (workDir filepath : jsstring) : list jsstring :=
  let outputPath :=
    if decide (language = js "cpp")
    then Some (path_join workDir (js "program")) else None in
  compile_args step filepath outputPath.

(** Lines 242-269; [Some result] is the early [return]. *)
Definition compile_phase (language : jsstring) (config : property)
    (id workDir filepath : jsstring) (startTime : Z)
    : M (option ExecutionResult) :=
  match get_compile config with
  | None => ret None
  | Some step =>
      let compileArgs := compile_arguments language step workDir filepath in
      compileResult <-
        await_executeProcess (compile_command step) compileArgs
          {| Runner.cwd := Some workDir; Runner.input := None;
             Runner.timeout := get_timeout config;
             Runner.memoryLimit := None |} ;;
      if code_is_not_zero (Runner.r_exitCode compileResult) then
        Workspace.cleanupWorkDir id ;;;
        now <- Date_now ;;
        ret (Some {| error := Some (js "Compilation failed");
                     stderr := Runner.r_stderr compileResult;
                     output := Runner.r_stdout compileResult;
                     executionTime := now - startTime;
                     exitCode := None |})
      else ret None
  end.

Definition undefined_read (prop : string) : exn :=
  TypeError (js "Cannot read properties of undefined (reading '"
             ++ js prop ++ js "')").

(** Lines 272-285: [runCommand] and [runArgs]. *)
Definition run_target (language : jsstring) (config : property)
    (code workDir filepath : jsstring) : M (jsstring * list jsstring) :=
  if decide (language = js "cpp") then
    match get_run config with
    | None => throw (undefined_read "args")
    | Some r =>
        match run_args r with
        | ArgsArray args => ret (path_join workDir (js "program"), args)
        | ArgsOf _ => throw (TypeError (js "The 'args' argument must be of type object"))
        end
    end
  else
    let argument :=
      if decide (language = js "java") then className_of code else filepath in
    match get_run config with
    | None => throw (undefined_read "command")
    | Some r =>
        match run_command r, run_args r with
        | CommandName name, ArgsOf f => ret (name, f argument)
        | _, ArgsArray _ => throw (TypeError (js "config.run.args is not a function"))
        | CommandOf _, _ => throw (TypeError (js "The 'file' argument must be of type string"))
        end
    end.

(** Lines 227-234: the name of the source file. *)
Definition source_filename (language : jsstring) (config : property)
    (code : jsstring) : jsstring :=
  let ext := default undefined_text (get_extension config) in
  if decide (language = js "java")
  then className_of code ++ js "." ++ ext
  else js "program." ++ ext.

(** [executeCode], lines 213-315. *)
Definition executeCode (language code input : jsstring) : M ExecutionResult :=
  match Registry.get language with
  | None => throw (Error (js "Unsupported language: " ++ language))
  | Some config =>
      id <- uuidv4 ;;
      let workDir := path_join TEMP_DIR id in
      try_catch
        (mkdir id ;;;
         let filename := source_filename language config code in
         let filepath := path_join workDir filename in
         writeFile id filename ;;;
         startTime <- Date_now ;;
         failure <- compile_phase language config id workDir filepath startTime ;;
         match failure with
         | Some result => ret result
         | None =>
             target <- run_target language config code workDir filepath ;;
             runResult <-
               await_executeProcess (fst target) (snd target)
                 {| Runner.cwd := Some workDir; Runner.input := Some input;
                    Runner.timeout := get_timeout config;
                    Runner.memoryLimit := get_memoryLimit config |} ;;
             now <- Date_now ;;
             let executionTime := now - startTime in
             Workspace.cleanupWorkDir id ;;;
             ret {| output := Runner.r_stdout runResult;
                    stderr := Runner.r_stderr runResult;
                    error := Runner.r_error runResult;
                    executionTime := executionTime;
                    exitCode := Some (Runner.r_exitCode runResult) |}
         end)
        (fun error =>
           try_catch (Workspace.cleanupWorkDir id) (fun _ => ret tt) ;;;
           throw error)
  end.

(** *** The route [POST /execute], lines 320-367

    Line 362 hands the error object itself to [console.error]; the model
    keeps its message. *)

(** [req.body]; [None] is a missing field. *)
Record Body := {
  language : option jsstring;
  code : option jsstring;
  input : option jsstring }.

Inductive Json :=
| ErrorJson (error : jsstring)
| ResultJson (result : ExecutionResult).

Record Response := { status : Z; json : Json }.

Definition or_empty (s : option jsstring) : jsstring := default [] s.

Definition join_comma (l : list jsstring) : jsstring :=
  match l with
  | [] => []
  | x :: rest => x ++ flat_map (fun y => js ", " ++ y) rest
  end.

Definition post_execute (body : Body) : M Response :=
  requestStart <- Date_now ;;
  try_catch
    (let language := or_empty (language body) in
     let code := or_empty (code body) in
     if negb (truthy language) || negb (truthy code) then
       ret {| status := 400;
              json := ErrorJson (js "Missing required fields: language and code") |}
     else if negb (bool_decide (is_Some (Registry.get language))) then
       ret {| status := 400;
              json := ErrorJson (js "Unsupported language: " ++ language
                                 ++ js ". Supported: " ++ join_comma keys) |}
     else if 1024 * 1024 <? jslength code then
       ret {| status := 400;
              json := ErrorJson (js "Code size exceeds limit (1MB)") |}
     else if truthy (or_empty (input body))
             && (1024 * 1024 <? jslength (or_empty (input body))) then
       ret {| status := 400;
              json := ErrorJson (js "Input size exceeds limit (1MB)") |}
     else
       console_log ([0x26A1%N] ++ js " Executing " ++ language ++ js " code ("
                    ++ js (pretty (jslength code)) ++ js " bytes)") ;;;
       result <- executeCode language code (or_empty (input body)) ;;
       now <- Date_now ;;
       console_log ([0x2705%N] ++ js " Completed in "
                    ++ js (pretty (now - requestStart)) ++ js "ms") ;;;
       ret {| status := 200; json := ResultJson result |})
    (fun error =>
       console_error ([0x274C%N] ++ js " Execution error: " ++ message error) ;;;
       ret {| status := 500;
              json := ErrorJson (if truthy (message error) then message error
                                 else js "Internal server error") |}).

End WithEnvironment.

(** *** Process runners, for examples *)

(** A compiler that reports one error and exits with code 1, 250 ms later. *)
Definition failing_compiler : runner :=
  fun _ _ _ files now =>
    (Some (Runner.Resolved
       {| Runner.r_stdout := []; Runner.r_stderr := js "error: expected ';'";
          Runner.r_exitCode := Some 1;
          Runner.r_error := Some (js "Process exited with code 1") |}),
     files, now + 250).

(** A program that prints "hi" and exits with code 3. *)
Definition exits_with_3 : runner :=
  fun _ _ options files now =>
    (Runner.settled
       (Runner.run (default [] (Runner.input options))
                   (default 10000 (Runner.timeout options))
                   [Runner.StdoutData [Byte.x68; Byte.x69]; Runner.Exited;
                    Runner.CloseEvent (Some 3)]),
     files, now + 40).

(** A program that starts a background process, prints "ok" and exits
    with code 0 at once.  The background process keeps the pipes open for
    30 s, so ['close'] comes long after ['exit'], the timeout having
    elapsed in between. *)
Definition leaves_pipe_open : runner :=
  fun _ _ options files now =>
    (Runner.settled
       (Runner.run (default [] (Runner.input options))
                   (default 10000 (Runner.timeout options))
                   [Runner.StdoutData [Byte.x6f; Byte.x6b]; Runner.Exited;
                    Runner.TimeoutElapsed; Runner.GraceElapsed;
                    Runner.CloseEvent (Some 0)]),
     files, now + 30000).

End Pipeline.

(* ===================================================================== *)
(** ** Shutdown, and vocabulary for further properties *)
(* ===================================================================== *)

Module Lifecycle.
Import Pipeline Workspace.

(** The pattern [public\s+class\s+(\w+)] as a shape of a string. *)
Definition declares (s word : jsstring) : Prop :=
  exists spaces1 spaces2 rest,
    s = js "public" ++ spaces1 ++ js "class" ++ spaces2 ++ word ++ rest /\
    spaces1 <> [] /\ Forall (fun c => is_space c = true) spaces1 /\
    spaces2 <> [] /\ Forall (fun c => is_space c = true) spaces2 /\
    word <> [] /\ Forall (fun c => is_word c = true) word /\
    (forall c rest', rest = c :: rest' -> is_word c = false).


(** The path separator. *)
Definition slash : N := 0x2F.

(** What is run for a registered language (lines 272-285 on
    [LANGUAGE_CONFIG]): the command and its arguments. *)
Definition invocation (lang src workDir filepath : jsstring)
    : jsstring * list jsstring :=
  if decide (lang = js "cpp") then (path_join workDir (js "program"), [])
  else if decide (lang = js "java") then (js "java", [js "-Xmx256m"; className_of src])
  else if decide (lang = js "python") then (js "python3", [js "-u"; filepath])
  else (js "node", [js "--max-old-space-size=256"; filepath]).

(** The options of the two calls of [executeProcess] (lines 254-257 and
    290-295). *)
Definition compile_options (workDir : jsstring) (c : Registry.LanguageConfig)
    : Runner.Options :=
  {| Runner.cwd := Some workDir; Runner.input := None;
     Runner.timeout := Some (Registry.timeout c); Runner.memoryLimit := None |}.

Definition run_options (workDir stdin : jsstring) (c : Registry.LanguageConfig)
    : Runner.Options :=
  {| Runner.cwd := Some workDir; Runner.input := Some stdin;
     Runner.timeout := Some (Registry.timeout c);
     Runner.memoryLimit := Some (Registry.memoryLimit c) |}.

(** The file system in which the first program is started: the
    workspace holds the source file and nothing else. *)
Definition prepared (id filename : jsstring) (w : World.t) : FS :=
  <[id := Dir (clock w) {[filename := KFile]}]> (fs w).

(** The first call of [executeProcess] for a configuration: the
    compiler when there is a compile step, else the run itself. *)
Definition first_call (lang src stdin workDir filepath : jsstring)
    (c : Registry.LanguageConfig) : jsstring * list jsstring * Runner.Options :=
  match Registry.compile c with
  | Some step =>
      (Registry.compile_command step,
       compile_arguments lang step workDir filepath, compile_options workDir c)
  | None =>
      ((invocation lang src workDir filepath).1,
       (invocation lang src workDir filepath).2, run_options workDir stdin c)
  end.

(** A program that prints "Hello" and exits with code 0, 40 ms later. *)
Definition prints_hello : runner :=
  fun _ _ _ files now =>
    (Some (Runner.Resolved
       {| Runner.r_stdout := js "Hello"; Runner.r_stderr := [];
          Runner.r_exitCode := Some 0; Runner.r_error := None |}),
     files, now + 40).


(** A program that makes a directory [out] and a file [log.txt] in the
    workspace [job] and exits with code 0, 40 ms later. *)
Definition makes_subdirectory : runner :=
  fun _ _ _ files now =>
    (Some (Runner.Resolved
       {| Runner.r_stdout := []; Runner.r_stderr := [];
          Runner.r_exitCode := Some 0; Runner.r_error := None |}),
     match files !! js "job" with
     | Some (Dir _ ch) =>
         <[js "job" := Dir (now + 40)
                           (<[js "out" := KDir]> (<[js "log.txt" := KFile]> ch))]> files
     | _ => files
     end,
     now + 40).

(** The world is as a call of [cleanupWorkDir] on the workspace, begun
    with nothing in flight, left it when it returned. *)
Definition just_cleaned (id : jsstring) (w' : World.t) : Prop :=
  exists w1, inflight w1 = [] /\ cleanupWorkDir id w1 = (Ok tt, w').

(** *** [shutdown], lines 420-443 *)

(** The body of the loop, lines 430-434; there is no [try] around it. *)
Definition shutdown_entry (file : jsstring) : M unit :=
  stats <- stat file ;;
  if isDirectory stats then cleanupWorkDir file else ret tt.

(** The loop over a listing [files] of [TEMP_DIR]. *)
Definition shutdown_files (files : list jsstring) : M unit :=
  for_of files shutdown_entry.

(** The callback given to [server.close], up to [process.exit(0)].  Line
    438 hands the error object itself to [console.error], which prints its
    inspection after the label; the model keeps the message of it. *)
Definition shutdown_callback : M unit :=
  console_log ([0x2705%N] ++ js " Server closed") ;;;
  try_catch
    (files <- readdir_root ;;
     shutdown_files files ;;;
     console_log ([0x2705%N] ++ js " Cleanup complete"))
    (fun error => console_error (js "Cleanup error: " ++ message error)).

End Lifecycle.

(* ===================================================================== *)
(** ** Properties of the JavaScript layer *)
(* ===================================================================== *)

Module JSFacts.

(** ASCII bytes decode to themselves, one code unit per byte. *)
Lemma Buffer_toString_ascii (data : list Byte.byte) :
  Forall (fun b => (Byte.to_N b <= 0x7F)%N) data ->
  Buffer_toString data = map Byte.to_N data.
Proof.
  unfold Buffer_toString.
  induction 1 as [|b data Hb _ IH]; [reflexivity|].
  cbn [map utf8_decode_from].
  unfold utf8_step, utf8_lead; cbn [bytes_needed utf8_init N.eqb].
  apply N.leb_le in Hb as Hb'. rewrite Hb'.
  cbn [app flat_map]. rewrite IH.
  unfold utf16_encode.
  assert ((Byte.to_N b <? 0x10000)%N = true) as -> by (apply N.ltb_lt; lia).
  reflexivity.
Qed.

Lemma jslength_ascii (data : list Byte.byte) :
  Forall (fun b => (Byte.to_N b <= 0x7F)%N) data ->
  jslength (Buffer_toString data) = byteLength data.
Proof.
  intros H. rewrite (Buffer_toString_ascii _ H).
  unfold jslength, byteLength. by rewrite length_map.
Qed.

(** [n] copies of the two bytes C3 A9, the UTF-8 form of U+00E9. *)
Lemma Buffer_toString_e_acute (n : nat) :
  Buffer_toString (concat (replicate n [Byte.xc3; Byte.xa9])) = replicate n 0xE9%N.
Proof.
  unfold Buffer_toString.
  induction n as [|n IH]; [reflexivity|].
  cbn [replicate concat app map utf8_decode_from].
  change (utf8_step utf8_init (Byte.to_N Byte.xc3))
    with (Utf8 3 0 1 0x80 0xBF, @nil N).
  cbn iota beta.
  change (utf8_step (Utf8 3 0 1 0x80 0xBF) (Byte.to_N Byte.xa9))
    with (utf8_init, [0xE9%N]).
  cbn iota beta. cbn [app flat_map]. rewrite IH. reflexivity.
Qed.

(** *** A chunk never decodes to more code units than it has bytes *)

Lemma utf16_encode_length (cp : N) : 1 <= jslength (utf16_encode cp) <= 2.
Proof. unfold utf16_encode, jslength. destruct (cp <? 0x10000)%N; cbn; lia. Qed.

Lemma utf8_lead_bound (b : N) :
  jslength (flat_map utf16_encode (utf8_lead b).2) + bytes_pending (utf8_lead b).1 <= 1.
Proof.
  unfold utf8_lead.
  destruct (b <=? 0x7F)%N eqn:E1.
  { cbn [fst snd flat_map]. rewrite app_nil_r. unfold utf16_encode.
    apply N.leb_le in E1.
    assert ((b <? 0x10000)%N = true) as -> by (apply N.ltb_lt; lia).
    by vm_compute. }
  destruct (between 0xC2 0xDF b); [by vm_compute|].
  destruct (between 0xE0 0xEF b); [by vm_compute|].
  destruct (between 0xF0 0xF4 b); by vm_compute.
Qed.

Lemma utf8_step_bound (s : utf8_state) (b : N) :
  jslength (flat_map utf16_encode (utf8_step s b).2) + bytes_pending (utf8_step s b).1
  <= bytes_pending s + 1.
Proof.
  pose proof (utf8_lead_bound b) as Hlead.
  unfold utf8_step, bytes_pending at 2.
  destruct (bytes_needed s =? 0)%N eqn:E0; [lia|].
  destruct (between (lower_boundary s) (upper_boundary s) b); cbn [negb].
  - destruct (bytes_seen s + 1 =? bytes_needed s)%N.
    + cbn [fst snd flat_map]. rewrite app_nil_r.
      pose proof (utf16_encode_length
                    (N.lor (N.shiftl (code_point s) 6) (N.land b 0x3F))) as Hcp.
      change (bytes_pending utf8_init) with 0. lia.
    + cbn [fst snd flat_map]. unfold bytes_pending. cbn [bytes_needed bytes_seen].
      rewrite E0. unfold jslength. cbn [length]. lia.
  - destruct (utf8_lead b) as [s' out]. cbn [fst snd flat_map] in *.
    unfold jslength in *. rewrite length_app.
    change (length (utf16_encode REPLACEMENT)) with 1%nat. lia.
Qed.

Lemma utf8_decode_bound (s : utf8_state) (bs : list N) :
  jslength (flat_map utf16_encode (utf8_decode_from s bs))
  <= bytes_pending s + Z.of_nat (length bs).
Proof.
  revert s. induction bs as [|b bs IH]; intros s.
  - cbn [utf8_decode_from length]. unfold bytes_pending.
    destruct (bytes_needed s =? 0)%N; unfold jslength; cbn; lia.
  - cbn [utf8_decode_from length].
    pose proof (utf8_step_bound s b) as Hstep.
    destruct (utf8_step s b) as [s' out]. cbn [fst snd] in Hstep.
    specialize (IH s'). rewrite flat_map_app.
    unfold jslength in *. rewrite length_app. lia.
Qed.

(** Whatever bytes a chunk holds, its text has at most as many code
    units: every code unit is paid for by a byte of its own. *)
Lemma jslength_le_byteLength (data : list Byte.byte) :
  jslength (Buffer_toString data) <= byteLength data.
Proof.
  unfold Buffer_toString, byteLength.
  pose proof (utf8_decode_bound utf8_init (map Byte.to_N data)) as H.
  rewrite length_map in H. exact H.
Qed.

End JSFacts.

(* ===================================================================== *)
(** ** Properties of executeProcess *)
(* ===================================================================== *)

Module RunnerFacts.
Import Runner.

Lemma deliver_app (evs1 evs2 : list event) (s : state) :
  deliver (evs1 ++ evs2) s = deliver evs2 (deliver evs1 s).
Proof. apply fold_left_app. Qed.

Lemma run_snoc (input : jsstring) (timeout : Z) (evs : list event) (ev : event) :
  run input timeout (evs ++ [ev]) = step (run input timeout evs) ev.
Proof. unfold run. by rewrite deliver_app. Qed.

(** A property of the initial state that every callback preserves holds
    after any sequence of events. *)
Lemma run_invariant (P : state -> Prop) (input : jsstring) (timeout : Z) :
  P (started input timeout) ->
  (forall s ev, P s -> P (step s ev)) ->
  forall evs, P (run input timeout evs).
Proof.
  intros H0 Hstep evs. induction evs as [|ev evs IH] using rev_ind.
  - exact H0.
  - rewrite run_snoc. by apply Hstep.
Qed.

Lemma jslength_app (a b : jsstring) : jslength (a ++ b) = jslength a + jslength b.
Proof. unfold jslength. rewrite length_app. lia. Qed.

Lemma jslength_nonneg (a : jsstring) : 0 <= jslength a.
Proof. unfold jslength. lia. Qed.

Ltac break_state s :=
  destruct s as [out err k [d st] g p r]; cbn in *.

(** [killed] is set exactly when the timer has fired or a stream has
    outgrown the limit. *)
Lemma killed_iff_forced (input : jsstring) (timeout : Z) (evs : list event) :
  let s := run input timeout evs in
  killed s = true <-> timed_out s \/ overflowed s.
Proof.
  cbv zeta. apply run_invariant.
  - unfold timed_out, overflowed, OUTPUT_LIMIT, jslength. cbn. split; [done|].
    intros [?|[?|?]]; [done|lia|lia].
  - intros s ev IH. unfold timed_out, overflowed in *.
    destruct ev as [data|data| | | |e|code]; cbn [step].
    + unfold on_stdout_data. cbn [stdout set_stdout].
      case_decide as Hlim.
      * cbn. tauto.
      * break_state s. pose proof (jslength_nonneg (Buffer_toString data)).
        rewrite jslength_app in *. rewrite IH. intuition lia.
    + unfold on_stderr_data. cbn [stderr set_stderr].
      case_decide as Hlim.
      * cbn. tauto.
      * break_state s. pose proof (jslength_nonneg (Buffer_toString data)).
        rewrite jslength_app in *. rewrite IH. intuition lia.
    + unfold on_timeout. break_state s.
      destruct st; cbn; [destruct (0 <? d); cbn; tauto|exact IH|exact IH].
    + unfold on_grace. break_state s.
      destruct g as [[d' []]|]; cbn; try exact IH.
      destruct (negb _); cbn; exact IH.
    + break_state s. exact IH.
    + unfold on_error, settle. break_state s.
      destruct r, st; cbn; rewrite IH; intuition congruence.
    + unfold on_close, settle. break_state s.
      destruct k, r, st; cbn; rewrite IH; intuition congruence.
Qed.

(** The text accumulated is all the text delivered, decoded chunk by chunk. *)
Lemma step_streams (s : state) (ev : event) :
  stdout (step s ev) = stdout s ++ stdout_text [ev] /\
  stderr (step s ev) = stderr s ++ stderr_text [ev].
Proof.
  destruct ev as [data|data| | | |e|code]; cbn [step stdout_text stderr_text flat_map];
    rewrite ?app_nil_r.
  - unfold on_stdout_data. case_decide; by destruct s.
  - unfold on_stderr_data. case_decide; by destruct s.
  - unfold on_timeout. destruct s as [? ? ? [d []] ? ? ?]; cbn; try destruct (0 <? d); done.
  - unfold on_grace. destruct s as [? ? ? ? [[? []]|] ? ?]; try done.
    cbn. by destruct (negb _).
  - by destruct s.
  - unfold on_error, settle. destruct s as [? ? ? ? ? ? []]; done.
  - unfold on_close, settle. destruct s as [? ? [] ? ? ? []]; done.
Qed.

Lemma run_streams (input : jsstring) (timeout : Z) (evs : list event) :
  stdout (run input timeout evs) = stdout_text evs /\
  stderr (run input timeout evs) = stderr_text evs.
Proof.
  induction evs as [|ev evs [IH1 IH2]] using rev_ind; [done|].
  rewrite run_snoc. destruct (step_streams (run input timeout evs) ev) as [-> ->].
  unfold stdout_text, stderr_text in *. rewrite !flat_map_app, IH1, IH2. done.
Qed.


(** *** Output in 64 KiB chunks *)

Lemma ascii_chunk_jslength : jslength (Buffer_toString ascii_chunk) = 65536.
Proof.
  unfold ascii_chunk. rewrite JSFacts.jslength_ascii.
  - unfold byteLength. rewrite length_replicate. lia.
  - apply Forall_replicate. by vm_compute.
Qed.

Lemma e_acute_chunk_jslength : jslength (Buffer_toString e_acute_chunk) = 32768.
Proof.
  unfold e_acute_chunk. rewrite JSFacts.Buffer_toString_e_acute.
  unfold jslength. rewrite length_replicate. lia.
Qed.

Lemma e_acute_chunk_byteLength : byteLength e_acute_chunk = 65536.
Proof.
  unfold byteLength, e_acute_chunk.
  assert (forall n, length (concat (replicate n [Byte.xc3; Byte.xa9])) = (2 * n)%nat) as H.
  { induction n as [|n IH]; [done|]. cbn [replicate concat app length]. lia. }
  rewrite H. lia.
Qed.

Lemma stdout_text_replicate (n : nat) (c : list Byte.byte) :
  jslength (stdout_text (replicate n (StdoutData c)))
  = Z.of_nat n * jslength (Buffer_toString c).
Proof.
  induction n as [|n IH]; [done|].
  cbn [replicate]. unfold stdout_text in *. cbn [flat_map].
  rewrite jslength_app, IH. lia.
Qed.

Lemma stdout_bytes_replicate (n : nat) (c : list Byte.byte) :
  stdout_bytes (replicate n (StdoutData c)) = Z.of_nat n * byteLength c.
Proof.
  induction n as [|n IH]; [done|].
  cbn [replicate stdout_bytes fold_right]. unfold stdout_bytes in IH. rewrite IH. lia.
Qed.

Lemma replicate_snoc {A} (n : nat) (x : A) : replicate (S n) x = replicate n x ++ [x].
Proof. induction n as [|n IH]; [done|]. cbn [replicate app] in *. by rewrite <- IH. Qed.

(** Chunks that stay within the limit only grow [stdout]. *)
Lemma run_below_limit (input : jsstring) (timeout : Z) (c : list Byte.byte) (n : nat) :
  Z.of_nat n * jslength (Buffer_toString c) <= OUTPUT_LIMIT ->
  run input timeout (replicate n (StdoutData c)) =
    set_stdout (stdout_text (replicate n (StdoutData c))) (started input timeout).
Proof.
  pose proof (jslength_nonneg (Buffer_toString c)) as Hc.
  induction n as [|n IH]; intros Hfit; [done|].
  rewrite replicate_snoc, run_snoc, IH by nia.
  cbn [step]. unfold on_stdout_data. cbn [stdout set_stdout started].
  assert (stdout_text (replicate n (StdoutData c) ++ [StdoutData c]) =
          stdout_text (replicate n (StdoutData c)) ++ Buffer_toString c) as ->.
  { unfold stdout_text. rewrite flat_map_app. cbn [flat_map]. by rewrite app_nil_r. }
  rewrite decide_False; [done|].
  rewrite jslength_app, stdout_text_replicate. nia.
Qed.

(** The chunk that crosses the limit marks the run and sends SIGTERM. *)
Lemma run_crossing_limit (input : jsstring) (timeout : Z) (c : list Byte.byte) (n : nat) :
  Z.of_nat n * jslength (Buffer_toString c) <= OUTPUT_LIMIT ->
  OUTPUT_LIMIT < Z.of_nat (S n) * jslength (Buffer_toString c) ->
  run input timeout (replicate (S n) (StdoutData c)) =
    kill SIGTERM (set_killed true
      (set_stdout (stdout_text (replicate (S n) (StdoutData c))) (started input timeout))).
Proof.
  intros Hfit Hover.
  rewrite replicate_snoc, run_snoc, run_below_limit by done.
  cbn [step]. unfold on_stdout_data. cbn [stdout set_stdout started].
  assert (stdout_text (replicate n (StdoutData c) ++ [StdoutData c]) =
          stdout_text (replicate n (StdoutData c)) ++ Buffer_toString c) as ->.
  { unfold stdout_text. rewrite flat_map_app. cbn [flat_map]. by rewrite app_nil_r. }
  rewrite decide_True; [done|].
  rewrite jslength_app, stdout_text_replicate. lia.
Qed.

Lemma run_app (input : jsstring) (timeout : Z) (evs1 evs2 : list event) :
  run input timeout (evs1 ++ evs2) = deliver evs2 (run input timeout evs1).
Proof. unfold run. apply deliver_app. Qed.

(** Seventeen chunks of ASCII text: the seventeenth crosses the limit. *)
Lemma seventeen_ascii_chunks (rest : list event) :
  exists text,
    OUTPUT_LIMIT < jslength text /\
    run [] 10000 (replicate 17 (StdoutData ascii_chunk) ++ rest) =
      deliver rest (kill SIGTERM (set_killed true (set_stdout text (started [] 10000)))).
Proof.
  exists (stdout_text (replicate 17 (StdoutData ascii_chunk))). split.
  - rewrite stdout_text_replicate, ascii_chunk_jslength. by vm_compute.
  - rewrite run_app, (run_crossing_limit [] 10000 ascii_chunk 16).
    + reflexivity.
    + rewrite ascii_chunk_jslength. by vm_compute.
    + rewrite ascii_chunk_jslength. by vm_compute.
Qed.

(** C1 (as amended): when a run has been marked as forced (the timer
    fired or a stream outgrew the limit) and the promise is still
    pending, the ['close'] event resolves it with all the text delivered,
    exit code -1 and the one fixed message [TERMINATED_MESSAGE], the same
    for both causes, whatever exit code the operating system reports. *)
Theorem forced_termination_result
    (input : jsstring) (timeout : Z) (evs : list event) (code : exit_code) :
  let s := run input timeout evs in
  settled s = None ->
  timed_out s \/ overflowed s ->
  settled (step s (CloseEvent code)) =
    Some (Resolved {| r_stdout := stdout_text evs; r_stderr := stderr_text evs;
                      r_exitCode := Some (-1);
                      r_error := Some TERMINATED_MESSAGE |}).
Proof.
  cbv zeta. intros Hpending Hforced.
  apply killed_iff_forced in Hforced.
  destruct (run_streams input timeout evs) as [<- <-].
  cbn [step]. unfold on_close, settle.
  destruct (run input timeout evs) as [out err k t g p r]. cbn in *.
  subst k r. reflexivity.
Qed.

Lemma forced_termination_result_witness :
  settled (run [] 10000 [TimeoutElapsed; Exited]) = None /\
  timed_out (run [] 10000 [TimeoutElapsed; Exited]) /\
  settled (step (run [] 10000 [TimeoutElapsed; Exited]) (CloseEvent (Some 143))) =
    Some (Resolved {| r_stdout := []; r_stderr := []; r_exitCode := Some (-1);
                      r_error := Some TERMINATED_MESSAGE |}).
Proof.
  split; [reflexivity|]. split; [reflexivity|].
  apply (forced_termination_result [] 10000 [TimeoutElapsed; Exited] (Some 143));
    [reflexivity | left; reflexivity].
Defined.

(** C1 as stated fails: a run ended by the timeout and a run ended by
    the output limit get the same error text, which is neither "execution
    timed out" nor "output limit exceeded". *)
Lemma error_does_not_name_the_cause :
  let by_timeout := run [] 10000 [TimeoutElapsed; Exited; CloseEvent None] in
  let by_overflow :=
    run [] 10000 (replicate 17 (StdoutData ascii_chunk) ++ [Exited; CloseEvent None]) in
  (timed_out by_timeout /\ ~ overflowed by_timeout) /\
  (overflowed by_overflow /\ ~ timed_out by_overflow) /\
  exists r1 r2,
    settled by_timeout = Some (Resolved r1) /\
    settled by_overflow = Some (Resolved r2) /\
    r_error r1 = r_error r2 /\
    r_error r1 <> Some (js "execution timed out") /\
    r_error r2 <> Some (js "output limit exceeded").
Proof.
  cbv zeta.
  destruct (seventeen_ascii_chunks [Exited; CloseEvent None]) as (text & Hover & ->).
  split; [|split].
  - split; [reflexivity|]. unfold overflowed, OUTPUT_LIMIT, jslength. cbn. lia.
  - split; [left; exact Hover | unfold timed_out; cbn; congruence].
  - eexists _, _. split; [reflexivity|]. split; [reflexivity|].
    split; [reflexivity|]. split; intros [=].
Qed.
Lemma kill_signals (sg : signal) (p : ChildProcess.t) :
  ChildProcess.signals (ChildProcess.kill sg p) =
    if ChildProcess.handle p then ChildProcess.signals p ++ [sg]
    else ChildProcess.signals p.
Proof. unfold ChildProcess.kill. by destruct (ChildProcess.handle p). Qed.

Lemma kill_handle (sg : signal) (p : ChildProcess.t) :
  ChildProcess.handle (ChildProcess.kill sg p) = ChildProcess.handle p.
Proof. unfold ChildProcess.kill. by destruct (ChildProcess.handle p) eqn:E. Qed.

Lemma kill_killed (sg : signal) (p : ChildProcess.t) :
  ChildProcess.killed (ChildProcess.kill sg p) =
    if ChildProcess.handle p then true else ChildProcess.killed p.
Proof. unfold ChildProcess.kill. by destruct (ChildProcess.handle p). Qed.

Lemma grace_guard_sigterm (s : state) :
  grace_guard s -> grace_guard (kill SIGTERM s).
Proof.
  intros [Hs Hg]. destruct s as [out err k t g p r]. unfold grace_guard in *. cbn in *.
  rewrite kill_signals, kill_handle, kill_killed.
  destruct (ChildProcess.handle p); [|done].
  split; [|done]. rewrite elem_of_app, list_elem_of_singleton. intros [?|?]; done.
Qed.

Lemma grace_guard_step (s : state) (ev : event) :
  grace_guard s -> grace_guard (step s ev).
Proof.
  intros H. destruct ev as [data|data| | | |e|code]; cbn [step].
  - unfold on_stdout_data. case_decide.
    + apply grace_guard_sigterm. by destruct s.
    + by destruct s.
  - unfold on_stderr_data. case_decide.
    + apply grace_guard_sigterm. by destruct s.
    + by destruct s.
  - unfold on_timeout. destruct (status (timeoutId s)); [|done|done].
    cbv zeta.
    match goal with
    | |- grace_guard (set_graceId _ (kill SIGTERM (set_killed true ?x))) =>
        assert (grace_guard x) as H1;
          [destruct (0 <? _); [apply grace_guard_sigterm|]; by destruct s|];
        generalize dependent x
    end.
    intros s1 H1.
    assert (grace_guard (kill SIGTERM (set_killed true s1))) as [Hs Hg]
      by (apply grace_guard_sigterm; by destruct s1).
    split; [exact Hs|]. intros Hh _. destruct s1 as [? ? ? ? ? p1 ?]. cbn in *.
    rewrite kill_killed. rewrite kill_handle in Hh. by rewrite Hh.
  - unfold on_grace. destruct s as [out err k t [[d st]|] p r]; [|done].
    destruct st; [|done|done].
    destruct H as [Hs Hg]. cbn in *.
    destruct (ChildProcess.killed p) eqn:Ek; cbn.
    + split; [done|]. by intros _ [? [=]].
    + unfold kill, set_process, set_graceId, grace_guard.
      cbn [process graceId stdout stderr killed timeoutId settled].
      split; [|by intros _ [? [=]]].
      rewrite kill_signals. destruct (ChildProcess.handle p) eqn:Eh; [|done].
      specialize (Hg eq_refl (ex_intro _ d eq_refl)). congruence.
  - destruct H as [Hs Hg]. destruct s as [out err k t g [h kk sg w e] r].
    split; [done|]. cbn. intros [=].
  - unfold on_error, settle. by destruct s as [? ? ? ? ? ? []].
  - unfold on_close, settle. by destruct s as [? ? [] ? ? ? []].
Qed.

(** No sequence of events makes the callbacks deliver SIGKILL: the check
    [!process.killed] passes only when the SIGTERM sent a second earlier
    was not delivered, and then the process is gone already. *)
Lemma sigkill_is_never_delivered (input : jsstring) (timeout : Z) (evs : list event) :
  SIGKILL ∉ ChildProcess.signals (process (run input timeout evs)).
Proof.
  enough (grace_guard (run input timeout evs)) as [H _] by exact H.
  apply run_invariant; [|apply grace_guard_step].
  unfold started, grace_guard.
  destruct (truthy input); cbn; (split; [apply not_elem_of_nil | by intros _ [? [=]]]).
Qed.

(** C2, on a child that ignores SIGTERM.  When the output limit is
    crossed, SIGTERM is the only signal sent and no timer is set for a
    follow-up; when the timeout elapses and the grace second after it,
    the child has been sent SIGTERM only (by [spawn]'s own timeout and by
    the callback), is still running, and the promise is still pending. *)
Theorem no_escalation_to_sigkill :
  let by_overflow :=
    run [] 10000 (replicate 17 (StdoutData ascii_chunk) ++ [GraceElapsed]) in
  let by_timeout := run [] 10000 [TimeoutElapsed; GraceElapsed] in
  (overflowed by_overflow /\
   ChildProcess.signals (process by_overflow) = [SIGTERM] /\
   graceId by_overflow = None /\
   ChildProcess.handle (process by_overflow) = true /\
   settled by_overflow = None) /\
  (timed_out by_timeout /\
   ChildProcess.signals (process by_timeout) = [SIGTERM; SIGTERM] /\
   graceId by_timeout = Some (Timer 1000 Fired) /\
   ChildProcess.handle (process by_timeout) = true /\
   settled by_timeout = None).
Proof.
  cbv zeta. split; [|by vm_compute].
  destruct (seventeen_ascii_chunks [GraceElapsed]) as (text & Hover & ->).
  split; [left; exact Hover | by cbn].
Qed.

(** C3 (as amended): each ['data'] callback appends the chunk, decoded as
    UTF-8, to its stream's text, and in that same callback, exactly when
    the text is longer than 1048576 UTF-16 code units, sets [killed] and
    sends SIGTERM.  The length is counted in code units of the text,
    each stream on its own: a chunk never has more code units than
    bytes, and has as many when it is ASCII. *)
Theorem overflow_marks_and_terminates (s : state) (data : list Byte.byte) :
  let s1 := step s (StdoutData data) in
  let s2 := step s (StderrData data) in
  (stdout s1 = stdout s ++ Buffer_toString data /\
   stderr s1 = stderr s /\
   (OUTPUT_LIMIT < jslength (stdout s1) ->
    killed s1 = true /\ process s1 = ChildProcess.kill SIGTERM (process s)) /\
   (jslength (stdout s1) <= OUTPUT_LIMIT ->
    killed s1 = killed s /\ process s1 = process s)) /\
  (stderr s2 = stderr s ++ Buffer_toString data /\
   stdout s2 = stdout s /\
   (OUTPUT_LIMIT < jslength (stderr s2) ->
    killed s2 = true /\ process s2 = ChildProcess.kill SIGTERM (process s)) /\
   (jslength (stderr s2) <= OUTPUT_LIMIT ->
    killed s2 = killed s /\ process s2 = process s)) /\
  jslength (Buffer_toString data) <= byteLength data /\
  (Forall (fun b => (Byte.to_N b <= 0x7F)%N) data ->
   jslength (Buffer_toString data) = byteLength data).
Proof.
  cbv zeta. cbn [step]. unfold on_stdout_data, on_stderr_data.
  split; [|split; [|split; [apply JSFacts.jslength_le_byteLength
                           |apply JSFacts.jslength_ascii]]].
  - case_decide as H; destruct s; cbn in *; split_and!; intros; (done || lia).
  - case_decide as H; destruct s; cbn in *; split_and!; intros; (done || lia).
Qed.

(** C3 as stated fails: seventeen chunks of 64 KiB, each 32768 two-byte
    characters, are 1114112 bytes on stdout, more than 1 MiB, and the run
    is neither marked nor signalled. *)
Lemma byte_cap_not_enforced :
  let evs := replicate 17 (StdoutData e_acute_chunk) in
  let s := run [] 10000 evs in
  OUTPUT_LIMIT < stdout_bytes evs /\
  stdout s = stdout_text evs /\
  killed s = false /\
  ChildProcess.signals (process s) = [].
Proof.
  cbv zeta. split.
  - rewrite stdout_bytes_replicate, e_acute_chunk_byteLength. by vm_compute.
  - rewrite run_below_limit.
    + generalize (stdout_text (replicate 17 (StdoutData e_acute_chunk))).
      intros text. by cbn.
    + rewrite e_acute_chunk_jslength. by vm_compute.
Qed.

(** The seventeenth chunk of 64 KiB of ASCII text: the run was not
    marked before it, and is marked and signalled in its callback. *)
Lemma overflow_marks_and_terminates_witness :
  let s := run [] 10000 (replicate 16 (StdoutData ascii_chunk)) in
  let s1 := step s (StdoutData ascii_chunk) in
  OUTPUT_LIMIT < jslength (stdout s1) /\
  killed s = false /\
  ChildProcess.signals (process s) = [] /\
  killed s1 = true /\
  ChildProcess.signals (process s1) = [SIGTERM].
Proof.
  cbv zeta.
  assert (run [] 10000 (replicate 16 (StdoutData ascii_chunk)) =
          set_stdout (stdout_text (replicate 16 (StdoutData ascii_chunk)))
                     (started [] 10000)) as Hbelow.
  { apply run_below_limit. rewrite ascii_chunk_jslength. by vm_compute. }
  destruct (overflow_marks_and_terminates
              (run [] 10000 (replicate 16 (StdoutData ascii_chunk))) ascii_chunk)
    as ((Hout & _ & Hcross & _) & _).
  assert (OUTPUT_LIMIT <
          jslength (stdout (step (run [] 10000 (replicate 16 (StdoutData ascii_chunk)))
                                 (StdoutData ascii_chunk)))) as Hover.
  { rewrite Hout, Hbelow. cbn [stdout set_stdout].
    rewrite jslength_app, stdout_text_replicate, ascii_chunk_jslength. reflexivity. }
  destruct (Hcross Hover) as [Hkilled Hprocess].
  split; [exact Hover|]. rewrite Hkilled, Hprocess, Hbelow. clear.
  generalize (stdout_text (replicate 16 (StdoutData ascii_chunk))). intros text.
  repeat split.
Defined.

(** A signal is only ever sent by a run marked as forced. *)
Lemma signals_need_a_cause (input : jsstring) (timeout : Z) (evs : list event) :
  let s := run input timeout evs in
  ChildProcess.signals (process s) <> [] -> killed s = true.
Proof.
  cbv zeta.
  enough ((ChildProcess.signals (process (run input timeout evs)) <> [] ->
           killed (run input timeout evs) = true) /\
          (graceId (run input timeout evs) <> None ->
           killed (run input timeout evs) = true)) as [H _] by exact H.
  apply (run_invariant (fun s =>
    (ChildProcess.signals (process s) <> [] -> killed s = true) /\
    (graceId s <> None -> killed s = true))).
  - unfold started. destruct (truthy input); cbn; split; congruence.
  - intros s ev [Hs Hg].
    destruct ev as [data|data| | | |e|code]; cbn [step].
    + unfold on_stdout_data. case_decide; [by destruct s|]. by destruct s.
    + unfold on_stderr_data. case_decide; [by destruct s|]. by destruct s.
    + unfold on_timeout. destruct s as [? ? ? [d []] ? ? ?]; cbn; try destruct (0 <? d); done.
    + unfold on_grace. destruct s as [out err k t [[d st]|] p r]; [|done].
      destruct st; [|done|done]. cbn in *.
      rewrite Hg by done. by destruct (negb _).
    + destruct s as [? ? ? ? ? [] ?]. done.
    + unfold on_error, settle. by destruct s as [? ? ? ? ? ? []].
    + unfold on_close, settle. by destruct s as [? ? [] ? ? ? []].
Qed.

Lemma no_output_no_text (evs : list event) :
  forallb (fun ev => negb (is_data ev)) evs = true ->
  stdout_text evs = [] /\ stderr_text evs = [].
Proof.
  induction evs as [|ev evs IH]; [done|]. cbn [forallb].
  intros [Hev Hrest]%andb_prop. destruct (IH Hrest) as [IH1 IH2].
  unfold stdout_text, stderr_text in *. cbn [flat_map]. rewrite IH1, IH2.
  by destruct ev.
Qed.

(** C10 (as amended): with an empty [input] the callbacks write nothing
    to the child's standard input and never end it, whatever happens
    afterwards; a read by the child blocks without data or end-of-file.
    A signal reaches the child only once the timeout has elapsed or the
    output limit was crossed, and for a child that prints nothing only
    the timeout is left. *)
Theorem empty_input_leaves_stdin_open (timeout : Z) (evs : list event) :
  let s := run [] timeout evs in
  ChildProcess.stdin_written (process s) = [] /\
  ChildProcess.stdin_ended (process s) = false /\
  ChildProcess.stdin_read (process s) = ChildProcess.ReadBlocks /\
  (ChildProcess.signals (process s) <> [] -> timed_out s \/ overflowed s) /\
  (forallb (fun ev => negb (is_data ev)) evs = true ->
   ChildProcess.signals (process s) <> [] -> timed_out s).
Proof.
  cbv zeta.
  assert (ChildProcess.stdin_written (process (run [] timeout evs)) = [] /\
          ChildProcess.stdin_ended (process (run [] timeout evs)) = false) as [Hw He].
  { apply (run_invariant (fun s =>
      ChildProcess.stdin_written (process s) = [] /\
      ChildProcess.stdin_ended (process s) = false)); [done|].
    intros s ev IH.
    assert (forall sg p, ChildProcess.stdin_written (ChildProcess.kill sg p)
                         = ChildProcess.stdin_written p /\
                         ChildProcess.stdin_ended (ChildProcess.kill sg p)
                         = ChildProcess.stdin_ended p) as Hk.
    { intros sg p. unfold ChildProcess.kill. by destruct (ChildProcess.handle p). }
    destruct ev as [data|data| | | |e|code]; cbn [step].
    - unfold on_stdout_data. case_decide; destruct s; cbn in *; [|done].
      by destruct (Hk SIGTERM process0) as [-> ->].
    - unfold on_stderr_data. case_decide; destruct s; cbn in *; [|done].
      by destruct (Hk SIGTERM process0) as [-> ->].
    - unfold on_timeout. destruct s as [? ? ? [d []] ? p ?]; cbn in *; try done.
      destruct (0 <? d); cbn.
      + destruct (Hk SIGTERM (ChildProcess.kill SIGTERM p)) as [-> ->].
        by destruct (Hk SIGTERM p) as [-> ->].
      + by destruct (Hk SIGTERM p) as [-> ->].
    - unfold on_grace. destruct s as [out err k t [[d st]|] p r]; [|done].
      destruct st; [|done|done]. cbn in *.
      destruct (negb _); cbn; [|done]. by destruct (Hk SIGKILL p) as [-> ->].
    - by destruct s as [? ? ? ? ? [] ?].
    - unfold on_error, settle. by destruct s as [? ? ? ? ? ? []].
    - unfold on_close, settle. by destruct s as [? ? [] ? ? ? []]. }
  split; [exact Hw|]. split; [exact He|].
  split; [unfold ChildProcess.stdin_read; by rewrite Hw, He|].
  split.
  - intros Hsig. apply killed_iff_forced. by apply signals_need_a_cause.
  - intros Hquiet Hsig.
    pose proof (signals_need_a_cause [] timeout evs Hsig) as Hk.
    apply killed_iff_forced in Hk as [Hk|Hk]; [exact Hk|].
    destruct (no_output_no_text evs Hquiet) as [H1 H2].
    destruct (run_streams [] timeout evs) as [E1 E2].
    unfold overflowed, OUTPUT_LIMIT in Hk. rewrite E1, E2, H1, H2 in Hk.
    unfold jslength in Hk. cbn in Hk. lia.
Qed.

(** C9: every call of [executeProcess] rejects with a [ReferenceError]
    before anything is spawned: the argument of [spawn] reads [process.env]
    while [process] is the [const] being initialised.  The operating
    system is not consulted; file system and clock are as before. *)
Theorem executeProcess_rejects_before_spawn
    (ambient : Environ) (os : OS) (command : jsstring) (args : list jsstring)
    (options : Options) (files : FS) (now : Z) :
  executeProcess ambient os command args options files now =
    (Some (Rejected (ReferenceError (js "Cannot access 'process' before initialization"))),
     files, now).
Proof. reflexivity. Qed.

(** Had [process] denoted Node's global there, the environment built
    would carry the ambient PATH and HOME set to [cwd]. *)
Lemma env_expression_under_global_binding (ambient : Environ) (cwd : jsstring) :
  exists env,
    env_expression {| block_process := None; global_process_env := ambient |} (Some cwd)
      = inr env /\
    env !! js "PATH" = ambient !! js "PATH" /\
    env !! js "HOME" = Some cwd /\
    (forall name, name <> js "PATH" -> name <> js "HOME" -> env !! name = ambient !! name).
Proof.
  exists (assign (js "PATH") (ambient !! js "PATH") (<[js "HOME" := cwd]> ambient)).
  split; [reflexivity|]. unfold assign.
  assert (js "PATH" <> js "HOME") as Hne by (by vm_compute).
  destruct (ambient !! js "PATH") as [path|] eqn:E; split_and!.
  - by rewrite lookup_insert_eq.
  - rewrite lookup_insert_ne by done. by rewrite lookup_insert_eq.
  - intros name H1 H2. by rewrite !lookup_insert_ne.
  - by rewrite lookup_delete_eq.
  - rewrite lookup_delete_ne by done. by rewrite lookup_insert_eq.
  - intros name H1 H2. rewrite lookup_delete_ne by done. by rewrite lookup_insert_ne.
Qed.

(** The ['close'] callback on a run that was not forced. *)
Lemma natural_exit_result
    (input : jsstring) (timeout : Z) (evs : list event) (code : exit_code) :
  let s := run input timeout evs in
  settled s = None ->
  ~ (timed_out s \/ overflowed s) ->
  settled (step s (CloseEvent code)) =
    Some (Resolved {| r_stdout := stdout_text evs; r_stderr := stderr_text evs;
                      r_exitCode := code;
                      r_error := if code_is_not_zero code
                                 then Some (js "Process exited with code " ++ render_code code)
                                 else None |}) /\
  jslength (stdout_text evs) <= OUTPUT_LIMIT /\
  jslength (stderr_text evs) <= OUTPUT_LIMIT.
Proof.
  cbv zeta. intros Hpending Hforced.
  pose proof (killed_iff_forced input timeout evs) as Hk. cbv zeta in Hk.
  destruct (run_streams input timeout evs) as [E1 E2].
  split.
  - rewrite <- E1, <- E2. cbn [step]. unfold on_close, settle.
    destruct (run input timeout evs) as [out err k t g p r]. cbn in *.
    destruct k; [tauto|]. by subst r.
  - unfold overflowed in Hforced. rewrite E1, E2 in Hforced. lia.
Qed.

Lemma empty_input_leaves_stdin_open_witness :
  let evs := [TimeoutElapsed; GraceElapsed] in
  let s := run [] 10000 evs in
  forallb (fun ev => negb (is_data ev)) evs = true /\
  ChildProcess.signals (process s) <> [] /\
  ChildProcess.stdin_read (process s) = ChildProcess.ReadBlocks /\
  timed_out s.
Proof.
  cbv zeta.
  assert (forallb (fun ev => negb (is_data ev)) [TimeoutElapsed; GraceElapsed] = true)
    as Hquiet by reflexivity.
  assert (ChildProcess.signals (process (run [] 10000 [TimeoutElapsed; GraceElapsed])) <> [])
    as Hsig by (by vm_compute).
  destruct (empty_input_leaves_stdin_open 10000 [TimeoutElapsed; GraceElapsed])
    as (_ & _ & Hread & _ & Honly).
  split; [exact Hquiet|]. split; [exact Hsig|]. split; [exact Hread|].
  exact (Honly Hquiet Hsig).
Defined.

(** C10 as stated fails: a child that is given no input and prints
    seventeen chunks of 64 KiB is sent SIGTERM for its output, while its
    standard input is still open and the timeout has not elapsed. *)
Lemma overflow_ends_a_run_with_stdin_open :
  let s := run [] 10000 (replicate 17 (StdoutData ascii_chunk)) in
  ChildProcess.stdin_read (process s) = ChildProcess.ReadBlocks /\
  ChildProcess.signals (process s) = [SIGTERM] /\
  killed s = true /\
  status (timeoutId s) = Armed /\
  ~ timed_out s.
Proof.
  cbv zeta.
  destruct (seventeen_ascii_chunks []) as (text & Hover & E).
  rewrite app_nil_r in E. rewrite E. clear. cbn. unfold timed_out. cbn.
  split_and!; try reflexivity. discriminate.
Qed.

End RunnerFacts.

(* ===================================================================== *)
(** ** Properties of cleanup and sweep *)
(* ===================================================================== *)

Module WorkspaceFacts.
Import Workspace.

Lemma unlink_in_one (now : Z) (st : Z * gmap jsstring kind) (f k : jsstring) :
  (unlink_in now st f).2 !! k =
    if decide (k = f)
    then match st.2 !! k with Some KFile => None | o => o end
    else st.2 !! k.
Proof.
  unfold unlink_in. destruct (decide (k = f)) as [->|Hne].
  - destruct (st.2 !! f) as [[]|] eqn:E; cbn; rewrite ?lookup_delete_eq, ?E; done.
  - destruct (st.2 !! f) as [[]|]; cbn; [|done|done]. by rewrite lookup_delete_ne.
Qed.

Lemma unlink_in_lookup (now : Z) (l : list jsstring) (st : Z * gmap jsstring kind)
    (k : jsstring) :
  (foldl (unlink_in now) st l).2 !! k =
    if decide (k ∈ l)
    then match st.2 !! k with Some KFile => None | o => o end
    else st.2 !! k.
Proof.
  revert st. induction l as [|f l IH]; intros st.
  - cbn. rewrite decide_False; [done|apply not_elem_of_nil].
  - cbn [foldl]. rewrite IH, unlink_in_one.
    destruct (decide (k = f)) as [->|Hne].
    + rewrite (decide_True (P := f ∈ f :: l)) by apply list_elem_of_here.
      destruct (st.2 !! f) as [[]|]; by destruct (decide _).
    + destruct (decide (k ∈ l)) as [Hin|Hin].
      * rewrite decide_True; [done|by right].
      * rewrite decide_False; [done|]. by intros [->|?]%elem_of_cons.
Qed.

Lemma unlink_in_mtime (now : Z) (l : list jsstring) (st : Z * gmap jsstring kind) :
  (foldl (unlink_in now) st l).1 =
    if existsb (fun f => bool_decide (st.2 !! f = Some KFile)) l then now else st.1.
Proof.
  revert st. induction l as [|f l IH]; intros st; [done|].
  cbn [foldl existsb]. rewrite IH. unfold unlink_in.
  destruct (st.2 !! f) as [[]|] eqn:E; cbn.
  - rewrite bool_decide_eq_true_2 by done. cbn. by destruct (existsb _ _).
  - rewrite bool_decide_eq_false_2 by done. done.
  - rewrite bool_decide_eq_false_2 by done. done.
Qed.

Lemma unlinks_ok_iff (l : list jsstring) (ch : gmap jsstring kind) :
  NoDup l ->
  unlinks_ok ch l = true <-> forall f, f ∈ l -> ch !! f = Some KFile.
Proof.
  intros Hnd. revert ch. induction Hnd as [|f l Hf Hnd IH]; intros ch.
  - split; [|done]. intros _ f Hin. by apply elem_of_nil in Hin.
  - cbn [unlinks_ok]. destruct (ch !! f) as [[]|] eqn:E.
    + rewrite IH. split.
      * intros H f' [->|Hin]%elem_of_cons; [done|].
        specialize (H f' Hin). rewrite lookup_delete_ne in H; [done|]. by intros ->.
      * intros H f' Hin. rewrite lookup_delete_ne by (by intros ->).
        apply H. by right.
    + split; [done|]. intros H. specialize (H f (list_elem_of_here _ _)). congruence.
    + split; [done|]. intros H. specialize (H f (list_elem_of_here _ _)). congruence.
Qed.

Lemma elem_of_keys (ch : gmap jsstring kind) (k : jsstring) :
  k ∈ map fst (map_to_list ch) <-> is_Some (ch !! k).
Proof.
  change (map fst (map_to_list ch)) with ((map_to_list ch).*1).
  rewrite list_elem_of_fmap. split.
  - intros [[k' v] [-> Hin]]. apply elem_of_map_to_list in Hin. by exists v.
  - intros [v Hv]. exists (k, v). split; [done|]. by apply elem_of_map_to_list.
Qed.

Lemma only_dirs_lookup (ch : gmap jsstring kind) (k : jsstring) :
  only_dirs ch !! k = match ch !! k with Some KFile => None | o => o end.
Proof.
  unfold only_dirs. destruct (ch !! k) as [[]|] eqn:E.
  - apply map_lookup_filter_None. right. intros x Hx. cbn. congruence.
  - apply map_lookup_filter_Some. by split.
  - apply map_lookup_filter_None. by left.
Qed.

Lemma only_dirs_id_iff (ch : gmap jsstring kind) :
  only_dirs ch = ch <-> forall f, ch !! f <> Some KFile.
Proof.
  split.
  - intros H f Hf. pose proof (only_dirs_lookup ch f) as Hl. rewrite H, Hf in Hl. done.
  - intros H. apply map_eq. intros k. rewrite only_dirs_lookup.
    specialize (H k). by destruct (ch !! k) as [[]|].
Qed.

Lemma only_dirs_empty_iff (ch : gmap jsstring kind) :
  only_dirs ch = ∅ <-> forall f, is_Some (ch !! f) -> ch !! f = Some KFile.
Proof.
  rewrite map_empty. split.
  - intros H f [v Hv]. specialize (H f). rewrite only_dirs_lookup, Hv in H.
    destruct v; [done|congruence].
  - intros H k. rewrite only_dirs_lookup. specialize (H k).
    destruct (ch !! k) as [[]|] eqn:E; try done. by specialize (H (mk_is_Some _ _ eq_refl)).
Qed.

(** All the children listed by [readdir], unlinked one after the other. *)
Lemma unlink_all_children (now m : Z) (ch : gmap jsstring kind) :
  let l := map fst (map_to_list ch) in
  foldl (unlink_in now) (m, ch) l =
    (if decide (only_dirs ch = ch) then m else now, only_dirs ch) /\
  (unlinks_ok ch l = true <-> only_dirs ch = ∅).
Proof.
  cbv zeta. split.
  - apply injective_projections.
    + rewrite unlink_in_mtime. cbn [fst snd].
      destruct (existsb _ _) eqn:Ex.
      * apply existsb_exists in Ex as [f [_ Hf]]. apply bool_decide_eq_true in Hf.
        rewrite decide_False; [done|]. rewrite only_dirs_id_iff. intros H. by apply (H f).
      * rewrite decide_True; [done|]. apply only_dirs_id_iff. intros f Hf.
        assert (existsb (fun f => bool_decide (ch !! f = Some KFile))
                  (map fst (map_to_list ch)) = true) as Habs; [|congruence].
        apply existsb_exists. exists f. split; [|by apply bool_decide_eq_true].
        apply list_elem_of_In, elem_of_keys. by rewrite Hf.
    + cbn [snd]. apply map_eq. intros k.
      rewrite unlink_in_lookup, only_dirs_lookup. cbn [snd].
      destruct (decide _) as [|Hn]; [done|].
      rewrite elem_of_keys in Hn. destruct (ch !! k) eqn:E; [|done].
      exfalso. apply Hn. by eexists.
  - rewrite unlinks_ok_iff by apply NoDup_fst_map_to_list.
    rewrite only_dirs_empty_iff. by setoid_rewrite elem_of_keys.
Qed.

Lemma executions_snoc_other (cs : list syscall) (c : syscall) :
  match c with ExecuteProcess _ _ => False | _ => True end ->
  executions (cs ++ [c]) = executions cs.
Proof.
  intros H. unfold executions. rewrite List.filter_app.
  destruct c; try done; cbn; by rewrite app_nil_r.
Qed.

Lemma created_snoc_other (cs : list syscall) (c : syscall) :
  match c with Mkdir _ => False | _ => True end ->
  created (cs ++ [c]) = created cs.
Proof.
  intros H. unfold created. rewrite List.filter_app.
  destruct c; try done; cbn; by rewrite app_nil_r.
Qed.

Lemma quiet_refl (w : World.t) : quiet w w.
Proof. by repeat split. Qed.

Lemma quiet_trans (w1 w2 w3 : World.t) : quiet w1 w2 -> quiet w2 w3 -> quiet w1 w3.
Proof. unfold quiet. intros (?&?&?&?&?) (?&?&?&?&?). repeat split; congruence. Qed.

Lemma unlink_run (dir file : jsstring) (w : World.t) (m : Z) (ch : gmap jsstring kind) :
  fs w !! dir = Some (Dir m ch) ->
  exists r w',
    unlink dir file w = (r, w') /\ r <> Never /\ quiet w w' /\
    fs w' = <[dir := Dir (unlink_in (clock w) (m, ch) file).1
                         (unlink_in (clock w) (m, ch) file).2]> (fs w) /\
    (r = Ok tt <-> ch !! file = Some KFile).
Proof.
  intros Hd. unfold unlink, unlink_in. rewrite Hd. cbn [snd].
  destruct (ch !! file) as [[]|] eqn:E.
  - eexists _, _. split; [reflexivity|]. split; [done|]. split; [|done].
    destruct w. repeat split; cbn.
    + by rewrite executions_snoc_other by exact I.
    + by rewrite created_snoc_other by exact I.
  - eexists _, _. split; [reflexivity|]. split; [done|]. split; [apply quiet_refl|].
    split; [by rewrite insert_id|]. split; intros [=].
  - eexists _, _. split; [reflexivity|]. split; [done|]. split; [apply quiet_refl|].
    split; [by rewrite insert_id|]. split; intros [=].
Qed.

Lemma perform_run (r : request) (w : World.t) :
  exists res w',
    perform r w = (res, w') /\ res <> Never /\ quiet w w' /\
    inflight w' = inflight w /\
    fs w' = finish_fs (clock w) (fs w) r /\
    (forall e, res = Throw e -> w' = w).
Proof.
  destruct r as [dir f]. unfold perform, unlink, finish_fs.
  destruct (fs w !! dir) as [[m|m ch]|] eqn:Hd.
  - eexists _, _. split; [reflexivity|]. split; [done|]. by split; [apply quiet_refl|].
  - destruct (ch !! f) as [[]|] eqn:Hf.
    + eexists _, _. split; [reflexivity|]. split; [done|]. split; [|done].
      destruct w. repeat split; cbn.
      * by rewrite executions_snoc_other by exact I.
      * by rewrite created_snoc_other by exact I.
    + eexists _, _. split; [reflexivity|]. split; [done|]. by split; [apply quiet_refl|].
    + eexists _, _. split; [reflexivity|]. split; [done|]. by split; [apply quiet_refl|].
  - eexists _, _. split; [reflexivity|]. split; [done|]. by split; [apply quiet_refl|].
Qed.

Lemma perform_in_directory (dir f : jsstring) (w : World.t) (m : Z)
    (ch : gmap jsstring kind) :
  fs w !! dir = Some (Dir m ch) ->
  (ch !! f = Some KFile -> exists w', perform (Unlinking dir f) w = (Ok tt, w')) /\
  (ch !! f <> Some KFile -> exists e, perform (Unlinking dir f) w = (Throw e, w)).
Proof.
  intros Hd. unfold perform, unlink. rewrite Hd.
  destruct (ch !! f) as [[]|]; split; try done; intros _; by eexists.
Qed.

(** The first request that fails on the listed directory is rejected
    first; the others are those of [others_in_flight]. *)
Lemma first_rejected_listing (dir : jsstring) (l : list jsstring) (w : World.t)
    (m : Z) (ch : gmap jsstring kind) :
  fs w !! dir = Some (Dir m ch) ->
  ((forall f, f ∈ l -> ch !! f = Some KFile) ->
   first_rejected (map (Unlinking dir) l) w = None) /\
  ((exists f, f ∈ l /\ ch !! f <> Some KFile) ->
   exists e, first_rejected (map (Unlinking dir) l) w =
               Some (e, map (Unlinking dir) (others_in_flight ch l))).
Proof.
  intros Hd. induction l as [|f l [IH1 IH2]].
  - split; [done|]. intros (f & Hin & _). by apply elem_of_nil in Hin.
  - cbn [map first_rejected others_in_flight].
    destruct (perform_in_directory dir f w m ch Hd) as [Hok Hfail].
    destruct (ch !! f) as [[]|] eqn:Hf.
    + destruct (Hok eq_refl) as [w' ->]. split.
      * intros Hall. rewrite IH1; [done|]. intros f' Hin. apply Hall. by right.
      * intros (f' & Hin & Hbad). destruct IH2 as [e ->].
        { apply elem_of_cons in Hin as [->|Hin]; [congruence|]. by exists f'. }
        by exists e.
    + destruct Hfail as [e ->]; [done|]. split.
      * intros Hall. specialize (Hall f (list_elem_of_here _ _)). congruence.
      * intros _. by exists e.
    + destruct Hfail as [e ->]; [done|]. split.
      * intros Hall. specialize (Hall f (list_elem_of_here _ _)). congruence.
      * intros _. by exists e.
Qed.

(** Every unlink of the listing succeeds: they finish one after the
    other and nothing is left in flight. *)
Lemma in_turn_unlink (dir : jsstring) (l : list jsstring) (w : World.t)
    (m : Z) (ch : gmap jsstring kind) :
  fs w !! dir = Some (Dir m ch) ->
  unlinks_ok ch l = true ->
  exists w',
    in_turn (map (Unlinking dir) l) w = (Ok tt, w') /\ quiet w w' /\
    inflight w' = inflight w /\
    fs w' = <[dir := Dir (foldl (unlink_in (clock w)) (m, ch) l).1
                         (foldl (unlink_in (clock w)) (m, ch) l).2]> (fs w).
Proof.
  revert w m ch. induction l as [|f l IH]; intros w m ch Hd Hok.
  - exists w. split; [done|]. split; [apply quiet_refl|]. split; [done|].
    by rewrite insert_id.
  - cbn [unlinks_ok] in Hok. destruct (ch !! f) as [[]|] eqn:Hf; [|done|done].
    destruct (unlink_run dir f w m ch Hd) as (r1 & w1 & E1 & _ & Hq1 & Hfs1 & Hok1).
    assert (r1 = Ok tt) as -> by (by apply Hok1).
    assert (inflight w1 = inflight w) as Hin1.
    { destruct (perform_run (Unlinking dir f) w) as (r & w1' & E & _ & _ & Hi & _).
      cbn [perform] in E. rewrite E1 in E. by inversion E; subst. }
    unfold unlink_in in Hfs1. cbn [snd] in Hfs1. rewrite Hf in Hfs1. cbn [fst snd] in Hfs1.
    assert (fs w1 !! dir = Some (Dir (clock w) (delete f ch))) as Hd1
      by (rewrite Hfs1; apply lookup_insert_eq).
    destruct (IH w1 _ _ Hd1 Hok) as (w2 & E2 & Hq2 & Hin2 & Hfs2).
    exists w2. cbn [map in_turn perform]. rewrite E1. split; [exact E2|].
    split; [by eapply quiet_trans|]. split; [congruence|].
    destruct Hq1 as (Hc & _). rewrite Hc in Hfs2.
    cbn [foldl]. unfold unlink_in at 2 4. cbn [snd]. rewrite Hf.
    by rewrite Hfs2, Hfs1, insert_insert_eq.
Qed.

Lemma in_turn_not_never (rs : list request) (w : World.t) :
  (in_turn rs w).1 <> Never.
Proof.
  revert w. induction rs as [|r rs IH]; intros w; [done|].
  cbn [in_turn].
  destruct (perform_run r w) as (res & w1 & -> & Hn & _).
  destruct res as [[]|e|]; [apply IH|done|done].
Qed.

Lemma Promise_all_not_never (rs : list request) (w : World.t) :
  (Promise_all rs w).1 <> Never.
Proof.
  unfold Promise_all. destruct (first_rejected rs w) as [[e others]|]; [done|].
  apply in_turn_not_never.
Qed.

(** The listing loses one name at most, and no plain file. *)
Lemma others_in_flight_listed (ch : gmap jsstring kind) (l : list jsstring)
    (k : jsstring) :
  k ∈ others_in_flight ch l -> k ∈ l.
Proof.
  induction l as [|f l IH]; [done|]. cbn [others_in_flight].
  destruct (ch !! f) as [[]|] eqn:Hf; [|by right|by right].
  intros [->|Hin]%elem_of_cons; [apply list_elem_of_here|]. right. by apply IH.
Qed.

Lemma others_in_flight_files (ch : gmap jsstring kind) (l : list jsstring)
    (k : jsstring) :
  ch !! k = Some KFile -> k ∈ l -> k ∈ others_in_flight ch l.
Proof.
  intros Hk. induction l as [|f l IH]; [done|]. cbn [others_in_flight].
  destruct (ch !! f) as [[]|] eqn:Hf.
  - intros [->|Hin]%elem_of_cons; [apply list_elem_of_here|]. right. by apply IH.
  - intros [->|Hin]%elem_of_cons; [congruence|done].
  - intros [->|Hin]%elem_of_cons; [congruence|done].
Qed.

(** The unlinks left in flight, once finished, have removed what the
    unlinks of the whole listing would have removed. *)
Lemma unlink_others (now m : Z) (ch : gmap jsstring kind) :
  foldl (unlink_in now) (m, ch) (others_in_flight ch (map fst (map_to_list ch))) =
    (if decide (only_dirs ch = ch) then m else now, only_dirs ch).
Proof.
  destruct (unlink_all_children now m ch) as [Hall _]. cbv zeta in Hall.
  rewrite <- Hall. apply injective_projections.
  - rewrite !unlink_in_mtime. cbn [fst snd].
    enough (existsb (fun f => bool_decide (ch !! f = Some KFile))
              (others_in_flight ch (map fst (map_to_list ch))) =
            existsb (fun f => bool_decide (ch !! f = Some KFile))
              (map fst (map_to_list ch))) as -> by done.
    apply eq_true_iff_eq. rewrite !existsb_exists. split.
    + intros (f & Hin & Hf). exists f. split; [|done].
      apply list_elem_of_In. eapply others_in_flight_listed. by apply list_elem_of_In.
    + intros (f & Hin & Hf). exists f. split; [|done].
      apply bool_decide_eq_true in Hf.
      apply list_elem_of_In, others_in_flight_files; [done|]. by apply list_elem_of_In.
  - apply map_eq. intros k. rewrite !unlink_in_lookup. cbn [snd].
    destruct (ch !! k) as [[]|] eqn:Hk.
    + destruct (decide (k ∈ map fst (map_to_list ch))) as [Hin|Hin].
      * rewrite decide_True; [done|]. by apply others_in_flight_files.
      * rewrite decide_False; [done|]. intros H. by apply others_in_flight_listed in H.
    + by repeat destruct (decide _).
    + by repeat destruct (decide _).
Qed.

Lemma unlinking_app (dir : jsstring) (rs1 rs2 : list request) :
  unlinking dir (rs1 ++ rs2) = unlinking dir rs1 ++ unlinking dir rs2.
Proof. unfold unlinking. apply omap_app. Qed.

Lemma unlinking_map (dir name : jsstring) (l : list jsstring) :
  unlinking name (map (Unlinking dir) l) = if decide (dir = name) then l else [].
Proof.
  unfold unlinking. destruct (decide (dir = name)) as [->|Hne].
  - induction l as [|f l IH]; [done|]. cbn. rewrite decide_True by done. by f_equal.
  - induction l as [|f l IH]; [done|]. cbn. by rewrite decide_False.
Qed.

Lemma elem_of_unlinking (dir f : jsstring) (rs : list request) :
  f ∈ unlinking dir rs <-> Unlinking dir f ∈ rs.
Proof.
  unfold unlinking. rewrite list_elem_of_omap. split.
  - intros ([d f'] & Hin & H). destruct (decide (d = dir)) as [->|]; [|done].
    by injection H as ->.
  - intros Hin. exists (Unlinking dir f). split; [done|]. by rewrite decide_True.
Qed.

(** [cleanupWorkDir] always returns normally.  A directory of plain files
    is removed, files first, without a word.  Anything else is left as it
    is and one line is logged; when it is a directory holding a
    subdirectory, the unlinks of its other children have been started and
    are left in flight. *)
Lemma cleanupWorkDir_run (dir : jsstring) (w : World.t) :
  exists w',
    cleanupWorkDir dir w = (Ok tt, w') /\
    clock w' = clock w /\ uuids w' = uuids w /\
    executions (calls w') = executions (calls w) /\
    created (calls w') = created (calls w) /\
    (forall name,
       fs w' !! name = if decide (name = dir) then returned (fs w !! dir)
                       else fs w !! name) /\
    inflight w' = inflight w ++ map (Unlinking dir) (pending (fs w !! dir)) /\
    ((console w' = console w /\ fs w' !! dir = None) \/
     exists e, console w' = console w ++ [(ErrorLevel, js "Cleanup error: " ++ message e)]) /\
    (removable (fs w !! dir) -> is_Some (fs w !! dir) -> console w' = console w).
Proof.
  unfold cleanupWorkDir, cleanup_listed, log_cleanup_error, try_catch, bind, readdir.
  destruct (fs w !! dir) as [[m|m ch]|] eqn:Hd.
  - eexists. split; [reflexivity|]. cbn. rewrite app_nil_r. split_and!; try done.
    + intros name. destruct (decide _) as [->|]; by rewrite ?Hd.
    + right. by exists (SystemError "ENOTDIR").
  - cbn [returned pending]. unfold Promise_all.
    destruct (first_rejected_listing dir (map fst (map_to_list ch)) w m ch Hd)
      as [Hnone Hsome].
    destruct (decide (only_dirs ch = ∅)) as [Hflat|Hsub].
    + (* plain files only: every unlink succeeds, then rmdir *)
      rewrite Hnone.
      2: { intros f Hin. apply elem_of_keys in Hin.
           by apply (proj1 (only_dirs_empty_iff ch) Hflat). }
      destruct (unlink_all_children (clock w) m ch) as [Hfold Hall]. cbv zeta in Hfold, Hall.
      destruct (in_turn_unlink dir (map fst (map_to_list ch)) w m ch Hd)
        as (w1 & E & (Hc & Hu & Hcon & Hex & Hcr) & Hin & Hfs); [by apply Hall|].
      rewrite E. rewrite Hfold in Hfs. cbn [fst snd] in Hfs. rewrite Hflat in Hfs.
      unfold rmdir. rewrite Hfs, lookup_insert_eq.
      rewrite (decide_True (P := (∅ : gmap jsstring kind) = ∅)) by done.
      eexists. split; [reflexivity|]. destruct w1. cbn in *. rewrite app_nil_r.
      split_and!; try done.
      * by rewrite executions_snoc_other by exact I.
      * by rewrite created_snoc_other by exact I.
      * intros name. subst. rewrite delete_insert_eq.
        destruct (decide (name = dir)) as [->|Hne].
        -- apply lookup_delete_eq.
        -- by apply lookup_delete_ne.
      * left. split; [done|]. subst. rewrite delete_insert_eq. apply lookup_delete_eq.
    + (* a child that cannot be unlinked: the first rejection ends the wait *)
      destruct Hsome as [e ->].
      { apply map_choose in Hsub as (f & k & Hk). rewrite only_dirs_lookup in Hk.
        exists f. destruct (ch !! f) as [[]|] eqn:Hf; [done| |done].
        split; [apply elem_of_keys; by rewrite Hf|done]. }
      eexists. split; [reflexivity|]. cbn. split_and!; try done.
      * intros name. destruct (decide _) as [->|]; by rewrite ?Hd.
      * right. by exists e.
  - eexists. split; [reflexivity|]. cbn. rewrite app_nil_r. split_and!; try done.
    + intros name. destruct (decide _) as [->|]; by rewrite ?Hd.
    + right. by exists (SystemError "ENOENT").
Qed.

(** On a directory of plain files (or on nothing) [cleanupWorkDir] leaves
    no entry and nothing in flight. *)
Lemma cleanupWorkDir_removable (dir : jsstring) (w : World.t) :
  removable (fs w !! dir) ->
  exists w',
    cleanupWorkDir dir w = (Ok tt, w') /\
    clock w' = clock w /\ uuids w' = uuids w /\
    executions (calls w') = executions (calls w) /\
    created (calls w') = created (calls w) /\
    fs w' = delete dir (fs w) /\
    inflight w' = inflight w.
Proof.
  intros Hrem.
  destruct (cleanupWorkDir_run dir w) as (w' & E & Hc & Hu & Hex & Hcr & Hfs & Hin & _).
  exists w'. split_and!; try done.
  - apply map_eq. intros name. rewrite Hfs.
    destruct (decide (name = dir)) as [->|Hne].
    + rewrite lookup_delete_eq. destruct (fs w !! dir) as [[m|m ch]|]; cbn in *; [done| |done].
      by rewrite decide_True.
    + by rewrite lookup_delete_ne.
  - rewrite Hin. destruct (fs w !! dir) as [[m|m ch]|]; cbn in *; rewrite ?app_nil_r; try done.
    rewrite decide_True by done. by rewrite app_nil_r.
Qed.

(** *** Requests in flight finishing *)

Lemma elem_of_take_out (r x : request) (rs : list request) :
  x ∈ take_out r rs -> x ∈ rs.
Proof.
  induction rs as [|r' rs IH]; [done|]. cbn [take_out].
  destruct (decide (r' = r)); [by right|].
  intros [->|Hin]%elem_of_cons; [apply list_elem_of_here|]. right. by apply IH.
Qed.

Lemma finish_one_run (r : request) (w : World.t) :
  clock (finish_one r w) = clock w /\
  (r ∈ inflight w ->
   fs (finish_one r w) = finish_fs (clock w) (fs w) r /\
   inflight (finish_one r w) = take_out r (inflight w)) /\
  (r ∉ inflight w -> finish_one r w = w).
Proof.
  unfold finish_one. destruct (decide (r ∈ inflight w)) as [Hin|Hin]; [|done].
  destruct (perform_run r (set_inflight (take_out r (inflight w)) w))
    as (res & w' & E & _ & (Hc & _) & Hi & Hfs & _).
  rewrite E. cbn [snd]. split; [exact Hc|]. split; [|done]. by intros _.
Qed.

(** Whatever requests are named, what has happened is that some of the
    requests in flight have finished, one after the other. *)
Lemma finish_run (ended : list request) (w : World.t) :
  exists ended',
    (forall r, r ∈ ended' -> r ∈ inflight w) /\
    fs (finish ended w) = foldl (finish_fs (clock w)) (fs w) ended' /\
    clock (finish ended w) = clock w.
Proof.
  revert w. induction ended as [|r ended IH]; intros w.
  - exists []. split; [|done]. intros r Hr. by apply elem_of_nil in Hr.
  - cbn [finish foldl]. fold (finish ended (finish_one r w)).
    destruct (finish_one_run r w) as (Hc & Hyes & Hno).
    destruct (IH (finish_one r w)) as (ended' & Hsub & Hfs & Hc').
    destruct (decide (r ∈ inflight w)) as [Hin|Hin].
    + destruct (Hyes Hin) as [Hfs1 Hin1]. exists (r :: ended'). split_and!.
      * intros x [->|Hx]%elem_of_cons; [done|].
        apply Hsub in Hx. rewrite Hin1 in Hx. by apply elem_of_take_out in Hx.
      * cbn [foldl]. by rewrite Hfs, Hc, Hfs1.
      * congruence.
    + rewrite (Hno Hin) in *. by exists ended'.
Qed.

Lemma finish_all (rs : list request) (w : World.t) :
  inflight w = rs ->
  fs (finish rs w) = foldl (finish_fs (clock w)) (fs w) rs /\
  inflight (finish rs w) = [] /\
  clock (finish rs w) = clock w.
Proof.
  revert w. induction rs as [|r rs IH]; intros w Hrs; [done|].
  cbn [finish foldl]. fold (finish rs (finish_one r w)).
  destruct (finish_one_run r w) as (Hc & Hyes & _).
  destruct Hyes as [Hfs1 Hin1]; [rewrite Hrs; apply list_elem_of_here|].
  rewrite Hrs in Hin1. cbn [take_out] in Hin1. rewrite decide_True in Hin1 by done.
  destruct (IH (finish_one r w)) as (Hfs & Hin & Hc'); [done|].
  by rewrite Hfs, Hin, Hc', Hc, Hfs1.
Qed.

Lemma quiesce_run (w : World.t) :
  fs (quiesce w) = foldl (finish_fs (clock w)) (fs w) (inflight w) /\
  inflight (quiesce w) = [] /\
  clock (quiesce w) = clock w.
Proof. by apply finish_all. Qed.

Lemma finish_fs_one (now : Z) (files : FS) (d f name : jsstring) :
  finish_fs now files (Unlinking d f) !! name =
    if decide (d = name) then
      match files !! name with
      | Some (Dir m ch) =>
          Some (Dir (unlink_in now (m, ch) f).1 (unlink_in now (m, ch) f).2)
      | other => other
      end
    else files !! name.
Proof.
  unfold finish_fs, unlink_in. cbn [snd].
  destruct (decide (d = name)) as [->|Hne].
  - destruct (files !! name) as [[m|m ch]|] eqn:Hn; rewrite ?Hn; [done| |done].
    destruct (ch !! f) as [[]|] eqn:Hf; rewrite ?Hn; [|done|done].
    by rewrite lookup_insert_eq.
  - destruct (files !! d) as [[m|m ch]|] eqn:Hd; [done| |done].
    destruct (ch !! f) as [[]|]; [|done|done].
    by rewrite lookup_insert_ne.
Qed.

(** Requests that finish change the entry they name only: the files
    they unlink go, one by one. *)
Lemma finish_fs_lookup (now : Z) (rs : list request) (files : FS) (name : jsstring) :
  foldl (finish_fs now) files rs !! name =
    match files !! name with
    | Some (Dir m ch) =>
        Some (Dir (foldl (unlink_in now) (m, ch) (unlinking name rs)).1
                  (foldl (unlink_in now) (m, ch) (unlinking name rs)).2)
    | other => other
    end.
Proof.
  revert files. induction rs as [|[d f] rs IH]; intros files.
  - cbn. by destruct (files !! name) as [[]|].
  - cbn [foldl]. rewrite IH, finish_fs_one.
    change (unlinking name (Unlinking d f :: rs))
      with (match (if decide (d = name) then Some f else None) with
            | Some y => y :: unlinking name rs
            | None => unlinking name rs
            end).
    destruct (decide (d = name)) as [->|Hne]; [|done].
    destruct (files !! name) as [[m|m ch]|]; [done| |done].
    cbn [foldl]. by destruct (unlink_in now (m, ch) f).
Qed.

(** What unlinks can do to the children of a directory. *)
Lemma unlink_in_between (now m : Z) (ch : gmap jsstring kind) (l : list jsstring) :
  only_dirs ch ⊆ (foldl (unlink_in now) (m, ch) l).2 /\
  (foldl (unlink_in now) (m, ch) l).2 ⊆ ch.
Proof.
  split; apply map_subseteq_spec; intros k v; rewrite unlink_in_lookup; cbn [snd].
  - rewrite only_dirs_lookup. destruct (ch !! k) as [[]|]; [done| |done].
    by destruct (decide _).
  - destruct (decide _); [|done]. by destruct (ch !! k) as [[]|].
Qed.

(** An entry for which nothing is in flight is not touched; of a
    directory the subdirectories stay and nothing is added. *)
Lemma finish_lookup (ended : list request) (w : World.t) (name : jsstring) :
  match fs w !! name with
  | Some (Dir m ch) =>
      (unlinking name (inflight w) = [] -> fs (finish ended w) !! name = Some (Dir m ch)) /\
      exists m' ch',
        fs (finish ended w) !! name = Some (Dir m' ch') /\
        only_dirs ch ⊆ ch' /\ ch' ⊆ ch
  | other => fs (finish ended w) !! name = other
  end.
Proof.
  destruct (finish_run ended w) as (ended' & Hsub & -> & _).
  rewrite finish_fs_lookup.
  destruct (fs w !! name) as [[m|m ch]|]; [done| |done]. split.
  - intros Hnone.
    assert (unlinking name ended' = []) as ->; [|done].
    destruct (unlinking name ended') as [|f l] eqn:E; [done|].
    assert (f ∈ unlinking name (inflight w)) as Hin.
    { apply elem_of_unlinking, Hsub, elem_of_unlinking. rewrite E. apply list_elem_of_here. }
    rewrite Hnone in Hin. by apply elem_of_nil in Hin.
  - eexists _, _. split; [reflexivity|]. apply unlink_in_between.
Qed.

(** Whatever listing it works from, the body of [cleanupWorkDir] under
    its [catch] returns normally. *)
Lemma cleanup_listed_caught (dir : jsstring) (files : list jsstring) (w : World.t) :
  exists w', try_catch (cleanup_listed dir files) log_cleanup_error w = (Ok tt, w').
Proof.
  unfold try_catch, cleanup_listed, bind.
  pose proof (Promise_all_not_never (map (Unlinking dir) files) w) as Hn.
  destruct (Promise_all (map (Unlinking dir) files) w) as [[[]|e|] w1]; cbn in Hn.
  - unfold rmdir. destruct (fs w1 !! dir) as [[m|m ch]|]; [by eexists| |by eexists].
    case_decide; by eexists.
  - by eexists.
  - done.
Qed.

Lemma returned_idem (e : option entry) : returned (returned e) = returned e.
Proof.
  destruct e as [[m|m ch]|]; cbn; try done.
  destruct (decide (only_dirs ch = ∅)); cbn; [done|]. by rewrite decide_False.
Qed.

(** *** Calling again while unlinks are in flight *)

Lemma elem_of_take_out_iff (r x : request) (rs : list request) :
  r ∈ rs -> (x ∈ rs <-> x = r \/ x ∈ take_out r rs).
Proof.
  induction rs as [|r' rs IH]; [by intros ?%elem_of_nil|].
  cbn [take_out]. destruct (decide (r' = r)) as [->|Hne].
  - intros _. by rewrite elem_of_cons.
  - intros [->|Hin]%elem_of_cons; [done|]. rewrite !elem_of_cons, (IH Hin). tauto.
Qed.

(** The requests that were in flight are those that have finished and
    those that still are in flight. *)
Lemma finish_split (ended : list request) (w : World.t) :
  exists ended',
    (forall r, r ∈ inflight w <-> r ∈ ended' \/ r ∈ inflight (finish ended w)) /\
    fs (finish ended w) = foldl (finish_fs (clock w)) (fs w) ended' /\
    clock (finish ended w) = clock w.
Proof.
  revert w. induction ended as [|r ended IH]; intros w.
  - exists []. split; [|done]. intros r. cbn. rewrite elem_of_nil. tauto.
  - cbn [finish foldl]. fold (finish ended (finish_one r w)).
    destruct (finish_one_run r w) as (Hc & Hyes & Hno).
    destruct (IH (finish_one r w)) as (ended' & Hsplit & Hfs & Hc').
    destruct (decide (r ∈ inflight w)) as [Hin|Hin].
    + destruct (Hyes Hin) as [Hfs1 Hin1]. exists (r :: ended'). split_and!.
      * intros x. rewrite (elem_of_take_out_iff r x _ Hin), <- Hin1, Hsplit, elem_of_cons.
        tauto.
      * cbn [foldl]. by rewrite Hfs, Hc, Hfs1.
      * congruence.
    + rewrite (Hno Hin) in *. by exists ended'.
Qed.

(** Unlinks of the same files leave the same directory, in whatever
    order and however often they are made. *)
Lemma unlink_in_same (now : Z) (st : Z * gmap jsstring kind) (l1 l2 : list jsstring) :
  (forall k, st.2 !! k = Some KFile -> k ∈ l1 <-> k ∈ l2) ->
  foldl (unlink_in now) st l1 = foldl (unlink_in now) st l2.
Proof.
  intros H. apply injective_projections.
  - rewrite !unlink_in_mtime.
    enough (existsb (fun f => bool_decide (st.2 !! f = Some KFile)) l1 =
            existsb (fun f => bool_decide (st.2 !! f = Some KFile)) l2) as -> by done.
    apply eq_true_iff_eq. rewrite !existsb_exists.
    split; intros (f & Hin & Hf); exists f; (split; [|done]);
      apply bool_decide_eq_true in Hf; apply list_elem_of_In, (H f Hf);
      by apply list_elem_of_In.
  - apply map_eq. intros k. rewrite !unlink_in_lookup.
    destruct (st.2 !! k) as [[]|] eqn:Hk.
    + destruct (decide (k ∈ l1)) as [H1|H1], (decide (k ∈ l2)) as [H2|H2]; try done;
        exfalso; apply (H k Hk) in H1 || apply (H k Hk) in H2; done.
    + by repeat destruct (decide _).
    + by repeat destruct (decide _).
Qed.

(** What [cleanupWorkDir] has left in place stays in place. *)
Lemma returned_stays (ended : list request) (w1 : World.t) (dir : jsstring)
    (e : option entry) :
  fs w1 !! dir = returned e ->
  returned (fs (finish ended w1) !! dir) = fs (finish ended w1) !! dir.
Proof.
  intros Hfs. pose proof (finish_lookup ended w1 dir) as H. rewrite Hfs in H.
  destruct e as [[m|m ch]|]; cbn in H.
  - by rewrite H.
  - destruct (decide (only_dirs ch = ∅)) as [Hflat|Hsub]; [by rewrite H|].
    destruct H as (_ & m' & ch' & -> & Hsubs & _). cbn.
    rewrite decide_False; [done|]. intros Hempty.
    apply map_choose in Hsub as (f & k & Hk).
    pose proof (lookup_weaken _ _ _ _ Hk Hsubs) as Hk'.
    rewrite only_dirs_lookup in Hk.
    assert (only_dirs ch' !! f = Some k) as Hf.
    { rewrite only_dirs_lookup, Hk'. by destruct (ch !! f) as [[]|]; simplify_eq. }
    by rewrite Hempty in Hf.
  - by rewrite H.
Qed.

(** [cleanupWorkDir] called again, whatever part of the unlinks that the
    first call left in flight has finished by then: it returns normally,
    and once every unlink has finished the file system is what the first
    call alone leads to. *)
Lemma cleanupWorkDir_again (dir : jsstring) (w w1 : World.t) (ended : list request) :
  cleanupWorkDir dir w = (Ok tt, w1) ->
  exists w3,
    cleanupWorkDir dir (finish ended w1) = (Ok tt, w3) /\
    fs (quiesce w3) = fs (quiesce w1).
Proof.
  intros E1.
  destruct (cleanupWorkDir_run dir w) as (w1' & E1' & _ & _ & _ & _ & Hfs1 & Hin1 & _).
  rewrite E1 in E1'. injection E1' as <-.
  destruct (finish_split ended w1) as (ended' & Hsplit & Hfs2 & Hc2).
  destruct (cleanupWorkDir_run dir (finish ended w1))
    as (w3 & E3 & Hc3 & _ & _ & _ & Hfs3 & Hin3 & _).
  exists w3. split; [exact E3|].
  assert (fs w1 !! dir = returned (fs w !! dir)) as Hdir by (by rewrite Hfs1, decide_True).
  assert (fs w3 = fs (finish ended w1)) as Hsame.
  { apply map_eq. intros name. rewrite Hfs3.
    destruct (decide (name = dir)) as [->|]; [|done].
    by apply (returned_stays ended w1 dir (fs w !! dir)). }
  destruct (quiesce_run w3) as (-> & _). destruct (quiesce_run w1) as (-> & _).
  rewrite Hsame, Hin3, Hc3, Hc2, Hfs2, <- foldl_app.
  apply map_eq. intros name. rewrite !finish_fs_lookup.
  destruct (fs w1 !! name) as [[m|m ch]|] eqn:Hname; [done| |done].
  rewrite (unlink_in_same (clock w1) (m, ch) _ (unlinking name (inflight w1))); [done|].
  intros k Hk. cbn [snd] in Hk. rewrite !elem_of_unlinking, !elem_of_app. split.
  - intros [Hended|[Hflight|Hagain]].
    + apply Hsplit. by left.
    + apply Hsplit. by right.
    + apply list_elem_of_fmap in Hagain as (f & [= -> ->] & _).
      rewrite Hin1. apply elem_of_app. right. apply list_elem_of_fmap. exists f.
      split; [done|]. rewrite Hname in Hdir.
      destruct (fs w !! dir) as [[m0|m0 ch0]|]; cbn in Hdir; try done.
      cbn [pending]. destruct (decide (only_dirs ch0 = ∅)); [done|].
      injection Hdir as -> ->.
      apply others_in_flight_files; [done|]. apply elem_of_keys. by rewrite Hk.
  - intros [?|?]%Hsplit; tauto.
Qed.

(** C7: [cleanupWorkDir] returns normally from every state of the file
    system, also when the directory is missing or is not a directory.  A
    call that leaves the directory in place has logged one "Cleanup
    error" line.  On a directory that is already gone it changes nothing;
    called again, at any later time, on what a first call left, it
    returns normally and changes nothing; and with a listing that is out
    of date, files or directory having been removed in between, it still
    returns normally.  Called again while unlinks of the first call are
    in flight, whatever part of them has finished by then, it returns
    normally, and once all have finished the file system is what the
    first call alone leads to. *)
Theorem cleanupWorkDir_never_raises (dir : jsstring) (w : World.t) :
  exists w1,
    cleanupWorkDir dir w = (Ok tt, w1) /\
    (fs w1 !! dir <> None ->
     exists e, console w1 = console w ++ [(ErrorLevel, js "Cleanup error: " ++ message e)]) /\
    (fs w !! dir = None -> fs w1 = fs w) /\
    (forall w2, fs w2 = fs w1 ->
       exists w3, cleanupWorkDir dir w2 = (Ok tt, w3) /\ fs w3 = fs w1) /\
    (forall files w2,
       exists w3, try_catch (cleanup_listed dir files) log_cleanup_error w2 = (Ok tt, w3)) /\
    (forall ended,
       exists w3, cleanupWorkDir dir (finish ended w1) = (Ok tt, w3) /\
                  fs (quiesce w3) = fs (quiesce w1)).
Proof.
  destruct (cleanupWorkDir_run dir w) as (w1 & E & _ & _ & _ & _ & Hfs & _ & Hlog & _).
  exists w1. split; [exact E|]. split_and!.
  - intros Hleft. destruct Hlog as [[_ Hgone]|Hlogged]; [done|exact Hlogged].
  - intros Hnone. apply map_eq. intros k. rewrite Hfs.
    destruct (decide (k = dir)) as [->|]; [|done]. by rewrite Hnone.
  - intros w2 Hsame.
    destruct (cleanupWorkDir_run dir w2) as (w3 & E3 & _ & _ & _ & _ & Hfs3 & _).
    exists w3. split; [exact E3|]. apply map_eq. intros k. rewrite Hfs3, Hsame.
    destruct (decide (k = dir)) as [->|]; [|done]. rewrite Hfs, decide_True by done.
    apply returned_idem.
  - intros files w2. apply cleanup_listed_caught.
  - intros ended. by apply (cleanupWorkDir_again dir w).
Qed.

(** *** The sweep *)

Lemma sweep_entry_run (now : Z) (file : jsstring) (w : World.t) :
  exists w',
    sweep_entry now file w = (Ok tt, w') /\
    clock w' = clock w /\
    (forall name,
       fs w' !! name = if decide (name = file) then sweep_returned now (fs w !! file)
                       else fs w !! name) /\
    inflight w' =
      inflight w ++ map (Unlinking file) (sweep_pending now (fs w !! file)).
Proof.
  unfold sweep_entry, try_catch, bind, stat, sweep_returned, sweep_pending.
  destruct (fs w !! file) as [[m|m ch]|] eqn:Hf;
    cbn [isDirectory stats_mtimeMs andb stale].
  - eexists. split; [reflexivity|]. rewrite app_nil_r. split_and!; try done.
    intros name. destruct (decide _) as [->|]; by rewrite ?Hf.
  - destruct (Z.ltb_spec STALE_MS (now - m)) as [Hstale|Hfresh].
    + rewrite bool_decide_eq_true_2 by done.
      destruct (cleanupWorkDir_run file w) as (w1 & E & Hc & _ & _ & _ & Hfs & Hin & _).
      rewrite E. eexists. split; [reflexivity|]. cbn. rewrite Hf in Hfs, Hin. by split_and!.
    + rewrite bool_decide_eq_false_2 by lia.
      eexists. split; [reflexivity|]. rewrite app_nil_r. split_and!; try done.
      intros name. destruct (decide _) as [->|]; by rewrite ?Hf.
  - eexists. split; [reflexivity|]. rewrite app_nil_r. split_and!; try done.
    intros name. destruct (decide _) as [->|]; by rewrite ?Hf.
Qed.

(** The loop treats every name of the listing, whatever happens to the
    others. *)
Lemma sweep_files_run (now : Z) (files : list jsstring) (w : World.t) :
  NoDup files ->
  exists w',
    sweep_files now files w = (Ok tt, w') /\
    clock w' = clock w /\
    (forall name,
       fs w' !! name = if decide (name ∈ files) then sweep_returned now (fs w !! name)
                       else fs w !! name) /\
    (forall name,
       unlinking name (inflight w') =
         unlinking name (inflight w) ++
         if decide (name ∈ files) then sweep_pending now (fs w !! name) else []).
Proof.
  intros Hnd. revert w. induction Hnd as [|f files Hf Hnd IH]; intros w.
  - exists w. split; [done|]. split; [done|]. split; intros name.
    + rewrite decide_False; [done|apply not_elem_of_nil].
    + rewrite decide_False; [by rewrite app_nil_r|apply not_elem_of_nil].
  - destruct (sweep_entry_run now f w) as (w1 & E1 & Hc1 & Hfs1 & Hin1).
    destruct (IH w1) as (w2 & E2 & Hc2 & Hfs2 & Hin2).
    exists w2. unfold sweep_files in *. cbn [for_of]. unfold bind at 1.
    rewrite E1, E2. split; [done|]. split; [congruence|]. split; intros name.
    + rewrite Hfs2, !Hfs1. destruct (decide (name = f)) as [->|Hne].
      * rewrite (decide_False (P := f ∈ files)) by done.
        rewrite (decide_True (P := f ∈ f :: files)); [done|apply list_elem_of_here].
      * destruct (decide (name ∈ files)) as [Hin|Hin].
        -- rewrite (decide_True (P := name ∈ f :: files)); [done|by right].
        -- rewrite (decide_False (P := name ∈ f :: files)); [done|].
           by intros [->|?]%elem_of_cons.
    + rewrite Hin2, Hin1, unlinking_app, unlinking_map, Hfs1, <- app_assoc. f_equal.
      destruct (decide (f = name)) as [->|Hne].
      * rewrite (decide_False (P := name ∈ files)) by done.
        rewrite (decide_True (P := name ∈ name :: files)); [|apply list_elem_of_here].
        by rewrite app_nil_r.
      * rewrite (decide_False (P := name = f)) by done.
        destruct (decide (name ∈ files)) as [Hin|Hin].
        -- rewrite (decide_True (P := name ∈ f :: files)); [done|by right].
        -- rewrite (decide_False (P := name ∈ f :: files)); [done|].
           by intros [->|?]%elem_of_cons.
Qed.

(** What a file system holds for a name while the unlinks that
    [cleanupWorkDir] left in flight finish, and once all have. *)
Lemma cleanup_settles (now : Z) (w' : World.t) (name : jsstring) (e : option entry) :
  fs w' !! name = returned e ->
  unlinking name (inflight w') = pending e ->
  (forall ended, after_cleanup e (fs (finish ended w') !! name)) /\
  fs (quiesce w') !! name = e ≫= cleaned (clock w').
Proof.
  intros Hfs Hin. split.
  - intros ended. pose proof (finish_lookup ended w' name) as H. rewrite Hfs in H.
    unfold after_cleanup. destruct e as [[m|m ch]|]; cbn in *; try done.
    destruct (decide (only_dirs ch = ∅)); [done|]. by destruct H as [_ H].
  - destruct (quiesce_run w') as (-> & _ & _). rewrite finish_fs_lookup, Hfs, Hin.
    destruct e as [[m|m ch]|]; cbn; try done.
    destruct (decide (only_dirs ch = ∅)); [done|]. by rewrite unlink_others.
Qed.

(** An entry for which nothing is in flight stays as it is. *)
Lemma untouched_settles (w' : World.t) (name : jsstring) :
  unlinking name (inflight w') = [] ->
  (forall ended, fs (finish ended w') !! name = fs w' !! name) /\
  fs (quiesce w') !! name = fs w' !! name.
Proof.
  intros Hin. split.
  - intros ended. pose proof (finish_lookup ended w' name) as H.
    destruct (fs w' !! name) as [[m|m ch]|]; try done. by apply H.
  - destruct (quiesce_run w') as (-> & _ & _). rewrite finish_fs_lookup, Hin.
    by destruct (fs w' !! name) as [[m|m ch]|].
Qed.

(** The loop of the sweep over a listing without repetition. *)
Lemma sweep_files_settles (now : Z) (files : list jsstring) (w : World.t) :
  NoDup files -> inflight w = [] ->
  exists w',
    sweep_files now files w = (Ok tt, w') /\
    clock w' = clock w /\
    (forall ended name,
       if bool_decide (name ∈ files) && stale now (fs w !! name)
       then after_cleanup (fs w !! name) (fs (finish ended w') !! name)
       else fs (finish ended w') !! name = fs w !! name) /\
    (forall name,
       fs (quiesce w') !! name =
         if decide (name ∈ files) then fs w !! name ≫= swept now (clock w)
         else fs w !! name) /\
    (forall name f,
       name ∈ files -> stale now (fs w !! name) = true ->
       f ∈ pending (fs w !! name) -> Unlinking name f ∈ inflight w').
Proof.
  intros Hnd Hquiet.
  destruct (sweep_files_run now files w Hnd) as (w' & E & Hc & Hfs & Hin).
  exists w'. split; [exact E|]. split; [exact Hc|].
  assert (forall name,
    (bool_decide (name ∈ files) && stale now (fs w !! name) = true ->
     fs w' !! name = returned (fs w !! name) /\
     unlinking name (inflight w') = pending (fs w !! name)) /\
    (bool_decide (name ∈ files) && stale now (fs w !! name) = false ->
     fs w' !! name = fs w !! name /\ unlinking name (inflight w') = [])) as Hcases.
  { intros name. rewrite Hfs, Hin, Hquiet. unfold sweep_returned, sweep_pending. cbn [app].
    destruct (decide (name ∈ files)) as [Hl|Hl].
    - rewrite bool_decide_eq_true_2 by done. cbn [andb].
      by destruct (stale now (fs w !! name)).
    - rewrite bool_decide_eq_false_2 by done. by split. }
  split_and!.
  - intros ended name. destruct (Hcases name) as [Hyes Hno].
    destruct (bool_decide (name ∈ files) && stale now (fs w !! name)).
    + destruct Hyes as [H1 H2]; [done|].
      by apply (cleanup_settles now w' name (fs w !! name) H1 H2).
    + destruct Hno as [H1 H2]; [done|]. rewrite <- H1.
      by apply untouched_settles.
  - intros name. destruct (Hcases name) as [Hyes Hno].
    destruct (decide (name ∈ files)) as [Hl|Hl].
    2: rewrite bool_decide_eq_false_2 in Hno by done.
    + rewrite bool_decide_eq_true_2 in Hyes, Hno by done. cbn [andb] in *.
      destruct (stale now (fs w !! name)) eqn:Hst.
      * destruct Hyes as [H1 H2]; [done|].
        destruct (cleanup_settles now w' name (fs w !! name) H1 H2) as [_ ->].
        rewrite Hc. destruct (fs w !! name) as [[m|m ch]|]; cbn in *; try done.
        apply bool_decide_eq_true in Hst.
        by rewrite (decide_True (P := STALE_MS < now - m)).
      * destruct Hno as [H1 H2]; [done|].
        destruct (untouched_settles w' name H2) as [_ ->]. rewrite H1.
        destruct (fs w !! name) as [[m|m ch]|]; cbn in *; try done.
        apply bool_decide_eq_false in Hst.
        by rewrite (decide_False (P := STALE_MS < now - m)).
    + destruct Hno as [H1 H2]; [done|].
      destruct (untouched_settles w' name H2) as [_ ->]. exact H1.
  - intros name f Hl Hst Hf. apply elem_of_unlinking.
    rewrite Hin, Hquiet, decide_True by done. unfold sweep_pending. by rewrite Hst.
Qed.

Lemma unlinking_nil (name : jsstring) (rs : list request) :
  (forall f, Unlinking name f ∉ rs) -> unlinking name rs = [].
Proof.
  intros Hnone. destruct (unlinking name rs) as [|f l] eqn:E; [done|].
  exfalso. apply (Hnone f), elem_of_unlinking. rewrite E. apply list_elem_of_here.
Qed.

(** Unlinks that finish while the loop is running, rather than after it,
    make no difference to what is left in the end, as long as none of
    them is for a directory the loop has yet to visit: an unlink changes
    the directory it was started on only. *)
Lemma sweep_files_meanwhile (now : Z) (files : list jsstring) (w : World.t)
    (ended : list request) :
  NoDup files ->
  (forall name f, name ∈ files -> Unlinking name f ∉ inflight w) ->
  exists w1 w2,
    sweep_files now files w = (Ok tt, w1) /\
    sweep_files now files (finish ended w) = (Ok tt, w2) /\
    fs (quiesce w2) = fs (quiesce w1).
Proof.
  intros Hnd Hfree.
  destruct (sweep_files_run now files w Hnd) as (w1 & E1 & Hc1 & Hfs1 & Hin1).
  destruct (finish_split ended w) as (ended' & Hsplit & Hfs & Hc).
  destruct (sweep_files_run now files (finish ended w) Hnd) as (w2 & E2 & Hc2 & Hfs2 & Hin2).
  exists w1, w2. split; [exact E1|]. split; [exact E2|].
  destruct (quiesce_run w1) as (-> & _). destruct (quiesce_run w2) as (-> & _).
  rewrite Hc1, Hc2, Hc.
  apply map_eq. intros name. rewrite !finish_fs_lookup, Hfs1, Hfs2, Hin1, Hin2.
  assert (fs (finish ended w) !! name =
          foldl (finish_fs (clock w)) (fs w) ended' !! name) as Hname by (by rewrite Hfs).
  rewrite finish_fs_lookup in Hname.
  destruct (decide (name ∈ files)) as [Hl|Hl].
  - (* a directory of the listing: nothing was in flight for it *)
    assert (unlinking name (inflight w) = []) as Hw.
    { apply unlinking_nil. intros f. by apply Hfree. }
    assert (unlinking name ended' = []) as He.
    { apply unlinking_nil. intros f Hf. apply (Hfree name f Hl), Hsplit. by left. }
    assert (unlinking name (inflight (finish ended w)) = []) as Hf.
    { apply unlinking_nil. intros f Hf. apply (Hfree name f Hl), Hsplit. by right. }
    rewrite He in Hname. cbn [foldl] in Hname.
    assert (fs (finish ended w) !! name = fs w !! name) as ->.
    { rewrite Hname. by destruct (fs w !! name) as [[]|]. }
    by rewrite Hw, Hf.
  - (* any other entry: the loop leaves it alone *)
    rewrite !app_nil_r, Hname.
    destruct (fs w !! name) as [[m|m ch]|]; [done| |done].
    rewrite <- !surjective_pairing, <- foldl_app, <- unlinking_app.
    rewrite (unlink_in_same (clock w) (m, ch) _ (unlinking name (inflight w))); [done|].
    intros k _. rewrite !elem_of_unlinking, elem_of_app. symmetry. apply Hsplit.
Qed.

(** The same at every turn of the loop: whatever unlinks finish before
    each name is treated, what is left once all have finished is what
    the loop, run without interruption, leads to. *)
Lemma sweep_files_turns (now : Z) (turns : list (list request * jsstring)) (w : World.t) :
  NoDup (map snd turns) ->
  (forall name f, name ∈ map snd turns -> Unlinking name f ∉ inflight w) ->
  exists w2 w',
    for_of turns (fun turn u => sweep_entry now turn.2 (finish turn.1 u)) w = (Ok tt, w2) /\
    sweep_files now (map snd turns) w = (Ok tt, w') /\
    fs (quiesce w2) = fs (quiesce w').
Proof.
  revert w. induction turns as [|[e f] turns IH]; intros w Hnd Hfree.
  - by exists w, w.
  - cbn [map snd] in *. pose proof Hnd as Hnd'. apply NoDup_cons in Hnd' as [Hf Hrest].
    cbn [for_of]. unfold bind at 1. cbn [fst snd].
    destruct (sweep_entry_run now f (finish e w)) as (u1 & Eu & _ & _ & Hinu). rewrite Eu.
    destruct (finish_split e w) as (e' & Hsplit & _).
    destruct (IH u1 Hrest) as (w2 & w'' & E2 & E'' & Hq).
    { intros name g Hname Hin. rewrite Hinu in Hin. apply elem_of_app in Hin as [Hin|Hin].
      - apply (Hfree name g); [by right|]. apply Hsplit. by right.
      - apply list_elem_of_fmap in Hin as (? & [= -> _] & _). done. }
    destruct (sweep_files_meanwhile now (f :: map snd turns) w e Hnd Hfree)
      as (w1 & w2' & E1 & E2' & Hq').
    exists w2, w1. split; [exact E2|]. split; [exact E1|].
    unfold sweep_files in E2', E''. cbn [for_of] in E2'. unfold bind at 1 in E2'.
    rewrite Eu, E'' in E2'. injection E2' as <-. by rewrite Hq.
Qed.

(** C8 (as amended): started while no unlink of an earlier cleanup is in
    flight, the sweep returns normally and looks at the entries of
    [TEMP_DIR] only.  Plain files of [TEMP_DIR] and directories last
    modified ten minutes before the sweep or later are left as they are.
    A directory older than that which holds plain files only is removed
    with its files.  An older directory that holds a subdirectory is not
    removed: the unlinks of its plain files are started and the sweep
    goes on without waiting for them, so that while they finish the
    directory holds its subdirectories and some of its files, and only its
    subdirectories once all have finished.  The same holds of the loop
    over any listing without repetition, out of date or not: a name that
    fails to [stat] or a directory that cannot be removed does not stop
    the loop from treating the other names.  Unlinks that finish while
    the loop is running, before any of its turns, lead to the same end as
    unlinks that finish after it. *)
Theorem sweep_removes_stale_flat_directories (w : World.t) :
  inflight w = [] ->
  (exists w',
     periodic_cleanup w = (Ok tt, w') /\
     (forall ended name,
        if stale (clock w) (fs w !! name)
        then after_cleanup (fs w !! name) (fs (finish ended w') !! name)
        else fs (finish ended w') !! name = fs w !! name) /\
     (forall name m ch f,
        fs w !! name = Some (Dir m ch) -> STALE_MS < clock w - m ->
        only_dirs ch <> ∅ -> ch !! f = Some KFile ->
        Unlinking name f ∈ inflight w') /\
     (forall name, fs (quiesce w') !! name = fs w !! name ≫= swept (clock w) (clock w))) /\
  (forall now files, NoDup files ->
     exists w',
       sweep_files now files w = (Ok tt, w') /\
       (forall ended name,
          if bool_decide (name ∈ files) && stale now (fs w !! name)
          then after_cleanup (fs w !! name) (fs (finish ended w') !! name)
          else fs (finish ended w') !! name = fs w !! name) /\
       (forall name,
          fs (quiesce w') !! name =
            if decide (name ∈ files) then fs w !! name ≫= swept now (clock w)
            else fs w !! name)) /\
  (forall now (turns : list (list request * jsstring)), NoDup (map snd turns) ->
     exists w2 w',
       for_of turns (fun turn u => sweep_entry now turn.2 (finish turn.1 u)) w
         = (Ok tt, w2) /\
       sweep_files now (map snd turns) w = (Ok tt, w') /\
       fs (quiesce w2) = fs (quiesce w')).
Proof.
  intros Hquiet. split_and!.
  - destruct (sweep_files_settles (clock w) (map fst (map_to_list (fs w))) w)
      as (w' & E & _ & Hduring & Hafter & Hpending);
      [apply NoDup_fst_map_to_list|exact Hquiet|].
    assert (forall name, is_Some (fs w !! name) ->
              name ∈ map fst (map_to_list (fs w))) as Hlisted.
    { intros name [e He].
      change (map fst (map_to_list (fs w))) with ((map_to_list (fs w)).*1).
      apply list_elem_of_fmap. exists (name, e). split; [done|].
      by apply elem_of_map_to_list. }
    exists w'. unfold periodic_cleanup, try_catch, bind, readdir_root, Date_now.
    rewrite E. split; [done|]. split_and!.
    + intros ended name. specialize (Hduring ended name).
      destruct (fs w !! name) as [e|] eqn:He.
      * rewrite bool_decide_eq_true_2 in Hduring; [exact Hduring|].
        apply Hlisted. by rewrite He.
      * cbn [stale] in *. by rewrite andb_false_r in Hduring.
    + intros name m ch f Hname Hstale Hsub Hf. apply Hpending.
      * apply Hlisted. by rewrite Hname.
      * rewrite Hname. cbn. by apply bool_decide_eq_true.
      * rewrite Hname. cbn. rewrite decide_False by done.
        apply others_in_flight_files; [done|]. apply elem_of_keys. by rewrite Hf.
    + intros name. rewrite Hafter.
      destruct (decide _) as [|Hn]; [done|].
      destruct (fs w !! name) as [e|] eqn:He; [|done].
      exfalso. apply Hn, Hlisted. by rewrite He.
  - intros now files Hnd.
    destruct (sweep_files_settles now files w Hnd Hquiet)
      as (w' & E & _ & Hduring & Hafter & _).
    by exists w'.
  - intros now turns Hnd. apply sweep_files_turns; [exact Hnd|].
    intros name f _. rewrite Hquiet. apply not_elem_of_nil.
Qed.

(** A sweep of four entries: a plain file, a fresh workspace, an old
    workspace of plain files and an old one that holds a subdirectory. *)
Lemma sweep_removes_stale_flat_directories_witness :
  let w := World.Make
             {[ js "notes.txt" := File 0;
                js "fresh" := Dir 600000 {[ js "program.py" := KFile ]};
                js "old" := Dir 0 {[ js "program.py" := KFile ]};
                js "ws" := Dir 0 (<[js "sub" := KDir]> {[ js "a.out" := KFile ]}) ]}
             660000 0 [] [] in
  inflight w = [] /\
  exists w',
    periodic_cleanup w = (Ok tt, w') /\
    fs (quiesce w') !! js "notes.txt" = Some (File 0) /\
    fs (quiesce w') !! js "fresh" = Some (Dir 600000 {[ js "program.py" := KFile ]}) /\
    fs (quiesce w') !! js "old" = None /\
    fs (quiesce w') !! js "ws" = Some (Dir 660000 {[ js "sub" := KDir ]}) /\
    Unlinking (js "ws") (js "a.out") ∈ inflight w'.
Proof.
  cbv zeta. split; [reflexivity|].
  destruct (sweep_removes_stale_flat_directories
              (World.Make
                 {[ js "notes.txt" := File 0;
                    js "fresh" := Dir 600000 {[ js "program.py" := KFile ]};
                    js "old" := Dir 0 {[ js "program.py" := KFile ]};
                    js "ws" := Dir 0 (<[js "sub" := KDir]> {[ js "a.out" := KFile ]}) ]}
                 660000 0 [] []) eq_refl)
    as [(w' & E & _ & Hpending & Hafter) _].
  exists w'. split; [exact E|]. rewrite !Hafter. split_and!.
  - by vm_compute.
  - by vm_compute.
  - by vm_compute.
  - by vm_compute.
  - apply (Hpending (js "ws") 0 (<[js "sub" := KDir]> {[ js "a.out" := KFile ]})
             (js "a.out")); by vm_compute.
Defined.

(** C8 as stated fails: a directory eleven minutes old that holds a
    subdirectory is still there after the sweep. *)
Lemma stale_directory_survives_sweep :
  let w := World.Make orphan 660000 0 [] [] in
  let w' := snd (periodic_cleanup w) in
  (exists m ch, fs w !! js "ws" = Some (Dir m ch) /\ STALE_MS < clock w - m) /\
  (exists m' ch', fs w' !! js "ws" = Some (Dir m' ch') /\ ch' !! js "sub" = Some KDir).
Proof.
  cbv zeta. split.
  - eexists _, _. split; [by vm_compute|]. by vm_compute.
  - eexists _, _. split; [by vm_compute|]. by vm_compute.
Qed.

End WorkspaceFacts.

(* ===================================================================== *)
(** ** Properties of executeCode and the route *)
(* ===================================================================== *)

Module PipelineFacts.
Import Registry Pipeline Lifecycle Workspace WorkspaceFacts RunnerFacts.

(** *** The registry *)

Lemma registered_iff (language : jsstring) :
  registered language <-> exists c, Registry.get language = Some (Config c).
Proof.
  unfold registered, keys, Registry.get, LANGUAGE_CONFIG. cbn [map fst own_property].
  rewrite !elem_of_cons, elem_of_nil.
  repeat case_decide; subst; split; try (intros [c [=]]); eauto; try tauto.
  all: intros [|[|[|[|[]]]]]; congruence.
Qed.

(** A language for which the property read yields [undefined] is turned
    away before anything is touched. *)
Lemma undefined_language_rejected
    (TEMP_DIR : jsstring) (uuid_of : nat -> jsstring) (R : runner)
    (language code input : jsstring) (w : World.t) :
  Registry.get language = None ->
  executeCode TEMP_DIR uuid_of R language code input w =
    (Throw (Error (js "Unsupported language: " ++ language)), w).
Proof. intros H. unfold executeCode. by rewrite H. Qed.

(** C6, at a language id that is no key of [LANGUAGE_CONFIG] but names a
    member of [Object.prototype]: the property read yields that member,
    both guards let it pass, a workspace directory is created (and
    removed again when reading [config.run.command] throws), and the
    route answers 500. *)
Theorem inherited_property_passes_the_guard :
  let body := {| language := Some (js "toString"); code := Some (js "x");
                 input := None |} in
  let R : runner := fun _ _ _ files now => (None, files, now) in
  let w := World.Make ∅ 0 0 [] [] in
  let run := post_execute (js "/app/temp") (fun _ => js "0b6d2a3e") R body w in
  ~ registered (js "toString") /\
  fst run = Ok {| status := 500;
                  json := ErrorJson (js "Cannot read properties of undefined (reading 'command')") |} /\
  created (calls (snd run)) = [Mkdir (js "0b6d2a3e")] /\
  executions (calls (snd run)) = [].
Proof.
  cbv zeta. split; [|by vm_compute].
  rewrite registered_iff. intros [c Hc]. by vm_compute in Hc.
Qed.

Lemma post_execute_undefined_language
    (TEMP_DIR : jsstring) (uuid_of : nat -> jsstring) (R : runner)
    (lang src : jsstring) (stdin : option jsstring) (w : World.t) :
  truthy lang = true -> truthy src = true ->
  Registry.get lang = None ->
  post_execute TEMP_DIR uuid_of R
    {| language := Some lang; code := Some src; input := stdin |} w =
    (Ok {| status := 400;
           json := ErrorJson (js "Unsupported language: " ++ lang
                              ++ js ". Supported: " ++ join_comma keys) |}, w).
Proof.
  intros Hl Hc Hget. unfold post_execute, bind, try_catch, Date_now, or_empty.
  cbn. rewrite Hl, Hc, Hget. by cbn.
Qed.

Lemma mkdir_fresh (dir : jsstring) (w : World.t) :
  fs w !! dir = None ->
  mkdir dir w = (Ok tt, called (Mkdir dir) (set_fs (<[dir := Dir (clock w) ∅]> (fs w)) w)).
Proof. intros H. unfold mkdir. by rewrite H. Qed.

Lemma writeFile_new (dir file : jsstring) (w : World.t) (m : Z) (ch : gmap jsstring kind) :
  fs w !! dir = Some (Dir m ch) -> ch !! file = None ->
  writeFile dir file w =
    (Ok tt, called (WriteFile dir file)
              (set_fs (<[dir := Dir (clock w) (<[file := KFile]> ch)]> (fs w)) w)).
Proof. intros H1 H2. unfold writeFile. by rewrite H1, H2. Qed.

(** C4: for a registered language with a compile step, on a fresh
    workspace, when the compiler's run resolves with an exit code other
    than 0 (a number, [null], or the -1 of a forced end), [executeCode]
    returns "Compilation failed" with the compiler's stderr and stdout;
    [executeProcess] has been called once, for the compiler; and the
    workspace, which held plain files only, is gone. *)
Theorem compile_failure_stops_pipeline
    (TEMP_DIR : jsstring) (uuid_of : nat -> jsstring) (R : runner)
    (lang src stdin : jsstring) (config : LanguageConfig) (step : CompileStep)
    (w : World.t) (pr : Runner.ProcessResult) (files2 : FS) (now2 : Z) :
  let id := uuid_of (uuids w) in
  let workDir := path_join TEMP_DIR id in
  let filename := source_filename lang (Config config) src in
  let args := compile_arguments lang step workDir (path_join workDir filename) in
  Registry.get lang = Some (Config config) ->
  compile config = Some step ->
  fs w !! id = None ->
  R (compile_command step) args
    {| Runner.cwd := Some workDir; Runner.input := None;
       Runner.timeout := Some (timeout config); Runner.memoryLimit := None |}
    (<[id := Dir (clock w) {[filename := KFile]}]> (fs w)) (clock w)
    = (Some (Runner.Resolved pr), files2, now2) ->
  code_is_not_zero (Runner.r_exitCode pr) = true ->
  removable (files2 !! id) ->
  exists w',
    executeCode TEMP_DIR uuid_of R lang src stdin w =
      (Ok {| output := Runner.r_stdout pr; stderr := Runner.r_stderr pr;
             error := Some (js "Compilation failed");
             executionTime := now2 - clock w; exitCode := None |}, w') /\
    executions (calls w') =
      executions (calls w) ++ [ExecuteProcess (compile_command step) args] /\
    fs w' !! id = None.
Proof.
  cbv zeta. intros Hget Hstep Hfresh HR Hcode Hflat.
  unfold executeCode. rewrite Hget.
  unfold bind at 1. unfold uuidv4 at 1.
  set (w0 := World.Build (fs w) (clock w) (S (uuids w)) (console w) (calls w) (inflight w)).
  set (id := uuid_of (uuids w)) in *.
  unfold try_catch.
  unfold bind at 1. rewrite (mkdir_fresh id w0) by exact Hfresh.
  unfold bind at 1.
  erewrite writeFile_new; [|apply lookup_insert_eq|apply lookup_empty].
  unfold bind at 1. unfold Date_now at 1.
  unfold bind at 1.
  unfold compile_phase. cbn [get_compile get_timeout]. rewrite Hstep.
  unfold bind at 1. unfold await_executeProcess.
  cbn [fs clock called set_fs w0 uuids console calls inflight].
  rewrite insert_insert_eq, insert_empty. rewrite HR. rewrite Hcode.
  unfold bind at 1.
  match goal with |- context [cleanupWorkDir id ?w1] =>
    destruct (cleanupWorkDir_removable id w1) as (w2 & E & Hc & _ & Hex & _ & Hfs & _);
      [exact Hflat|] end.
  rewrite E.
  unfold bind, Date_now, ret. cbn in Hc, Hex, Hfs. rewrite Hc.
  eexists. split; [reflexivity|]. split.
  - rewrite Hex. unfold executions. rewrite !List.filter_app. cbn. by rewrite !app_nil_r.
  - rewrite Hfs. apply lookup_delete_eq.
Qed.

Lemma get_config_cases (lang : jsstring) (c : LanguageConfig) :
  Registry.get lang = Some (Config c) ->
  (lang = js "cpp" /\ c = cpp) \/ (lang = js "java" /\ c = java) \/
  (lang = js "python" /\ c = python) \/ (lang = js "javascript" /\ c = javascript).
Proof.
  unfold Registry.get, LANGUAGE_CONFIG. cbn [own_property].
  repeat case_decide; subst; try (intros [= <-]; tauto); done.
Qed.

Lemma run_target_registered (lang : jsstring) (c : LanguageConfig)
    (src workDir filepath : jsstring) :
  Registry.get lang = Some (Config c) ->
  run_target lang (Config c) src workDir filepath
  = ret (invocation lang src workDir filepath).
Proof.
  intros H.
  apply get_config_cases in H as [[-> ->]|[[-> ->]|[[-> ->]|[-> ->]]]];
    unfold run_target, invocation; cbn [get_run];
    repeat (rewrite decide_True by done || rewrite decide_False by (by vm_compute));
    reflexivity.
Qed.

(** The state in which the first program is started: identifier drawn,
    directory made, source written. *)
Lemma executeCode_prepared
    (TEMP_DIR : jsstring) (uuid_of : nat -> jsstring) (R : runner)
    (lang src stdin : jsstring) (config : property) (w : World.t) :
  let id := uuid_of (uuids w) in
  let workDir := path_join TEMP_DIR id in
  let filename := source_filename lang config src in
  let filepath := path_join workDir filename in
  let w1 :=
    World.Build (prepared id filename w) (clock w)
      (S (uuids w)) (console w) (calls w ++ [Mkdir id; WriteFile id filename])
      (inflight w) in
  Registry.get lang = Some config ->
  fs w !! id = None ->
  executeCode TEMP_DIR uuid_of R lang src stdin w =
    try_catch
      (failure <- compile_phase R lang config id workDir filepath (clock w) ;;
       match failure with
       | Some result => ret result
       | None =>
           target <- run_target lang config src workDir filepath ;;
           runResult <-
             await_executeProcess R (fst target) (snd target)
               {| Runner.cwd := Some workDir; Runner.input := Some stdin;
                  Runner.timeout := get_timeout config;
                  Runner.memoryLimit := get_memoryLimit config |} ;;
           now <- Date_now ;;
           let executionTime := now - clock w in
           cleanupWorkDir id ;;;
           ret {| output := Runner.r_stdout runResult;
                  stderr := Runner.r_stderr runResult;
                  error := Runner.r_error runResult;
                  executionTime := executionTime;
                  exitCode := Some (Runner.r_exitCode runResult) |}
       end)
      (fun error =>
         try_catch (cleanupWorkDir id) (fun _ => ret tt) ;;;
         throw error) w1.
Proof.
  cbv zeta. intros Hget Hfresh.
  unfold executeCode. rewrite Hget.
  unfold bind at 1. unfold uuidv4 at 1.
  set (w0 := World.Build (fs w) (clock w) (S (uuids w)) (console w) (calls w) (inflight w)).
  unfold try_catch.
  unfold bind at 1. rewrite (mkdir_fresh (uuid_of (uuids w)) w0) by exact Hfresh.
  unfold bind at 1.
  erewrite writeFile_new; [|apply lookup_insert_eq|apply lookup_empty].
  unfold bind at 1. unfold Date_now at 1.
  unfold called, set_fs, w0. cbn [fs clock uuids console calls inflight].
  rewrite insert_insert_eq, insert_empty, <- app_assoc. reflexivity.
Qed.


(** A request that runs to the end: compiler (if any) exits with 0, the
    run resolves.  [executeCode] calls [cleanupWorkDir] on what the run
    left and returns the run's result. *)
Lemma executeCode_completed
    (TEMP_DIR : jsstring) (uuid_of : nat -> jsstring) (R : runner)
    (lang src stdin : jsstring) (c : LanguageConfig) (w : World.t)
    (prc pr : Runner.ProcessResult) (files2 files3 : FS) (now2 now3 : Z) :
  let id := uuid_of (uuids w) in
  let workDir := path_join TEMP_DIR id in
  let filename := source_filename lang (Config c) src in
  let filepath := path_join workDir filename in
  let target := invocation lang src workDir filepath in
  Registry.get lang = Some (Config c) ->
  fs w !! id = None ->
  match compile c with
  | Some step =>
      R (compile_command step) (compile_arguments lang step workDir filepath)
        (compile_options workDir c) (prepared id filename w) (clock w)
        = (Some (Runner.Resolved prc), files2, now2) /\
      Runner.r_exitCode prc = Some 0
  | None => files2 = prepared id filename w /\ now2 = clock w
  end ->
  R target.1 target.2 (run_options workDir stdin c) files2 now2
    = (Some (Runner.Resolved pr), files3, now3) ->
  exists w1 w',
    fs w1 = files3 /\ inflight w1 = inflight w /\
    executions (calls w1) =
      executions (calls w)
      ++ match compile c with
         | Some step =>
             [ExecuteProcess (compile_command step)
                (compile_arguments lang step workDir filepath)]
         | None => []
         end
      ++ [ExecuteProcess target.1 target.2] /\
    cleanupWorkDir id w1 = (Ok tt, w') /\
    executeCode TEMP_DIR uuid_of R lang src stdin w =
      (Ok {| output := Runner.r_stdout pr; stderr := Runner.r_stderr pr;
             error := Runner.r_error pr; executionTime := now3 - clock w;
             exitCode := Some (Runner.r_exitCode pr) |}, w').
Proof.
  cbv zeta. intros Hget Hfresh Hcompile Hrun.
  pose proof (executeCode_prepared TEMP_DIR uuid_of R lang src stdin (Config c) w
                Hget Hfresh) as Hprep.
  cbv zeta in Hprep. rewrite Hprep. clear Hprep.
  unfold try_catch. unfold bind at 1.
  unfold compile_phase. cbn [get_compile get_timeout get_memoryLimit].
  rewrite (run_target_registered lang c src _ _ Hget).
  set (id := uuid_of (uuids w)) in *.
  destruct (compile c) as [step|].
  - destruct Hcompile as [Hc Hzero].
    unfold bind at 1. unfold await_executeProcess at 1.
    cbn [fs clock uuids console calls inflight]. unfold compile_options in Hc. rewrite Hc.
    rewrite Hzero. cbn [code_is_not_zero]. unfold ret at 1.
    unfold bind at 1. unfold ret at 1. cbn [fst snd].
    unfold bind at 1. unfold await_executeProcess at 1.
    cbn [fs clock uuids console calls inflight]. unfold run_options in Hrun. rewrite Hrun.
    unfold bind at 1. unfold Date_now at 1. unfold bind at 1.
    match goal with |- context [cleanupWorkDir id ?w1] =>
      destruct (cleanupWorkDir_run id w1) as (w2 & E & _); exists w1, w2 end.
    rewrite E. unfold ret. cbn [fs clock uuids console calls inflight].
    split_and!; try done.
    unfold executions. rewrite !List.filter_app. cbn.
    by rewrite !app_nil_r, <- !app_assoc.
  - destruct Hcompile as [-> ->].
    unfold ret at 1. unfold bind at 1. unfold ret at 1. cbn [fst snd].
    unfold bind at 1. unfold await_executeProcess at 1.
    cbn [fs clock uuids console calls inflight]. unfold run_options in Hrun. rewrite Hrun.
    unfold bind at 1. unfold Date_now at 1. unfold bind at 1.
    match goal with |- context [cleanupWorkDir id ?w1] =>
      destruct (cleanupWorkDir_run id w1) as (w2 & E & _); exists w1, w2 end.
    rewrite E. unfold ret. cbn [fs clock uuids console calls inflight].
    split_and!; try done.
    unfold executions. rewrite !List.filter_app. cbn.
    by rewrite !app_nil_r.
Qed.

(** C5 (as amended): a request for a registered language whose run
    phase ends on its own.  The callbacks of the run have seen the events
    [evs], the promise is pending and the run is not marked as forced (the
    timeout has not elapsed and neither stream is over the limit) when
    ['close'] arrives with [code].  Then [executeCode] returns a result
    whose [output] and [stderr] are all the text delivered, within the
    limit, whose [exitCode] is [code], and whose [error] is [null]
    exactly when [code] is 0 and "Process exited with code N" otherwise. *)
Theorem natural_exit_reported
    (TEMP_DIR : jsstring) (uuid_of : nat -> jsstring) (R : runner)
    (lang src stdin : jsstring) (c : LanguageConfig) (w : World.t)
    (prc : Runner.ProcessResult) (files2 files3 : FS) (now2 now3 : Z)
    (evs : list Runner.event) (code : exit_code) :
  let id := uuid_of (uuids w) in
  let workDir := path_join TEMP_DIR id in
  let filename := source_filename lang (Config c) src in
  let filepath := path_join workDir filename in
  let target := invocation lang src workDir filepath in
  let s := Runner.run stdin (timeout c) evs in
  Registry.get lang = Some (Config c) ->
  fs w !! id = None ->
  match compile c with
  | Some step =>
      R (compile_command step) (compile_arguments lang step workDir filepath)
        (compile_options workDir c) (prepared id filename w) (clock w)
        = (Some (Runner.Resolved prc), files2, now2) /\
      Runner.r_exitCode prc = Some 0
  | None => files2 = prepared id filename w /\ now2 = clock w
  end ->
  Runner.settled s = None ->
  ~ (Runner.timed_out s \/ Runner.overflowed s) ->
  R target.1 target.2 (run_options workDir stdin c) files2 now2
    = (Runner.settled (Runner.step s (Runner.CloseEvent code)), files3, now3) ->
  exists res w',
    executeCode TEMP_DIR uuid_of R lang src stdin w = (Ok res, w') /\
    output res = Runner.stdout_text evs /\
    stderr res = Runner.stderr_text evs /\
    jslength (output res) <= Runner.OUTPUT_LIMIT /\
    jslength (stderr res) <= Runner.OUTPUT_LIMIT /\
    exitCode res = Some code /\
    executionTime res = now3 - clock w /\
    (error res = None <-> code = Some 0) /\
    (code <> Some 0 ->
     error res = Some (js "Process exited with code " ++ render_code code)).
Proof.
  cbv zeta. intros Hget Hfresh Hcompile Hpending Hnatural Hrun.
  destruct (natural_exit_result stdin (timeout c) evs code Hpending Hnatural)
    as (Hsettled & Hout & Herr).
  rewrite Hsettled in Hrun.
  destruct (executeCode_completed TEMP_DIR uuid_of R lang src stdin c w prc _
              files2 files3 now2 now3 Hget Hfresh Hcompile Hrun)
    as (w1 & w' & _ & _ & _ & _ & Hexec).
  eexists _, w'. split; [exact Hexec|]. cbn. split_and!; try done.
  - destruct code as [[| |]|]; cbn; split; congruence.
  - intros Hne. destruct code as [[| |]|]; cbn; congruence.
Qed.


Lemma compile_failure_stops_pipeline_witness :
  let w := World.Make ∅ 1000 0 [] [] in
  exists w',
    executeCode (js "/app/temp") (fun _ => js "job") failing_compiler
                (js "cpp") (js "int main( {") [] w =
      (Ok {| output := []; stderr := js "error: expected ';'";
             error := Some (js "Compilation failed");
             executionTime := 250; exitCode := None |}, w') /\
    executions (calls w') =
      [ExecuteProcess (js "g++")
         [js "/app/temp/job/program.cpp"; js "-o"; js "/app/temp/job/program";
          js "-std=c++17"; js "-Wall"; js "-O2"]] /\
    fs w' !! js "job" = None.
Proof.
  cbv zeta.
  apply (compile_failure_stops_pipeline (js "/app/temp") (fun _ => js "job")
           failing_compiler (js "cpp") (js "int main( {") [] cpp cpp_compile
           (World.Make ∅ 1000 0 [] [])
           {| Runner.r_stdout := []; Runner.r_stderr := js "error: expected ';'";
              Runner.r_exitCode := Some 1;
              Runner.r_error := Some (js "Process exited with code 1") |}
           (<[js "job" := Dir 1000 {[ js "program.cpp" := KFile ]}]> ∅) 1250);
    reflexivity.
Defined.

Lemma natural_exit_reported_witness :
  let w := World.Make ∅ 1000 0 [] [] in
  let evs := [Runner.StdoutData [Byte.x68; Byte.x69]; Runner.Exited] in
  let s := Runner.run [] 10000 evs in
  Runner.settled s = None /\
  ~ (Runner.timed_out s \/ Runner.overflowed s) /\
  exists res w',
    executeCode (js "/app/temp") (fun _ => js "job") exits_with_3
                (js "python") (js "print('hi', end=''); exit(3)") [] w = (Ok res, w') /\
    output res = js "hi" /\
    exitCode res = Some (Some 3) /\
    error res = Some (js "Process exited with code 3").
Proof.
  cbv zeta.
  assert (~ (Runner.timed_out
               (Runner.run [] 10000 [Runner.StdoutData [Byte.x68; Byte.x69]; Runner.Exited]) \/
             Runner.overflowed
               (Runner.run [] 10000 [Runner.StdoutData [Byte.x68; Byte.x69]; Runner.Exited])))
    as Hnatural.
  { unfold Runner.timed_out, Runner.overflowed, Runner.OUTPUT_LIMIT. vm_compute.
    intros [[=]|[H|H]]; discriminate H. }
  split; [reflexivity|]. split; [exact Hnatural|].
  destruct (natural_exit_reported (js "/app/temp") (fun _ => js "job") exits_with_3
              (js "python") (js "print('hi', end=''); exit(3)") [] python
              (World.Make ∅ 1000 0 [] [])
              (Runner.Result [] [] None None)
              (<[js "job" := Dir 1000 {[ js "program.py" := KFile ]}]> ∅)
              (<[js "job" := Dir 1000 {[ js "program.py" := KFile ]}]> ∅)
              1000 1040
              [Runner.StdoutData [Byte.x68; Byte.x69]; Runner.Exited] (Some 3))
    as (res & w' & Hexec & Hout & _ & _ & _ & Hcode & _ & _ & Herr);
    [reflexivity | reflexivity | (split; reflexivity) | reflexivity | exact Hnatural
    | reflexivity |].
  exists res, w'. split; [exact Hexec|]. split; [exact Hout|]. split; [exact Hcode|].
  by apply Herr.
Defined.

(** C5 as stated fails: a program that exits on its own with code 0 but
    whose pipes are closed only after the timeout is reported as forced,
    although no signal ever reached it. *)
Lemma natural_exit_reported_as_forced :
  let evs := [Runner.StdoutData [Byte.x6f; Byte.x6b]; Runner.Exited;
              Runner.TimeoutElapsed; Runner.GraceElapsed] in
  let s := Runner.run [] 10000 evs in
  let w := World.Make ∅ 1000 0 [] [] in
  Runner.ChildProcess.signals (Runner.process s) = [] /\
  leaves_pipe_open (js "python3") [js "-u"; js "/app/temp/job/program.py"]
    (run_options (js "/app/temp/job") [] python)
    (<[js "job" := Dir 1000 {[ js "program.py" := KFile ]}]> ∅) 1000
  = (Runner.settled (Runner.step s (Runner.CloseEvent (Some 0))),
     <[js "job" := Dir 1000 {[ js "program.py" := KFile ]}]> ∅, 31000) /\
  exists w',
    executeCode (js "/app/temp") (fun _ => js "job") leaves_pipe_open
                (js "python") (js "import subprocess") [] w =
      (Ok {| output := js "ok"; stderr := [];
             error := Some Runner.TERMINATED_MESSAGE;
             executionTime := 30000; exitCode := Some (Some (-1)) |}, w').
Proof.
  cbv zeta. split; [by vm_compute|]. split; [by vm_compute|].
  eexists. by vm_compute.
Qed.

(** With [executeProcess] as it is, a request for a registered language
    is answered 500 with the [ReferenceError] of the [spawn] call, after
    the workspace has been created and removed. *)
Lemma hello_world_is_answered_500 (ambient : Runner.Environ) (os : Runner.OS) :
  let body := {| language := Some (js "python");
                 code := Some (js "print('Hello, World!')"); input := None |} in
  let w := World.Make ∅ 0 0 [] [] in
  let run := post_execute (js "/app/temp") (fun _ => js "job")
               (Runner.executeProcess ambient os) body w in
  fst run = Ok {| status := 500;
                  json := ErrorJson (js "Cannot access 'process' before initialization") |} /\
  fs (snd run) = ∅.
Proof. cbv zeta. split; by vm_compute. Qed.

End PipelineFacts.

(* ===================================================================== *)
(** ** Further properties of executeProcess *)
(* ===================================================================== *)

Module RunnerMore.
Import Runner RunnerFacts.

Lemma settled_step (s : state) (ev : event) (x : settlement) :
  settled s = Some x -> settled (step s ev) = Some x.
Proof.
  intros H. destruct ev as [data|data| | | |e|code]; cbn [step].
  - unfold on_stdout_data. case_decide; by destruct s.
  - unfold on_stderr_data. case_decide; by destruct s.
  - unfold on_timeout. destruct s as [? ? ? [d []] ? ? ?]; cbn; try destruct (0 <? d); done.
  - unfold on_grace. destruct s as [? ? ? ? [[? []]|] ? ?]; try done.
    cbn. by destruct (negb _).
  - by destruct s.
  - unfold on_error, settle. destruct s as [? ? ? ? ? ? []]; cbn in *; congruence.
  - unfold on_close, settle. destruct s as [? ? [] ? ? ? []]; cbn in *; congruence.
Qed.

(** X1: the promise of [executeProcess] is settled once: whatever it was
    resolved or rejected with stays, whichever events follow (a second
    ['close'], an ['error'] after ['close'], late output, late timers). *)
Theorem promise_settles_once
    (input : jsstring) (timeout : Z) (evs more : list event) (x : settlement) :
  settled (run input timeout evs) = Some x ->
  settled (run input timeout (evs ++ more)) = Some x.
Proof.
  intros H. induction more as [|ev more IH] using rev_ind.
  - by rewrite app_nil_r.
  - rewrite app_assoc, run_snoc. by apply settled_step.
Qed.

Lemma promise_settles_once_witness :
  settled (run [] 10000 [Exited; CloseEvent (Some 0)])
    = Some (Resolved (Result [] [] (Some 0) None)) /\
  settled (run [] 10000 ([Exited; CloseEvent (Some 0)]
                         ++ [ErrorEvent (SystemError "EPIPE"); TimeoutElapsed;
                             CloseEvent (Some 1)]))
    = Some (Resolved (Result [] [] (Some 0) None)).
Proof.
  split; [reflexivity|].
  apply (promise_settles_once [] 10000 [Exited; CloseEvent (Some 0)]
           [ErrorEvent (SystemError "EPIPE"); TimeoutElapsed; CloseEvent (Some 1)]).
  reflexivity.
Defined.

(** X2: in every resolved result, [error] is [null] exactly when
    [exitCode] is 0 (a forced run has -1 and the fixed message, a natural
    one the code it was closed with). *)
Theorem error_is_null_iff_exit_code_zero
    (input : jsstring) (timeout : Z) (evs : list event) (pr : ProcessResult) :
  settled (run input timeout evs) = Some (Resolved pr) ->
  (r_error pr = None <-> r_exitCode pr = Some 0).
Proof.
  revert pr.
  apply (run_invariant (fun s => forall pr, settled s = Some (Resolved pr) ->
                                  (r_error pr = None <-> r_exitCode pr = Some 0))).
  - done.
  - intros s ev IH pr.
    destruct (settled s) as [x|] eqn:Hs.
    + rewrite (settled_step s ev x Hs). intros [= ->]. by apply IH.
    + destruct ev as [data|data| | | |e|code]; cbn [step].
      * unfold on_stdout_data. case_decide; destruct s; cbn in *; congruence.
      * unfold on_stderr_data. case_decide; destruct s; cbn in *; congruence.
      * unfold on_timeout. destruct s as [? ? ? [d []] ? ? ?]; cbn in *;
        try destruct (0 <? d); cbn; congruence.
      * unfold on_grace. destruct s as [? ? ? ? [[? []]|] ? ?]; cbn in *; try congruence.
        destruct (negb _); cbn; congruence.
      * destruct s; cbn in *; congruence.
      * unfold on_error, settle. destruct s; cbn in *. subst. cbn. congruence.
      * unfold on_close, settle. destruct s as [? ? k ? ? ? ?]; cbn in *. subst.
        destruct k; cbn; intros [= <-]; cbn; [split; congruence|].
        destruct code as [[| |]|]; cbn; split; congruence.
Qed.

Lemma error_is_null_iff_exit_code_zero_witness :
  settled (run [] 10000 [Exited; CloseEvent (Some 2)])
    = Some (Resolved (Result [] [] (Some 2) (Some (js "Process exited with code 2")))) /\
  (Some (js "Process exited with code 2") = None <-> Some 2 = Some 0).
Proof.
  split; [reflexivity|].
  apply (error_is_null_iff_exit_code_zero [] 10000 [Exited; CloseEvent (Some 2)]
           (Result [] [] (Some 2) (Some (js "Process exited with code 2")))).
  reflexivity.
Defined.

(** X3: [killed] is set exactly when the timeout has elapsed on a pending
    timer or one of the two streams has grown past 1048576 code units;
    no other event sets it and nothing resets it. *)
Theorem killed_exactly_when_forced (input : jsstring) (timeout : Z) (evs : list event) :
  killed (run input timeout evs) = true <->
  status (timeoutId (run input timeout evs)) = Fired \/
  OUTPUT_LIMIT < jslength (stdout_text evs) \/
  OUTPUT_LIMIT < jslength (stderr_text evs).
Proof.
  pose proof (killed_iff_forced input timeout evs) as H. cbv zeta in H.
  unfold timed_out, overflowed in H.
  destruct (run_streams input timeout evs) as [E1 E2]. rewrite E1, E2 in H.
  rewrite H. tauto.
Qed.

(** X4: the text a result carries is everything that was delivered
    up to the ['close'] event, chunk by chunk: the callbacks go on
    appending after the limit was crossed and after SIGTERM was sent, so
    nothing is cut off at the limit. *)
Theorem output_is_never_truncated (input : jsstring) (timeout : Z) (evs : list event) :
  stdout (run input timeout evs) = stdout_text evs /\
  stderr (run input timeout evs) = stderr_text evs /\
  forall code pr,
    settled (run input timeout evs) = None ->
    settled (run input timeout (evs ++ [CloseEvent code])) = Some (Resolved pr) ->
    r_stdout pr = stdout_text evs /\ r_stderr pr = stderr_text evs.
Proof.
  destruct (run_streams input timeout evs) as [E1 E2].
  split; [exact E1|]. split; [exact E2|].
  intros code pr Hpending. rewrite run_snoc. cbn [step]. unfold on_close, settle.
  destruct (run input timeout evs) as [out err k t g p r]. cbn in *. subst r.
  destruct k; cbn; intros [= <-]; cbn; by subst.
Qed.

(** X5: a non-empty [input] is written to the child's standard input
    once, as one chunk, and the stream is ended; no callback writes to it
    again. *)
Theorem input_is_written_once_and_ended
    (input : jsstring) (timeout : Z) (evs : list event) :
  truthy input = true ->
  ChildProcess.stdin_written (process (run input timeout evs)) = [input] /\
  ChildProcess.stdin_ended (process (run input timeout evs)) = true.
Proof.
  intros Hin.
  apply (run_invariant (fun s =>
    ChildProcess.stdin_written (process s) = [input] /\
    ChildProcess.stdin_ended (process s) = true)).
  - unfold started. by rewrite Hin.
  - intros s ev IH.
    assert (forall sg p, ChildProcess.stdin_written (ChildProcess.kill sg p)
                         = ChildProcess.stdin_written p /\
                         ChildProcess.stdin_ended (ChildProcess.kill sg p)
                         = ChildProcess.stdin_ended p) as Hk.
    { intros sg p. unfold ChildProcess.kill. by destruct (ChildProcess.handle p). }
    destruct ev as [data|data| | | |e|code]; cbn [step].
    + unfold on_stdout_data. case_decide; destruct s as [? ? ? ? ? p ?]; cbn in *; [|done].
      by destruct (Hk SIGTERM p) as [-> ->].
    + unfold on_stderr_data. case_decide; destruct s as [? ? ? ? ? p ?]; cbn in *; [|done].
      by destruct (Hk SIGTERM p) as [-> ->].
    + unfold on_timeout. destruct s as [? ? ? [d []] ? p ?]; cbn in *; try done.
      destruct (0 <? d); cbn.
      * destruct (Hk SIGTERM (ChildProcess.kill SIGTERM p)) as [-> ->].
        by destruct (Hk SIGTERM p) as [-> ->].
      * by destruct (Hk SIGTERM p) as [-> ->].
    + unfold on_grace. destruct s as [out err k t [[d st]|] p r]; [|done].
      destruct st; [|done|done]. cbn in *.
      destruct (negb _); cbn; [|done]. by destruct (Hk SIGKILL p) as [-> ->].
    + by destruct s as [? ? ? ? ? [] ?].
    + unfold on_error, settle. by destruct s as [? ? ? ? ? ? []].
    + unfold on_close, settle. by destruct s as [? ? [] ? ? ? []].
Qed.

Lemma input_is_written_once_and_ended_witness :
  truthy (js "42") = true /\
  ChildProcess.stdin_written
    (process (run (js "42") 10000 [StdoutData [Byte.x34]; TimeoutElapsed])) = [js "42"] /\
  ChildProcess.stdin_ended
    (process (run (js "42") 10000 [StdoutData [Byte.x34]; TimeoutElapsed])) = true.
Proof.
  split; [reflexivity|].
  apply (input_is_written_once_and_ended (js "42") 10000
           [StdoutData [Byte.x34]; TimeoutElapsed]).
  reflexivity.
Defined.

Lemma timer_stays_disarmed (s : state) (ev : event) :
  status (timeoutId s) <> Armed -> status (timeoutId (step s ev)) <> Armed.
Proof.
  intros H. destruct ev as [data|data| | | |e|code]; cbn [step].
  - unfold on_stdout_data. case_decide; by destruct s.
  - unfold on_stderr_data. case_decide; by destruct s.
  - unfold on_timeout. destruct s as [? ? ? [d []] ? ? ?]; cbn; try destruct (0 <? d); done.
  - unfold on_grace. destruct s as [? ? ? ? [[? []]|] ? ?]; try done.
    cbn. by destruct (negb _).
  - by destruct s.
  - unfold on_error, settle. by destruct s as [? ? ? [? []] ? ? []].
  - unfold on_close, settle. by destruct s as [? ? [] [? []] ? ? []].
Qed.

(** X6: once ['close'] or ['error'] has been handled, the timeout is
    disarmed for good: when its delay elapses later the callback does not
    run, so the run is not marked as killed and no signal is sent by it. *)
Theorem timeout_is_cleared_on_close_and_error
    (input : jsstring) (timeout : Z) (evs more : list event) (ev : event) :
  (exists code, ev = CloseEvent code) \/ (exists e, ev = ErrorEvent e) ->
  let s := run input timeout (evs ++ ev :: more) in
  step s TimeoutElapsed = s.
Proof.
  intros Hev. cbv zeta.
  assert (status (timeoutId (run input timeout (evs ++ ev :: more))) <> Armed) as H.
  { induction more as [|ev' more IH] using rev_ind.
    - rewrite run_snoc.
      destruct Hev as [[code ->]|[e ->]]; cbn [step].
      + unfold on_close, settle.
        by destruct (run input timeout evs) as [? ? [] [? []] ? ? []].
      + unfold on_error, settle.
        by destruct (run input timeout evs) as [? ? ? [? []] ? ? []].
    - rewrite app_comm_cons, app_assoc, run_snoc. by apply timer_stays_disarmed. }
  cbn [step]. unfold on_timeout.
  by destruct (status (timeoutId (run input timeout (evs ++ ev :: more)))).
Qed.

Lemma timeout_is_cleared_on_close_and_error_witness :
  let s := run [] 10000 ([StdoutData [Byte.x68]] ++ CloseEvent (Some 0) :: [Exited]) in
  step s TimeoutElapsed = s /\ killed s = false.
Proof.
  cbv zeta. split; [|reflexivity].
  apply (timeout_is_cleared_on_close_and_error [] 10000 [StdoutData [Byte.x68]] [Exited]
           (CloseEvent (Some 0))).
  left. by exists (Some 0).
Defined.

End RunnerMore.

(* ===================================================================== *)
(** ** Further properties of cleanup and shutdown *)
(* ===================================================================== *)

Module WorkspaceMore.
Import Workspace WorkspaceFacts Lifecycle.

(** X15: called while no unlink is in flight, [cleanupWorkDir(dir)]
    starts no program, creates no directory and, whatever becomes of the
    unlinks it leaves in flight, changes no entry of [TEMP_DIR] but
    [dir].  A directory of plain files is gone when it returns, nothing
    is logged and nothing is left in flight.  A directory that holds a
    subdirectory is still there: the unlink of each of its plain files
    has been started but is not awaited, so while they finish it holds
    its subdirectories and some of its files, and its subdirectories
    only once all have finished. *)
Theorem cleanupWorkDir_touches_one_workspace (dir : jsstring) (w : World.t) :
  inflight w = [] ->
  exists w',
    cleanupWorkDir dir w = (Ok tt, w') /\
    executions (calls w') = executions (calls w) /\
    created (calls w') = created (calls w) /\
    (forall ended name, name <> dir -> fs (finish ended w') !! name = fs w !! name) /\
    (forall ended, after_cleanup (fs w !! dir) (fs (finish ended w') !! dir)) /\
    fs (quiesce w') !! dir = fs w !! dir ≫= cleaned (clock w) /\
    (forall m ch,
       fs w !! dir = Some (Dir m ch) ->
       if decide (only_dirs ch = ∅)
       then console w' = console w /\ inflight w' = []
       else forall f, ch !! f = Some KFile -> Unlinking dir f ∈ inflight w').
Proof.
  intros Hquiet.
  destruct (cleanupWorkDir_run dir w)
    as (w' & E & Hc & _ & Hex & Hcr & Hfs & Hin & _ & Hsilent).
  rewrite Hquiet in Hin. cbn [app] in Hin.
  assert (fs w' !! dir = returned (fs w !! dir)) as Hdir
    by (by rewrite Hfs, decide_True).
  assert (unlinking dir (inflight w') = pending (fs w !! dir)) as Hpending
    by (by rewrite Hin, unlinking_map, decide_True).
  destruct (cleanup_settles (clock w) w' dir (fs w !! dir) Hdir Hpending)
    as [Hduring Hafter].
  exists w'. split; [exact E|]. split_and!; try done.
  - intros ended name Hne.
    destruct (untouched_settles w' name) as [-> _].
    + by rewrite Hin, unlinking_map, decide_False.
    + by rewrite Hfs, decide_False.
  - by rewrite Hafter, Hc.
  - intros m ch Hd. rewrite Hd in Hin, Hsilent. cbn [pending] in Hin.
    destruct (decide (only_dirs ch = ∅)) as [Hflat|Hsub].
    + split; [|exact Hin]. by apply Hsilent.
    + intros f Hf. apply elem_of_unlinking. rewrite Hpending, Hd. cbn [pending].
      rewrite decide_False by done.
      apply others_in_flight_files; [done|]. apply elem_of_keys. by rewrite Hf.
Qed.

(** A workspace in which a program made a subdirectory, between two
    others. *)
Lemma cleanupWorkDir_touches_one_workspace_witness :
  let w := World.Make
             {[ js "a" := Dir 5 {[ js "program.py" := KFile ]};
                js "ws" := Dir 0 (<[js "sub" := KDir]> {[ js "a.out" := KFile ]}) ]}
             1000 0 [] [] in
  inflight w = [] /\
  exists w',
    cleanupWorkDir (js "ws") w = (Ok tt, w') /\
    fs (quiesce w') !! js "ws" = Some (Dir 1000 {[ js "sub" := KDir ]}) /\
    fs (quiesce w') !! js "a" = Some (Dir 5 {[ js "program.py" := KFile ]}) /\
    Unlinking (js "ws") (js "a.out") ∈ inflight w'.
Proof.
  cbv zeta. split; [reflexivity|].
  destruct (cleanupWorkDir_touches_one_workspace (js "ws")
              (World.Make
                 {[ js "a" := Dir 5 {[ js "program.py" := KFile ]};
                    js "ws" := Dir 0 (<[js "sub" := KDir]> {[ js "a.out" := KFile ]}) ]}
                 1000 0 [] []) eq_refl)
    as (w' & E & _ & _ & Hother & _ & Hafter & Hflight).
  exists w'. split; [exact E|]. split_and!.
  - rewrite Hafter. by vm_compute.
  - unfold quiesce. rewrite Hother; by vm_compute.
  - specialize (Hflight 0 (<[js "sub" := KDir]> {[ js "a.out" := KFile ]})).
    rewrite decide_False in Hflight by (by vm_compute).
    apply Hflight; by vm_compute.
Defined.

(** *** Shutdown *)

Lemma shutdown_entry_run (file : jsstring) (w : World.t) :
  is_Some (fs w !! file) ->
  exists w',
    shutdown_entry file w = (Ok tt, w') /\
    clock w' = clock w /\
    (forall name,
       fs w' !! name = if decide (name = file) then returned (fs w !! file)
                       else fs w !! name) /\
    inflight w' = inflight w ++ map (Unlinking file) (pending (fs w !! file)).
Proof.
  intros [e He]. unfold shutdown_entry, bind, stat. rewrite He.
  destruct e as [m|m ch]; cbn [isDirectory].
  - eexists. split; [reflexivity|]. cbn. rewrite app_nil_r. split_and!; try done.
    intros name. destruct (decide _) as [->|]; by rewrite ?He.
  - destruct (cleanupWorkDir_run file w) as (w' & E & Hc & _ & _ & _ & Hfs & Hin & _).
    rewrite E. rewrite He in Hfs, Hin. by exists w'.
Qed.

Lemma shutdown_files_run (files : list jsstring) (w : World.t) :
  NoDup files ->
  (forall f, f ∈ files -> is_Some (fs w !! f)) ->
  exists w',
    shutdown_files files w = (Ok tt, w') /\
    clock w' = clock w /\
    (forall name,
       fs w' !! name = if decide (name ∈ files) then returned (fs w !! name)
                       else fs w !! name) /\
    (forall name,
       unlinking name (inflight w') =
         unlinking name (inflight w) ++
         if decide (name ∈ files) then pending (fs w !! name) else []).
Proof.
  intros Hnd. revert w. induction Hnd as [|f files Hf Hnd IH]; intros w Hall.
  - exists w. split; [done|]. split; [done|]. split; intros name.
    + rewrite decide_False; [done|apply not_elem_of_nil].
    + rewrite decide_False; [by rewrite app_nil_r|apply not_elem_of_nil].
  - destruct (shutdown_entry_run f w) as (w1 & E1 & Hc1 & Hfs1 & Hin1);
      [apply Hall, list_elem_of_here|].
    destruct (IH w1) as (w2 & E2 & Hc2 & Hfs2 & Hin2).
    { intros f' Hin. rewrite Hfs1, decide_False by (by intros ->).
      apply Hall. by right. }
    exists w2. unfold shutdown_files in *. cbn [for_of]. unfold bind at 1.
    rewrite E1, E2. split; [done|]. split; [congruence|]. split; intros name.
    + rewrite Hfs2, !Hfs1. destruct (decide (name = f)) as [->|Hne].
      * rewrite (decide_False (P := f ∈ files)) by done.
        rewrite (decide_True (P := f ∈ f :: files)); [done|apply list_elem_of_here].
      * destruct (decide (name ∈ files)) as [Hin|Hin].
        -- rewrite (decide_True (P := name ∈ f :: files)); [done|by right].
        -- rewrite (decide_False (P := name ∈ f :: files)); [done|].
           by intros [->|?]%elem_of_cons.
    + rewrite Hin2, Hin1, unlinking_app, unlinking_map, Hfs1, <- app_assoc. f_equal.
      destruct (decide (f = name)) as [->|Hne].
      * rewrite (decide_False (P := name ∈ files)) by done.
        rewrite (decide_True (P := name ∈ name :: files)); [|apply list_elem_of_here].
        by rewrite app_nil_r.
      * rewrite (decide_False (P := name = f)) by done.
        destruct (decide (name ∈ files)) as [Hin|Hin].
        -- rewrite (decide_True (P := name ∈ f :: files)); [done|by right].
        -- rewrite (decide_False (P := name ∈ f :: files)); [done|].
           by intros [->|?]%elem_of_cons.
Qed.

(** X16: the shutdown callback, run while no unlink is in flight, calls
    [cleanupWorkDir] on every directory of [TEMP_DIR], whatever its age,
    and returns normally, on its way to [process.exit(0)]: a directory
    of plain files is gone; a directory that holds a subdirectory is
    still there, with its subdirectories and, since the unlinks of its
    plain files are only in flight when the process exits, some of its
    files; plain files of [TEMP_DIR] stay.
    Unlike the periodic sweep, the loop has no [try] of its own: over a
    listing whose first name cannot be [stat]ed any more it stops at
    once, leaves every later entry as it was and logs the error. *)
Theorem shutdown_cleans_every_directory (w : World.t) :
  inflight w = [] ->
  (exists w',
     shutdown_callback w = (Ok tt, w') /\
     (forall ended name,
        after_cleanup (fs w !! name) (fs (finish ended w') !! name)) /\
     (forall name m ch f,
        fs w !! name = Some (Dir m ch) -> only_dirs ch <> ∅ ->
        ch !! f = Some KFile -> Unlinking name f ∈ inflight w')) /\
  (forall gone files,
     fs w !! gone = None ->
     exists w',
       try_catch (shutdown_files (gone :: files))
                 (fun error => console_error (js "Cleanup error: " ++ message error)) w
         = (Ok tt, w') /\
       fs w' = fs w /\ inflight w' = [] /\
       exists text,
         console w' = console w ++ [(ErrorLevel, js "Cleanup error: " ++ text)]).
Proof.
  intros Hquiet. split.
  - unfold shutdown_callback. unfold bind at 1. unfold console_log at 1.
    set (w0 := World.Build _ _ _ _ _ _).
    assert (forall name, is_Some (fs w !! name) <->
              name ∈ map fst (map_to_list (fs w0))) as Hlisted.
    { intros name. change (fs w0) with (fs w).
      change (map fst (map_to_list (fs w))) with ((map_to_list (fs w)).*1).
      rewrite list_elem_of_fmap. split.
      - intros [e He]. exists (name, e). split; [done|]. by apply elem_of_map_to_list.
      - intros [[k e] [-> Hin]]. apply elem_of_map_to_list in Hin. by exists e. }
    destruct (shutdown_files_run (map fst (map_to_list (fs w0))) w0)
      as (w1 & E & Hc & Hfs & Hin).
    { apply NoDup_fst_map_to_list. }
    { intros f Hf. by apply Hlisted. }
    unfold try_catch, bind, readdir_root. rewrite E. cbn.
    eexists. split; [reflexivity|].
    change (fs w0) with (fs w) in *. change (inflight w0) with (inflight w) in *.
    rewrite Hquiet in Hin. cbn [unlinking omap app] in Hin.
    set (w2 := World.Build _ _ _ _ _ _).
    assert (forall name,
              fs w2 !! name = returned (fs w !! name) /\
              unlinking name (inflight w2) = pending (fs w !! name)) as Hspec.
    { intros name. change (fs w2) with (fs w1). change (inflight w2) with (inflight w1).
      rewrite Hfs, Hin. destruct (decide _) as [|Hn]; [done|].
      destruct (fs w !! name) as [e|] eqn:He; [|done].
      exfalso. apply Hn, Hlisted. by rewrite He. }
    split.
    + intros ended name. destruct (Hspec name) as [H1 H2].
      by apply (cleanup_settles (clock w) w2 name (fs w !! name) H1 H2).
    + intros name m ch f Hname Hsub Hf. apply elem_of_unlinking.
      destruct (Hspec name) as [_ ->]. rewrite Hname. cbn [pending].
      rewrite decide_False by done.
      apply others_in_flight_files; [done|]. apply elem_of_keys. by rewrite Hf.
  - intros gone files Hgone.
    unfold try_catch, shutdown_files. cbn [for_of]. unfold bind at 1.
    unfold shutdown_entry. unfold bind at 1. unfold stat. rewrite Hgone.
    eexists. split; [reflexivity|]. split; [done|]. split; [done|]. by eexists.
Qed.

(** At shutdown: a note, a workspace of plain files and one in which a
    program made a subdirectory. *)
Lemma shutdown_cleans_every_directory_witness :
  let w := World.Make
             {[ js "notes.txt" := File 0;
                js "fresh" := Dir 1000 {[ js "program.py" := KFile ]};
                js "ws" := Dir 0 (<[js "sub" := KDir]> {[ js "a.out" := KFile ]}) ]}
             1000 0 [] [] in
  inflight w = [] /\
  exists w',
    shutdown_callback w = (Ok tt, w') /\
    fs w' !! js "notes.txt" = Some (File 0) /\
    fs w' !! js "fresh" = None /\
    (exists m ch, fs w' !! js "ws" = Some (Dir m ch) /\ ch !! js "sub" = Some KDir) /\
    Unlinking (js "ws") (js "a.out") ∈ inflight w'.
Proof.
  cbv zeta. split; [reflexivity|].
  destruct (shutdown_cleans_every_directory
              (World.Make
                 {[ js "notes.txt" := File 0;
                    js "fresh" := Dir 1000 {[ js "program.py" := KFile ]};
                    js "ws" := Dir 0 (<[js "sub" := KDir]> {[ js "a.out" := KFile ]}) ]}
                 1000 0 [] []) eq_refl)
    as [(w' & E & Hduring & Hflight) _].
  exists w'. split; [exact E|]. split_and!.
  - pose proof (Hduring [] (js "notes.txt")) as H. by vm_compute in H.
  - pose proof (Hduring [] (js "fresh")) as H. by vm_compute in H.
  - pose proof (Hduring [] (js "ws")) as H. cbn [finish foldl] in H.
    assert (fs (World.Make
                 {[ js "notes.txt" := File 0;
                    js "fresh" := Dir 1000 {[ js "program.py" := KFile ]};
                    js "ws" := Dir 0 (<[js "sub" := KDir]> {[ js "a.out" := KFile ]}) ]}
                 1000 0 [] []) !! js "ws"
            = Some (Dir 0 (<[js "sub" := KDir]> {[ js "a.out" := KFile ]}))) as Hws
      by (by vm_compute).
    rewrite Hws in H. cbn [after_cleanup] in H.
    rewrite decide_False in H by (by vm_compute).
    destruct H as (m' & ch' & -> & Hsub & _). exists m', ch'. split; [done|].
    eapply lookup_weaken; [|exact Hsub]. by vm_compute.
  - apply (Hflight (js "ws") 0 (<[js "sub" := KDir]> {[ js "a.out" := KFile ]})
             (js "a.out")); by vm_compute.
Defined.

End WorkspaceMore.

(* ===================================================================== *)
(** ** Further properties of executeCode and the route *)
(* ===================================================================== *)

Module PipelineMore.
Import Registry Pipeline Lifecycle Workspace WorkspaceFacts RunnerFacts PipelineFacts.

(** *** The class-name pattern *)

Lemma span_app (f : N -> bool) (s : jsstring) :
  s = (span f s).1 ++ (span f s).2 /\
  Forall (fun c => f c = true) (span f s).1 /\
  (forall c rest, (span f s).2 = c :: rest -> f c = false).
Proof.
  induction s as [|c s (IH1 & IH2 & IH3)]; [by repeat split|].
  cbn [span]. destruct (f c) eqn:Ec.
  - destruct (span f s) as [taken rest]. cbn in *. split_and!.
    + by rewrite <- IH1.
    + by constructor.
    + exact IH3.
  - cbn. split_and!; [done|constructor|]. by intros c' rest [= <- _].
Qed.

Lemma strip_prefix_app (prefix s rest : jsstring) :
  strip_prefix prefix s = Some rest <-> s = prefix ++ rest.
Proof.
  revert s. induction prefix as [|p prefix IH]; intros s; cbn.
  - split; [by intros [= ->]|by intros ->].
  - destruct s as [|c s]; [by split|].
    destruct (N.eqb_spec p c) as [->|Hne].
    + rewrite IH. split; [by intros ->|by intros [= ->]].
    + split; [done|]. by intros [= -> _].
Qed.

Lemma span_prefix (f : N -> bool) (a b : jsstring) :
  Forall (fun c => f c = true) a ->
  (forall c rest, b = c :: rest -> f c = false) ->
  span f (a ++ b) = (a, b).
Proof.
  intros Ha Hb. induction Ha as [|c a Hc Ha IH]; cbn [app span].
  - destruct b as [|c rest]; [done|]. cbn. by rewrite (Hb c rest).
  - by rewrite Hc, IH.
Qed.

Lemma span_at_least (f : N -> bool) (a b : jsstring) :
  Forall (fun c => f c = true) a ->
  exists more, (span f (a ++ b)).1 = a ++ more.
Proof.
  intros Ha. induction Ha as [|c a Hc Ha [more IH]]; cbn [app span].
  - by eexists.
  - rewrite Hc. destruct (span f (a ++ b)) as [taken rest]. cbn in *.
    exists more. by rewrite IH.
Qed.

Lemma truthy_nonempty (s : jsstring) : truthy s = true <-> s <> [].
Proof. destruct s; cbn; split; congruence. Qed.

Lemma match_here_declares (s word : jsstring) :
  match_here s = Some word <-> declares s word.
Proof.
  unfold match_here, declares. split.
  - destruct (strip_prefix (js "public") s) as [s1|] eqn:E1; [|done].
    apply strip_prefix_app in E1.
    destruct (span_app is_space s1) as (A1 & A2 & A3).
    destruct (span is_space s1) as [sp1 s2]. cbn [fst snd] in *.
    destruct (truthy sp1) eqn:T1; [|done]. apply truthy_nonempty in T1.
    destruct (strip_prefix (js "class") s2) as [s3|] eqn:E2; [|done].
    apply strip_prefix_app in E2.
    destruct (span_app is_space s3) as (B1 & B2 & B3).
    destruct (span is_space s3) as [sp2 s4]. cbn [fst snd] in *.
    destruct (truthy sp2) eqn:T2; [|done]. apply truthy_nonempty in T2.
    destruct (span_app is_word s4) as (C1 & C2 & C3).
    destruct (span is_word s4) as [w rest]. cbn [fst snd] in *.
    destruct (truthy w) eqn:T3; [|done]. apply truthy_nonempty in T3.
    intros [= <-]. exists sp1, sp2, rest. split_and!; try done.
    by rewrite E1, A1, E2, B1, C1.
  - intros (sp1 & sp2 & rest & -> & N1 & F1 & N2 & F2 & N3 & F3 & Hrest).
    rewrite (proj2 (strip_prefix_app (js "public") _ _) eq_refl).
    rewrite (span_prefix is_space sp1 (js "class" ++ sp2 ++ word ++ rest) F1).
    2: { intros c rest'. by intros [= <- _]. }
    rewrite (proj2 (truthy_nonempty sp1) N1).
    rewrite (proj2 (strip_prefix_app (js "class") _ _) eq_refl).
    assert (forall c, is_word c = true -> is_space c = false) as Hdisjoint.
    { intros c. unfold is_word, is_space, between.
      intros H. repeat (apply orb_prop in H as [H|H]);
        repeat match goal with
               | H : (_ && _)%bool = true |- _ => apply andb_prop in H as [? ?]
               | H : (_ <=? _)%N = true |- _ => apply N.leb_le in H
               | H : (_ =? _)%N = true |- _ => apply N.eqb_eq in H
               end;
        repeat (apply orb_false_intro);
        try (apply andb_false_iff);
        rewrite ?N.leb_gt, ?N.eqb_neq; lia. }
    rewrite (span_prefix is_space sp2 (word ++ rest) F2).
    2: { intros c rest' Heq. destruct word as [|c' word]; [done|].
         injection Heq as <- _. apply Hdisjoint. by inversion F3. }
    rewrite (proj2 (truthy_nonempty sp2) N2).
    rewrite (span_prefix is_word word rest F3 Hrest).
    by rewrite (proj2 (truthy_nonempty word) N3).
Qed.


(** X7: [code.match(/public\s+class\s+(\w+)/)]: the name found is the
    one of the leftmost place where the text reads "public", white space,
    "class", white space and a longest run of word characters; there is
    no match exactly when the text has no such place. *)
Theorem match_public_class_is_leftmost (code : jsstring) :
  match match_public_class code with
  | Some word =>
      exists before after,
        code = before ++ after /\ declares after word /\
        forall b a w, code = b ++ a -> (length b < length before)%nat -> ~ declares a w
  | None => forall before after w, code = before ++ after -> ~ declares after w
  end.
Proof.
  induction code as [|c code IH].
  - assert (match_public_class [] = None) as -> by reflexivity.
    intros before after w Heq. symmetry in Heq. apply app_eq_nil in Heq as [_ ->].
    rewrite <- match_here_declares. by vm_compute.
  - cbn [match_public_class].
    destruct (match_here (c :: code)) as [word|] eqn:Ehere.
    + exists [], (c :: code). split; [done|]. split; [by apply match_here_declares|].
      intros b a w _ Hlt. cbn in Hlt. lia.
    + assert (forall w, ~ declares (c :: code) w) as Hnot.
      { intros w Hw. apply match_here_declares in Hw. congruence. }
      destruct (match_public_class code) as [word|].
      * destruct IH as (before & after & -> & Hdecl & Hleft).
        exists (c :: before), after. split; [done|]. split; [done|].
        intros b a w Heq Hlt. destruct b as [|c' b].
        -- cbn in Heq. subst a. apply Hnot.
        -- injection Heq as <- Heq. apply (Hleft b a w Heq). cbn in Hlt. lia.
      * intros before after w Heq. destruct before as [|c' before].
        -- cbn in Heq. subst after. apply Hnot.
        -- injection Heq as <- Heq. by apply (IH before after w).
Qed.

Lemma match_here_word (s word : jsstring) :
  match_here s = Some word -> word <> [] /\ Forall (fun c => is_word c = true) word.
Proof.
  intros H. apply match_here_declares in H as (?&?&?&_&_&_&_&_&Hn&Hw&_). done.
Qed.

Lemma match_public_class_word (code word : jsstring) :
  match_public_class code = Some word ->
  word <> [] /\ Forall (fun c => is_word c = true) word.
Proof.
  induction code as [|c code IH].
  - by intros [=].
  - cbn [match_public_class].
    destruct (match_here (c :: code)) as [w|] eqn:E; [|exact IH].
    intros [= <-]. by apply (match_here_word (c :: code)).
Qed.

Lemma className_of_word (code : jsstring) :
  className_of code <> [] /\ Forall (fun c => is_word c = true) (className_of code).
Proof.
  unfold className_of.
  destruct (match_public_class code) as [word|] eqn:E; cbn.
  - by apply (match_public_class_word code).
  - split; [by vm_compute|repeat constructor].
Qed.

(** X8: the class name used for a Java submission is never empty and is
    made of letters, digits and underscores only, whatever the code
    contains; without a match it is "Main". *)
Theorem className_is_a_word (code : jsstring) :
  className_of code <> [] /\
  Forall (fun c => is_word c = true) (className_of code) /\
  (match_public_class code = None -> className_of code = js "Main").
Proof.
  destruct (className_of_word code) as [H1 H2]. split; [exact H1|]. split; [exact H2|].
  unfold className_of. by intros ->.
Qed.

Lemma word_is_not_slash (c : N) : is_word c = true -> c <> slash.
Proof. intros H ->. by vm_compute in H. Qed.

Ltac no_slash := apply (bool_decide_unpack _); by vm_compute.

(** X9: the name under which the submission is written is a single
    path segment: it contains no [/], for every language id that passes
    the guard and every code. *)
Theorem source_filename_has_no_separator
    (lang : jsstring) (config : property) (code : jsstring) :
  Registry.get lang = Some config ->
  slash ∉ source_filename lang config code.
Proof.
  intros Hget. unfold source_filename.
  assert (slash ∉ default undefined_text (get_extension config)) as Hext.
  { destruct config as [c|]; cbn; [|no_slash].
    apply get_config_cases in Hget as [[_ ->]|[[_ ->]|[[_ ->]|[_ ->]]]]; no_slash. }
  case_decide.
  - rewrite !not_elem_of_app. split_and!; [|no_slash|done].
    destruct (className_of_word code) as (_ & Hw).
    intros Hin. rewrite Forall_forall in Hw. by apply (word_is_not_slash _ (Hw _ Hin)).
  - rewrite not_elem_of_app. split; [no_slash|done].
Qed.

Lemma source_filename_has_no_separator_witness :
  Registry.get (js "java") = Some (Config java) /\
  slash ∉ source_filename (js "java") (Config java) (js "public class Main { }").
Proof.
  split; [by vm_compute|].
  apply (source_filename_has_no_separator (js "java") (Config java)
           (js "public class Main { }")).
  by vm_compute.
Defined.


(** *** The pipeline, step by step *)

(** X10: a request that runs to the end.  For a registered language on a
    fresh workspace, when the compiler (if the language has one) exits
    with code 0 and the run resolves, [executeCode] returns the run's
    stdout, stderr, error and exit code with the time elapsed since the
    source was written; [executeProcess] was called for the compiler (if
    any) and then for the program, which is started on the files the
    compiler left and is given the request's input; and the workspace,
    left with plain files only, is gone. *)
Theorem completed_run_is_reported
    (TEMP_DIR : jsstring) (uuid_of : nat -> jsstring) (R : runner)
    (lang src stdin : jsstring) (c : LanguageConfig) (w : World.t)
    (prc pr : Runner.ProcessResult) (files2 files3 : FS) (now2 now3 : Z) :
  let id := uuid_of (uuids w) in
  let workDir := path_join TEMP_DIR id in
  let filename := source_filename lang (Config c) src in
  let filepath := path_join workDir filename in
  let target := invocation lang src workDir filepath in
  Registry.get lang = Some (Config c) ->
  fs w !! id = None ->
  match compile c with
  | Some step =>
      R (compile_command step) (compile_arguments lang step workDir filepath)
        (compile_options workDir c) (prepared id filename w) (clock w)
        = (Some (Runner.Resolved prc), files2, now2) /\
      Runner.r_exitCode prc = Some 0
  | None => files2 = prepared id filename w /\ now2 = clock w
  end ->
  R target.1 target.2 (run_options workDir stdin c) files2 now2
    = (Some (Runner.Resolved pr), files3, now3) ->
  removable (files3 !! id) ->
  exists w',
    executeCode TEMP_DIR uuid_of R lang src stdin w =
      (Ok {| output := Runner.r_stdout pr; stderr := Runner.r_stderr pr;
             error := Runner.r_error pr; executionTime := now3 - clock w;
             exitCode := Some (Runner.r_exitCode pr) |}, w') /\
    executions (calls w') =
      executions (calls w)
      ++ match compile c with
         | Some step =>
             [ExecuteProcess (compile_command step)
                (compile_arguments lang step workDir filepath)]
         | None => []
         end
      ++ [ExecuteProcess target.1 target.2] /\
    fs w' !! id = None.
Proof.
  cbv zeta. intros Hget Hfresh Hcompile Hrun Hflat.
  destruct (executeCode_completed TEMP_DIR uuid_of R lang src stdin c w prc pr
              files2 files3 now2 now3 Hget Hfresh Hcompile Hrun)
    as (w1 & w' & Hfs1 & _ & Hex1 & Hclean & Hexec).
  destruct (cleanupWorkDir_removable (uuid_of (uuids w)) w1)
    as (w2 & E & _ & _ & Hex & _ & Hfs & _); [by rewrite Hfs1|].
  rewrite Hclean in E. injection E as <-.
  exists w'. split; [exact Hexec|]. split; [by rewrite Hex|].
  rewrite Hfs. apply lookup_delete_eq.
Qed.

Lemma completed_run_is_reported_witness :
  let w := World.Make ∅ 1000 0 [] [] in
  exists w',
    executeCode (js "/app/temp") (fun _ => js "job") prints_hello
                (js "python") (js "print('Hello', end='')") (js "7") w =
      (Ok {| output := js "Hello"; stderr := []; error := None;
             executionTime := 40; exitCode := Some (Some 0) |}, w') /\
    executions (calls w') =
      [ExecuteProcess (js "python3") [js "-u"; js "/app/temp/job/program.py"]] /\
    fs w' !! js "job" = None.
Proof.
  cbv zeta.
  apply (completed_run_is_reported (js "/app/temp") (fun _ => js "job") prints_hello
           (js "python") (js "print('Hello', end='')") (js "7") python
           (World.Make ∅ 1000 0 [] [])
           (Runner.Result [] [] None None)
           (Runner.Result (js "Hello") [] (Some 0) None)
           (<[js "job" := Dir 1000 {[ js "program.py" := KFile ]}]> ∅)
           (<[js "job" := Dir 1000 {[ js "program.py" := KFile ]}]> ∅)
           1000 1040);
    try reflexivity.
  split; reflexivity.
Defined.

(** X11: when the first call of [executeProcess] rejects (the program
    cannot be started), [executeCode] throws that same error, after
    [cleanupWorkDir]: nothing else is started, and the workspace, left
    with plain files only, is gone. *)
Theorem rejection_is_rethrown_after_cleanup
    (TEMP_DIR : jsstring) (uuid_of : nat -> jsstring) (R : runner)
    (lang src stdin : jsstring) (c : LanguageConfig) (w : World.t)
    (e : exn) (files2 : FS) (now2 : Z) :
  let id := uuid_of (uuids w) in
  let workDir := path_join TEMP_DIR id in
  let filename := source_filename lang (Config c) src in
  let filepath := path_join workDir filename in
  let call := first_call lang src stdin workDir filepath c in
  Registry.get lang = Some (Config c) ->
  fs w !! id = None ->
  R call.1.1 call.1.2 call.2 (prepared id filename w) (clock w)
    = (Some (Runner.Rejected e), files2, now2) ->
  removable (files2 !! id) ->
  exists w',
    executeCode TEMP_DIR uuid_of R lang src stdin w = (Throw e, w') /\
    executions (calls w') = executions (calls w) ++ [ExecuteProcess call.1.1 call.1.2] /\
    fs w' !! id = None.
Proof.
  cbv zeta. intros Hget Hfresh Hcall Hflat.
  pose proof (executeCode_prepared TEMP_DIR uuid_of R lang src stdin (Config c) w
                Hget Hfresh) as Hprep.
  cbv zeta in Hprep. rewrite Hprep. clear Hprep.
  unfold try_catch at 1. unfold bind at 1.
  unfold compile_phase. cbn [get_compile get_timeout get_memoryLimit].
  rewrite (run_target_registered lang c src _ _ Hget).
  set (id := uuid_of (uuids w)) in *.
  unfold first_call in *.
  destruct (compile c) as [step|]; cbn [fst snd] in Hcall.
  - unfold bind at 1. unfold await_executeProcess at 1.
    cbn [fs clock uuids console calls inflight]. unfold compile_options in Hcall. rewrite Hcall.
    unfold bind at 1. unfold try_catch.
    match goal with |- context [cleanupWorkDir id ?w1] =>
      destruct (cleanupWorkDir_removable id w1) as (w2 & E & Hc2 & _ & Hex & _ & Hfs & _);
        [exact Hflat|] end.
    rewrite E. unfold throw. cbn in Hc2, Hex, Hfs.
    eexists. split; [reflexivity|]. split.
    + rewrite Hex. unfold executions. rewrite !List.filter_app. cbn.
      by rewrite !app_nil_r.
    + rewrite Hfs. apply lookup_delete_eq.
  - unfold ret at 1. unfold bind at 1. unfold ret at 1. cbn [fst snd].
    unfold bind at 1. unfold await_executeProcess at 1.
    cbn [fs clock uuids console calls inflight]. unfold run_options in Hcall. rewrite Hcall.
    unfold bind at 1. unfold try_catch.
    match goal with |- context [cleanupWorkDir id ?w1] =>
      destruct (cleanupWorkDir_removable id w1) as (w2 & E & Hc2 & _ & Hex & _ & Hfs & _);
        [exact Hflat|] end.
    rewrite E. unfold throw. cbn in Hc2, Hex, Hfs.
    eexists. split; [reflexivity|]. split.
    + rewrite Hex. unfold executions. rewrite !List.filter_app. cbn.
      by rewrite !app_nil_r.
    + rewrite Hfs. apply lookup_delete_eq.
Qed.

Lemma rejection_is_rethrown_after_cleanup_witness :
  let w := World.Make ∅ 1000 0 [] [] in
  let os : Runner.OS := fun _ _ _ files now => ([], files, now) in
  exists w',
    executeCode (js "/app/temp") (fun _ => js "job") (Runner.executeProcess ∅ os)
                (js "cpp") (js "int main() {}") [] w =
      (Throw (ReferenceError (js "Cannot access 'process' before initialization")), w') /\
    executions (calls w') =
      [ExecuteProcess (js "g++")
         [js "/app/temp/job/program.cpp"; js "-o"; js "/app/temp/job/program";
          js "-std=c++17"; js "-Wall"; js "-O2"]] /\
    fs w' !! js "job" = None.
Proof.
  cbv zeta.
  apply (rejection_is_rethrown_after_cleanup (js "/app/temp") (fun _ => js "job")
           (Runner.executeProcess ∅ (fun _ _ _ files now => ([], files, now)))
           (js "cpp") (js "int main() {}") [] cpp (World.Make ∅ 1000 0 [] [])
           (ReferenceError (js "Cannot access 'process' before initialization"))
           (<[js "job" := Dir 1000 {[ js "program.cpp" := KFile ]}]> ∅) 1000);
    reflexivity.
Defined.


(** *** What every call leaves behind *)

Lemma bind_inv {A B} (m : M A) (k : A -> M B) (w w' : World.t) (r : result B) :
  bind m k w = (r, w') ->
  (exists a w1, m w = (Ok a, w1) /\ k a w1 = (r, w')) \/
  (exists e, m w = (Throw e, w') /\ r = Throw e) \/
  (m w = (Never, w') /\ r = Never).
Proof.
  unfold bind. destruct (m w) as [[a|e|] w1]; intros H.
  - left. by exists a, w1.
  - right. left. inversion H. by exists e.
  - right. right. by inversion H.
Qed.

(** The steps of [executeCode] before the cleanup leave nothing in
    flight. *)
Lemma mkdir_inflight (dir : jsstring) (w : World.t) :
  inflight (mkdir dir w).2 = inflight w.
Proof. unfold mkdir. by destruct (fs w !! dir) as [[]|]. Qed.

Lemma writeFile_inflight (dir file : jsstring) (w : World.t) :
  inflight (writeFile dir file w).2 = inflight w.
Proof.
  unfold writeFile. destruct (fs w !! dir) as [[m|m ch]|]; [done| |done].
  by destruct (ch !! file) as [[]|].
Qed.

Lemma await_inflight (R : runner) (command : jsstring) (args : list jsstring)
    (options : Runner.Options) (w : World.t) :
  inflight (await_executeProcess R command args options w).2 = inflight w.
Proof.
  unfold await_executeProcess.
  by destruct (R command args options (fs w) (clock w)) as [[[[]|] files] now].
Qed.

Lemma run_target_inflight (lang : jsstring) (config : property)
    (src workDir filepath : jsstring) (w : World.t) :
  (run_target lang config src workDir filepath w).2 = w.
Proof.
  unfold run_target. destruct (decide (lang = js "cpp")).
  - destruct (get_run config) as [r|]; [|done]. by destruct (run_args r).
  - destruct (get_run config) as [r|]; [|done].
    by destruct (run_command r), (run_args r).
Qed.

(** [cleanupWorkDir] followed by steps that touch nothing. *)
Lemma cleanup_then (id : jsstring) {A} (k : M A) (w w' : World.t) (r : result A) :
  (cleanupWorkDir id ;;; k) w = (r, w') ->
  (forall w1, (k w1).2 = w1) ->
  inflight w = [] ->
  just_cleaned id w'.
Proof.
  intros H Hk Hquiet. unfold bind in H.
  destruct (cleanupWorkDir_run id w) as (w1 & E & _).
  rewrite E in H. exists w. split; [exact Hquiet|].
  specialize (Hk w1). rewrite H in Hk. cbn in Hk. by subst.
Qed.

(** The handler of [executeCode], lines 311-314. *)
Lemma handler_cleans (id : jsstring) {A} (e : exn) (w w' : World.t) (r : result A) :
  (try_catch (cleanupWorkDir id) (fun _ => ret tt) ;;; throw e) w = (r, w') ->
  inflight w = [] ->
  just_cleaned id w'.
Proof.
  intros H Hquiet. unfold bind, try_catch, throw in H.
  destruct (cleanupWorkDir_run id w) as (w1 & E & _).
  rewrite E in H. injection H as _ <-. by exists w.
Qed.

Lemma compile_phase_cleans
    (R : runner) (lang : jsstring) (config : property)
    (id workDir filepath : jsstring) (startTime : Z) (w w' : World.t)
    (r : result (option ExecutionResult)) :
  compile_phase R lang config id workDir filepath startTime w = (r, w') ->
  inflight w = [] ->
  match r with
  | Ok (Some _) => just_cleaned id w'
  | Ok None | Throw _ => inflight w' = []
  | Never => True
  end.
Proof.
  unfold compile_phase. intros H Hquiet.
  destruct (get_compile config) as [step|]; [|by injection H as <- <-].
  apply bind_inv in H as [(prc & w1 & H1 & H)|[(e & H1 & ->)|[_ ->]]]; [| |done].
  - pose proof (await_inflight R (compile_command step)
                  (compile_arguments lang step workDir filepath)
                  {| Runner.cwd := Some workDir; Runner.input := None;
                     Runner.timeout := get_timeout config;
                     Runner.memoryLimit := None |} w) as I.
    rewrite H1 in I. cbn in I. rewrite Hquiet in I.
    destruct (code_is_not_zero _); [|by injection H as <- <-].
    assert (just_cleaned id w') as Hc by (by apply cleanup_then in H).
    unfold bind in H. destruct (cleanupWorkDir_run id w1) as (w2 & E & _).
    rewrite E in H. unfold Date_now, ret in H. by injection H as <- _.
  - pose proof (await_inflight R (compile_command step)
                  (compile_arguments lang step workDir filepath)
                  {| Runner.cwd := Some workDir; Runner.input := None;
                     Runner.timeout := get_timeout config;
                     Runner.memoryLimit := None |} w) as I.
    rewrite H1 in I. cbn in I. by rewrite Hquiet in I.
Qed.

Lemma executeCode_just_cleaned
    (TEMP_DIR : jsstring) (uuid_of : nat -> jsstring) (R : runner)
    (lang src stdin : jsstring) (w w' : World.t) (r : result ExecutionResult) :
  executeCode TEMP_DIR uuid_of R lang src stdin w = (r, w') ->
  inflight w = [] ->
  is_Some (Registry.get lang) -> r <> Never ->
  just_cleaned (uuid_of (uuids w)) w'.
Proof.
  unfold executeCode. intros H Hquiet [config Hget] Hr. rewrite Hget in H.
  unfold bind at 1 in H. unfold uuidv4 at 1 in H.
  set (id := uuid_of (uuids w)) in *.
  set (w0 := World.Build _ _ _ _ _ _) in H.
  assert (inflight w0 = []) as I0 by exact Hquiet.
  unfold try_catch at 1 in H.
  match type of H with (match ?body ?w0 with _ => _ end) = _ =>
    destruct (body w0) as [[res|e|] wb] eqn:Hbody end.
  3: by injection H as <- _.
  2: { (* the body threw: nothing was in flight when it did *)
    apply (handler_cleans id e wb w' r H).
    apply bind_inv in Hbody as [(? & w1 & H1 & Hbody)|[(e1 & H1 & _)|[_ [=]]]].
    2: { pose proof (mkdir_inflight id w0) as I. rewrite H1 in I. cbn in I. congruence. }
    pose proof (mkdir_inflight id w0) as I1. rewrite H1 in I1. cbn in I1.
    apply bind_inv in Hbody as [(? & w2 & H2 & Hbody)|[(e2 & H2 & _)|[_ [=]]]].
    2: { match type of H2 with writeFile ?d ?f ?w = _ =>
           pose proof (writeFile_inflight d f w) as I end.
         rewrite H2 in I. cbn in I. congruence. }
    match type of H2 with writeFile ?d ?f ?w = _ =>
      pose proof (writeFile_inflight d f w) as I2 end.
    rewrite H2 in I2. cbn in I2.
    apply bind_inv in Hbody as [(startTime & w3 & H3 & Hbody)|[(e3 & [=] & _)|[[=] _]]].
    injection H3 as _ <-.
    apply bind_inv in Hbody as [(failure & w4 & H4 & Hbody)|[(e4 & H4 & _)|[_ [=]]]].
    2: { apply compile_phase_cleans in H4; [exact H4|congruence]. }
    apply compile_phase_cleans in H4; [|congruence].
    destruct failure as [early|]; [by injection Hbody|].
    apply bind_inv in Hbody as [(target & w5 & H5 & Hbody)|[(e5 & H5 & _)|[_ [=]]]].
    2: { match type of H5 with run_target ?a ?b ?c ?d ?f ?w = _ =>
           pose proof (run_target_inflight a b c d f w) as I end.
         rewrite H5 in I. cbn in I. by subst. }
    match type of H5 with run_target ?a ?b ?c ?d ?f ?w = _ =>
      pose proof (run_target_inflight a b c d f w) as I5 end.
    rewrite H5 in I5. cbn in I5. subst w5.
    apply bind_inv in Hbody as [(runResult & w6 & H6 & Hbody)|[(e6 & H6 & _)|[_ [=]]]].
    2: { match type of H6 with await_executeProcess ?a ?b ?c ?d ?w = _ =>
           pose proof (await_inflight a b c d w) as I end.
         rewrite H6 in I. cbn in I. congruence. }
    apply bind_inv in Hbody as [(now & w7 & H7 & Hbody)|[(e7 & [=] & _)|[[=] _]]].
    unfold bind in Hbody. destruct (cleanupWorkDir_run id w7) as (w8 & E & _).
    rewrite E in Hbody. by inversion Hbody. }
  (* the body returned *)
  injection H as <- <-.
  apply bind_inv in Hbody as [(? & w1 & H1 & Hbody)|[(e1 & _ & [=])|[_ [=]]]].
  pose proof (mkdir_inflight id w0) as I1. rewrite H1 in I1. cbn in I1.
  apply bind_inv in Hbody as [(? & w2 & H2 & Hbody)|[(e2 & _ & [=])|[_ [=]]]].
  match type of H2 with writeFile ?d ?f ?w = _ =>
    pose proof (writeFile_inflight d f w) as I2 end.
  rewrite H2 in I2. cbn in I2.
  apply bind_inv in Hbody as [(startTime & w3 & H3 & Hbody)|[(e3 & _ & [=])|[_ [=]]]].
  injection H3 as _ <-.
  apply bind_inv in Hbody as [(failure & w4 & H4 & Hbody)|[(e4 & _ & [=])|[_ [=]]]].
  apply compile_phase_cleans in H4; [|congruence].
  destruct failure as [early|]; [by injection Hbody as _ <-|].
  apply bind_inv in Hbody as [(target & w5 & H5 & Hbody)|[(e5 & _ & [=])|[_ [=]]]].
  match type of H5 with run_target ?a ?b ?c ?d ?f ?w = _ =>
    pose proof (run_target_inflight a b c d f w) as I5 end.
  rewrite H5 in I5. cbn in I5. subst w5.
  apply bind_inv in Hbody as [(runResult & w6 & H6 & Hbody)|[(e6 & _ & [=])|[_ [=]]]].
  match type of H6 with await_executeProcess ?a ?b ?c ?d ?w = _ =>
    pose proof (await_inflight a b c d w) as I6 end.
  rewrite H6 in I6. cbn in I6.
  apply bind_inv in Hbody as [(now & w7 & H7 & Hbody)|[(e7 & _ & [=])|[_ [=]]]].
  injection H7 as _ <-.
  apply cleanup_then in Hbody; [exact Hbody|done|congruence].
Qed.

(** What a workspace holds after its cleanup. *)
Lemma just_cleaned_workspace (id : jsstring) (w' : World.t) :
  just_cleaned id w' ->
  exists e,
    (forall ended, after_cleanup e (fs (finish ended w') !! id)) /\
    fs (quiesce w') !! id = e ≫= cleaned (clock w') /\
    unlinking id (inflight w') = pending e.
Proof.
  intros (w1 & Hquiet & E).
  destruct (cleanupWorkDir_run id w1) as (w2 & E2 & Hc & _ & _ & _ & Hfs & Hin & _).
  rewrite E in E2. injection E2 as <-.
  rewrite Hquiet in Hin. cbn [app] in Hin.
  assert (fs w' !! id = returned (fs w1 !! id)) as Hdir by (by rewrite Hfs, decide_True).
  assert (unlinking id (inflight w') = pending (fs w1 !! id)) as Hpending
    by (by rewrite Hin, unlinking_map, decide_True).
  exists (fs w1 !! id).
  destruct (cleanup_settles (clock w') w' id (fs w1 !! id) Hdir Hpending) as [H1 H2].
  by split_and!.
Qed.

(** X12: whenever [executeCode], called while no unlink is in flight,
    returns or throws for a language id that passed its guard,
    [cleanupWorkDir] has run on the workspace of the request.  Once the unlinks it may have left in flight have finished,
    no plain file is left there: the directory is gone or holds
    subdirectories only.  Until then a plain file can still be found in
    it, but only in a workspace that holds a subdirectory, and its
    unlink is in flight.  Only a run whose promise never settles leaves
    its files for good. *)
Theorem no_file_is_left_behind
    (TEMP_DIR : jsstring) (uuid_of : nat -> jsstring) (R : runner)
    (lang src stdin : jsstring) (w : World.t) :
  let out := executeCode TEMP_DIR uuid_of R lang src stdin w in
  let id := uuid_of (uuids w) in
  inflight w = [] ->
  is_Some (Registry.get lang) ->
  out.1 <> Never ->
  (forall m ch f,
     fs (quiesce out.2) !! id = Some (Dir m ch) -> ch !! f <> Some KFile) /\
  (forall ended m ch f,
     fs (finish ended out.2) !! id = Some (Dir m ch) -> ch !! f = Some KFile ->
     Unlinking id f ∈ inflight out.2 /\ exists d, ch !! d = Some KDir).
Proof.
  cbv zeta. intros Hquiet Hget Hr.
  destruct (executeCode TEMP_DIR uuid_of R lang src stdin w) as [r w'] eqn:E.
  cbn [fst snd] in *.
  destruct (just_cleaned_workspace (uuid_of (uuids w)) w')
    as (e & Hduring & Hafter & Hpending);
    [by apply (executeCode_just_cleaned _ _ _ _ _ _ _ _ _ E)|].
  split.
  - intros m ch f. rewrite Hafter.
    destruct e as [[m0|m0 ch0]|]; cbn; [done| |done].
    case_decide; [done|]. intros [= _ <-]. rewrite only_dirs_lookup.
    by destruct (ch0 !! f) as [[]|].
  - intros ended m ch f Hdir Hf. specialize (Hduring ended). rewrite Hdir in Hduring.
    destruct e as [[m0|m0 ch0]|]; cbn in Hduring, Hpending; [done| |done].
    destruct (decide (only_dirs ch0 = ∅)) as [|Hsub]; [done|].
    destruct Hduring as (m' & ch' & [= <- <-] & Hdirs & Hfiles). split.
    + apply elem_of_unlinking. rewrite Hpending.
      assert (ch0 !! f = Some KFile) as Hf0 by (by eapply lookup_weaken).
      apply others_in_flight_files; [done|]. apply elem_of_keys. by rewrite Hf0.
    + apply map_choose in Hsub as (d & k & Hk).
      exists d. pose proof (lookup_weaken _ _ _ _ Hk Hdirs) as Hd.
      rewrite only_dirs_lookup in Hk. by destruct (ch0 !! d) as [[]|]; simplify_eq.
Qed.

(** A program that makes a subdirectory and a file in its workspace. *)
Lemma no_file_is_left_behind_witness :
  let w := World.Make ∅ 1000 0 [] [] in
  let out := executeCode (js "/app/temp") (fun _ => js "job") makes_subdirectory
               (js "python") (js "import os") [] w in
  inflight w = [] /\ is_Some (Registry.get (js "python")) /\ out.1 <> Never /\
  fs (quiesce out.2) !! js "job" = Some (Dir 1040 {[ js "out" := KDir ]}) /\
  (forall m ch f,
     fs (quiesce out.2) !! js "job" = Some (Dir m ch) -> ch !! f <> Some KFile) /\
  Unlinking (js "job") (js "log.txt") ∈ inflight out.2.
Proof.
  cbv zeta. split; [reflexivity|]. split; [by eexists|]. split; [by vm_compute|].
  split; [by vm_compute|]. split; [|apply (bool_decide_unpack _); by vm_compute].
  apply (no_file_is_left_behind (js "/app/temp") (fun _ => js "job") makes_subdirectory
           (js "python") (js "import os") [] (World.Make ∅ 1000 0 [] []));
    [reflexivity | by eexists | by vm_compute].
Defined.


(** *** The route *)


Lemma only_dirs_singleton_file (f : jsstring) : only_dirs {[f := KFile]} = ∅.
Proof.
  apply only_dirs_empty_iff. intros f' [k Hk].
  apply lookup_singleton_Some in Hk as [<- <-]. apply lookup_singleton_eq.
Qed.

(** X14: a language id that passes the guard without being configured
    (a name inherited from [Object.prototype]) always ends the same way,
    whatever the code and input: the workspace is created, the source is
    written as [program.undefined], reading [config.run.command] throws a
    [TypeError], and the workspace is removed again; no program is
    started and the file system is as before. *)
Theorem inherited_language_throws_after_creating_workspace
    (TEMP_DIR : jsstring) (uuid_of : nat -> jsstring) (R : runner)
    (lang src stdin : jsstring) (w : World.t) :
  let id := uuid_of (uuids w) in
  Registry.get lang = Some Inherited ->
  fs w !! id = None ->
  exists w',
    executeCode TEMP_DIR uuid_of R lang src stdin w =
      (Throw (TypeError (js "Cannot read properties of undefined (reading '"
                         ++ js "command" ++ js "')")), w') /\
    fs w' = fs w /\
    created (calls w') = created (calls w) ++ [Mkdir id] /\
    executions (calls w') = executions (calls w).
Proof.
  cbv zeta. intros Hget Hfresh.
  assert (lang <> js "cpp") as Hcpp.
  { intros ->. by vm_compute in Hget. }
  pose proof (executeCode_prepared TEMP_DIR uuid_of R lang src stdin Inherited w
                Hget Hfresh) as Hprep.
  cbv zeta in Hprep. rewrite Hprep. clear Hprep.
  set (id := uuid_of (uuids w)) in *.
  unfold try_catch at 1. unfold bind at 1.
  unfold compile_phase. cbn [get_compile]. unfold ret at 1.
  unfold bind at 1. unfold run_target. rewrite decide_False by done.
  cbn [get_run]. unfold throw at 1. unfold undefined_read.
  unfold bind at 1. unfold try_catch.
  match goal with |- context [cleanupWorkDir id ?w1] =>
    destruct (cleanupWorkDir_removable id w1) as (w2 & E & _ & _ & Hex & Hcr & Hfs & _)
  end.
  { cbn [fs]. unfold prepared. rewrite lookup_insert_eq. cbn.
    apply only_dirs_singleton_file. }
  rewrite E. unfold throw. cbn in Hex, Hcr, Hfs.
  eexists. split; [reflexivity|]. split_and!.
  - rewrite Hfs. unfold prepared. rewrite delete_insert_eq. by apply delete_id.
  - rewrite Hcr. unfold created. rewrite !List.filter_app. reflexivity.
  - rewrite Hex. unfold executions. rewrite !List.filter_app. cbn.
    by rewrite !app_nil_r.
Qed.

Lemma inherited_language_throws_after_creating_workspace_witness :
  let w := World.Make ∅ 1000 0 [] [] in
  exists w',
    executeCode (js "/app/temp") (fun _ => js "job") prints_hello
                (js "constructor") (js "x") [] w =
      (Throw (TypeError (js "Cannot read properties of undefined (reading '"
                         ++ js "command" ++ js "')")), w') /\
    fs w' = fs w /\
    created (calls w') = created (calls w) ++ [Mkdir (js "job")] /\
    executions (calls w') = executions (calls w).
Proof.
  cbv zeta.
  apply (inherited_language_throws_after_creating_workspace (js "/app/temp")
           (fun _ => js "job") prints_hello (js "constructor") (js "x") []
           (World.Make ∅ 1000 0 [] [])); reflexivity.
Defined.

End PipelineMore.
